(** * zod-to-openapi: the OpenAPI generator, embedded and verified

    A shallow embedding of [src/openapi-generator.ts] (class
    [OpenAPIGenerator]) and of the OpenAPI 3.0 strategy
    [OpenApiGeneratorV30Specifics], followed by the properties of the
    specification that concern them.

    JavaScript objects are association lists in property order, the three
    registries of the generator are threaded explicitly as a state, and a
    thrown [Error] is an outcome that keeps the state reached so far. *)

From Stdlib Require Import String List ZArith Bool Arith Lia.
From Stdlib Require Import PrimFloat SpecFloat FloatOps.
Import ListNotations.
Local Open Scope string_scope.
Set Warnings "-register-all".

(* ================================================================= *)
(** * JavaScript values and objects *)

(** The values the generator reads and writes. A number is an IEEE 754
    double. *)
Inductive Value : Type :=
| VUndefined
| VNull
| VBool (b : bool)
| VNum (n : float)
| VStr (s : string)
| VArr (items : list Value)
| VObj (fields : list (string * Value)).
Arguments VNum n%_float.

(** An object: its own properties, in property order. *)
Definition JSObject : Type := list (string * Value).

Module Obj.
Section Props.
Context {A : Type}.

(** The own property [k] of [o]. What a read [o[k]] finds beyond the own
  properties is [inherited], below. *)
Fixpoint get (k : string) (o : list (string * A)) : option A :=
match o with
| [] => None
| (k', v) :: rest => if String.eqb k k' then Some v else get k rest
end.

(** [o[k] = v]: overwrite in place, or append a new property. *)
Fixpoint put (k : string) (v : A) (o : list (string * A)) : list (string * A) :=
match o with
| [] => [(k, v)]
| (k', v') :: rest =>
    if String.eqb k k' then (k, v) :: rest else (k', v') :: put k v rest
end.

(** [Object.assign(target, source)]. *)
Definition assign (target source : list (string * A)) : list (string * A) :=
fold_left (fun t kv => put (fst kv) (snd kv) t) source target.

(** The object literal [{...a, ...b}]. *)
Definition spread (a b : list (string * A)) : list (string * A) :=
assign (assign [] a) b.

Definition has (k : string) (o : list (string * A)) : bool :=
match get k o with Some _ => true | None => false end.

Definition keys (o : list (string * A)) : list string := map fst o.
Definition values (o : list (string * A)) : list A := map snd o.
End Props.
End Obj.

(** [o[k]] as a value: a missing property reads as [undefined]. *)
Definition prop (k : string) (o : JSObject) : Value :=
  match Obj.get k o with Some v => v | None => VUndefined end.

Definition isUndefined (v : Value) : bool :=
  match v with VUndefined => true | _ => false end.

Definition isNull (v : Value) : bool :=
  match v with VNull => true | _ => false end.

Definition isNil (v : Value) : bool :=
  match v with VUndefined | VNull => true | _ => false end.

Definition truthyString (s : string) : bool :=
  match s with EmptyString => false | _ => true end.

(** JavaScript truthiness. *)
Definition truthy (v : Value) : bool :=
  match v with
  | VUndefined | VNull => false
  | VBool b => b
  | VNum n => negb (PrimFloat.eqb n 0 || PrimFloat.is_nan n)
  | VStr s => truthyString s
  | VArr _ | VObj _ => true
  end.

Definition typeof (v : Value) : string :=
  match v with
  | VUndefined => "undefined"
  | VNull => "object"
  | VBool _ => "boolean"
  | VNum _ => "number"
  | VStr _ => "string"
  | VArr _ | VObj _ => "object"
  end.

(** lodash *)
Definition omitBy (o : JSObject) (p : Value -> bool) : JSObject :=
  filter (fun kv => negb (p (snd kv))) o.

Definition omit (o : JSObject) (k : string) : JSObject :=
  filter (fun kv => negb (String.eqb (fst kv) k)) o.

Definition compact (l : list Value) : list Value := filter truthy l.

(** An optional number read as a property: [x ?? undefined], [x?.value]. *)
Definition optNum (x : option float) : Value :=
  match x with Some n => VNum n | None => VUndefined end.

Definition optStr (x : option string) : Value :=
  match x with Some s => VStr s | None => VUndefined end.

(* ================================================================= *)
(** * The zod schema nodes the generator inspects *)

(** Modelled from the spec: the metadata block [ZodOpenAPIMetadata] of
    [./zod-extensions], an object of OpenAPI schema fields (description, type
    override, passthrough fields) together with the registration [name]. *)
Definition ZodOpenAPIMetadata : Type := JSObject.

(** [metadata?.name]; the interface types it [string | undefined]. *)
Definition metaName (metadata : option ZodOpenAPIMetadata) : option string :=
  match metadata with
  | Some m => match Obj.get "name" m with Some (VStr s) => Some s | _ => None end
  | None => None
  end.

(** [metadata?.type] and [metadata?.description] *)
Definition metaProp (k : string) (metadata : option ZodOpenAPIMetadata) : Value :=
  match metadata with Some m => prop k m | None => VUndefined end.

Inductive UnknownKeysParam : Type := passthrough | strict | strip.

(** The bound of a range check: a number, or a bigint. *)
Inductive NumericValue : Type :=
| NumberValue (n : float)
| BigIntValue (b : Z).
Arguments NumberValue n%_float.
Arguments BigIntValue b%_Z.

(** [Number(value)]: a number is returned as it is, a bigint is rounded to
    the nearest double, ties to even, and to an infinity beyond the range. *)
Definition Number (value : NumericValue) : float :=
  match value with
  | NumberValue n => n
  | BigIntValue b => SF2Prim (binary_normalize prec emax b 0 false)
  end.

(** Modelled from the spec: the range checks [ZodNumericCheck] of [../types],
    an ordered list of which a number schema carries; each has a [kind], and
    for [min] and [max] a bound [value] and whether it is [inclusive]. *)
Inductive ZodNumericCheck : Type :=
| CheckMin (value : NumericValue) (inclusive : bool)
| CheckMax (value : NumericValue) (inclusive : bool)
| CheckOther (kind : string).

(** One constructor per zod class the generator tests with [instanceof];
    every other class is [ZodOther]. The first argument is [_def.openapi],
    the others are the fields of [_def]. *)
Inductive ZodSchema : Type :=
| ZodNull (openapi : option ZodOpenAPIMetadata)
| ZodString (openapi : option ZodOpenAPIMetadata)
| ZodNumber (openapi : option ZodOpenAPIMetadata) (checks : list ZodNumericCheck)
| ZodLiteral (openapi : option ZodOpenAPIMetadata) (value : Value)
| ZodEnum (openapi : option ZodOpenAPIMetadata) (values : list string)
| ZodNativeEnum (openapi : option ZodOpenAPIMetadata) (values : JSObject)
| ZodObject (openapi : option ZodOpenAPIMetadata)
            (shape : list (string * ZodSchema)) (unknownKeys : UnknownKeysParam)
| ZodBoolean (openapi : option ZodOpenAPIMetadata)
| ZodArray (openapi : option ZodOpenAPIMetadata) (type : ZodSchema)
           (minLength maxLength : option float)
| ZodUnion (openapi : option ZodOpenAPIMetadata) (options : list ZodSchema)
| ZodIntersection (openapi : option ZodOpenAPIMetadata) (left right : ZodSchema)
| ZodOptional (openapi : option ZodOpenAPIMetadata) (innerType : ZodSchema)
| ZodNullable (openapi : option ZodOpenAPIMetadata) (innerType : ZodSchema)
| ZodOther (openapi : option ZodOpenAPIMetadata) (typeName : string).

(** [zodSchema._def.openapi] *)
Definition openapi (zodSchema : ZodSchema) : option ZodOpenAPIMetadata :=
  match zodSchema with
  | ZodNull m | ZodString m | ZodNumber m _ | ZodLiteral m _ | ZodEnum m _
  | ZodNativeEnum m _ | ZodObject m _ _ | ZodBoolean m | ZodArray m _ _ _
  | ZodUnion m _ | ZodIntersection m _ _ | ZodOptional m _ | ZodNullable m _
  | ZodOther m _ => m
  end.

(** The members of zod's schema classes that the generator uses: the methods
    [isOptional()] and [isNullable()], the getters [minValue] and [maxValue]
    of a number schema, and the property [_unknownKeys] it reads from an
    object schema ([None] when the read finds [undefined]). They belong to the
    zod library; the generator is verified for any implementation. *)
Class ZodMethods : Type := {
  isOptional : ZodSchema -> bool;
  isNullable : ZodSchema -> bool;
  minValue : list ZodNumericCheck -> option float;
  maxValue : list ZodNumericCheck -> option float;
  _unknownKeys : ZodSchema -> option UnknownKeysParam
}.

(** Nesting depth of a node; it bounds the recursion of the mapper. *)
Fixpoint height (s : ZodSchema) : nat :=
  match s with
  | ZodObject _ shape _ =>
      S (fold_right (fun p acc => Nat.max (height (snd p)) acc) 0 shape)
  | ZodArray _ t _ _ => S (height t)
  | ZodUnion _ options =>
      S (fold_right (fun o acc => Nat.max (height o) acc) 0 options)
  | ZodIntersection _ l r => S (Nat.max (height l) (height r))
  | ZodOptional _ i | ZodNullable _ i => S (height i)
  | _ => 0
  end.

(* ================================================================= *)
(** * The generator's state and control flow *)

(** The three registries of an [OpenAPIGenerator], each with its own
    properties. They start as [{}], with [Object.prototype] as prototype; the
    path registry is the one that can be given another: [pathProto] is the
    object an assignment to its [__proto__] made its prototype, if any. *)
Record Refs : Type := mkRefs {
  schemaRefs : list (string * JSObject);
  paramRefs : list (string * JSObject);
  pathRefs : list (string * JSObject);
  pathProto : option JSObject
}.

Definition emptyRefs : Refs := mkRefs [] [] [] None.

(** The errors the generator throws, by message. *)
Inductive Error : Type :=
| NoConfig                              (* 'No config was provided ...' *)
| UnknownParameterName                  (* 'Unknown parameter name, ...' *)
| UnknownZodType (schema : ZodSchema).  (* 'Unknown zod object type, ...' + _def *)

Inductive Outcome (A : Type) : Type :=
| Returns (a : A)
| Throws (e : Error).
Arguments Returns {A} a.
Arguments Throws {A} e.

(** A method body: it runs on the registries and returns or throws, leaving
    the registries as it mutated them. *)
Definition Gen (A : Type) : Type := Refs -> Outcome A * Refs.

Definition ret {A} (a : A) : Gen A := fun st => (Returns a, st).
Definition throw {A} (e : Error) : Gen A := fun st => (Throws e, st).
Definition bind {A B} (m : Gen A) (k : A -> Gen B) : Gen B :=
  fun st =>
    match m st with
    | (Returns a, st') => k a st'
    | (Throws e, st') => (Throws e, st')
    end.
Definition getRefs : Gen Refs := fun st => (Returns st, st).
Definition putRefs (st : Refs) : Gen unit := fun _ => (Returns tt, st).

(** [this.schemaRefs[n] = r] and [this.paramRefs[n] = r], for a name [n] that
    the registry did not answer: the assignment makes an own property. *)
Definition storeSchema (n : string) (r : JSObject) (st : Refs) : Refs :=
  mkRefs (Obj.put n r (schemaRefs st)) (paramRefs st) (pathRefs st) (pathProto st).
Definition storeParam (n : string) (r : JSObject) (st : Refs) : Refs :=
  mkRefs (schemaRefs st) (Obj.put n r (paramRefs st)) (pathRefs st) (pathProto st).

(** [this.pathRefs[p] = r]: the assignment makes or overwrites an own
    property, except for [__proto__], which every object inherits as a setter
    of its prototype. *)
Definition storePath (p : string) (r : JSObject) (st : Refs) : Refs :=
  mkRefs (schemaRefs st) (paramRefs st)
    (if String.eqb p "__proto__" then pathRefs st else Obj.put p r (pathRefs st))
    (if String.eqb p "__proto__" then Some r else pathProto st).

(** The own properties of the object that [this.pathRefs[p]] reads, which is
    what a spread of it copies: the own entry for [p]; or what the prototype
    given to the registry holds for [p]; and nothing for [undefined] and for
    the functions of [Object.prototype]. Reading [__proto__] gives the
    prototype itself. *)
Definition readPath (p : string) (st : Refs) : JSObject :=
  let ofProto :=
    match pathProto st with
    | Some proto =>
        if String.eqb p "__proto__" then proto
        else match Obj.get p proto with Some (VObj found) => found | _ => [] end
    | None => []
    end in
  if String.eqb p "__proto__" then ofProto
  else match Obj.get p (pathRefs st) with
       | Some item => item
       | None => ofProto
       end.

Notation "x <- m ;; k" := (bind m (fun x => k))
  (at level 61, m at next level, right associativity).
Notation "m ;;; k" := (bind m (fun _ => k))
  (at level 61, right associativity).

Section Traversals.
Context {A B : Type} (f : A -> Gen B).

(** [xs.map(f)] with a callback that reads and writes the registries. *)
Fixpoint mapM (xs : list A) : Gen (list B) :=
  match xs with
  | [] => ret []
  | x :: rest => y <- f x ;; ys <- mapM rest ;; ret (y :: ys)
  end.

(** lodash [mapValues(o, f)] *)
Fixpoint mapValues (o : list (string * A)) : Gen (list (string * B)) :=
  match o with
  | [] => ret []
  | (k, x) :: rest => y <- f x ;; ys <- mapValues rest ;; ret ((k, y) :: ys)
  end.

(** [xs.forEach(f)] *)
Fixpoint forEach (xs : list A) : Gen unit :=
  match xs with
  | [] => ret tt
  | x :: rest => f x ;;; forEach rest
  end.
End Traversals.

(** An object whose properties are objects, as a value. *)
Definition objOfObjs (o : list (string * JSObject)) : Value :=
  VObj (map (fun kv => (fst kv, VObj (snd kv))) o).

(* ================================================================= *)
(** * OpenAPIGenerator: the schema mapper *)

(** [unwrapOptional]: the loop peels one wrapper per iteration. *)
Fixpoint unwrapOptional (schema : ZodSchema) : ZodSchema :=
  match schema with
  | ZodOptional _ inner | ZodNullable _ inner => unwrapOptional inner
  | _ => schema
  end.

Definition isZodUnion (schema : ZodSchema) : bool :=
  match schema with ZodUnion _ _ => true | _ => false end.

Definition isZodIntersection (schema : ZodSchema) : bool :=
  match schema with ZodIntersection _ _ _ => true | _ => false end.

Fixpoint flattenUnionTypes (schema : ZodSchema) : list ZodSchema :=
  match schema with
  | ZodUnion _ options => flat_map flattenUnionTypes options
  | _ => [schema]
  end.

Fixpoint flattenIntersectionTypes (schema : ZodSchema) : list ZodSchema :=
  match schema with
  | ZodIntersection _ l r =>
      let leftSubTypes := flattenIntersectionTypes l in
      let rightSubTypes := flattenIntersectionTypes r in
      leftSubTypes ++ rightSubTypes
  | _ => [schema]
  end.

Definition buildMetadata (metadata : ZodOpenAPIMetadata) : JSObject :=
  omitBy (omit metadata "name") isNil.

Definition getMetadata (zodSchema : ZodSchema) : option ZodOpenAPIMetadata :=
  let innerSchema := unwrapOptional zodSchema in
  match openapi zodSchema with
  | Some m => Some m
  | None => openapi innerSchema
  end.

Definition schemaRef (schemaName : string) : JSObject :=
  [("$ref", VStr ("#/components/schemas/" ++ schemaName))].

Definition paramRef (schemaName : string) : JSObject :=
  [("$ref", VStr ("#/components/parameters/" ++ schemaName))].

(** The registries are plain objects ([= {}]), so a read [registry[n]] that
    finds no own property goes on to [Object.prototype]. These are its
    properties; each holds a function, or for [__proto__] the prototype
    itself, and so is truthy. *)
Definition objectPrototypeNames : list string :=
  ["constructor"; "__defineGetter__"; "__defineSetter__"; "hasOwnProperty";
   "__lookupGetter__"; "__lookupSetter__"; "isPrototypeOf";
   "propertyIsEnumerable"; "toString"; "valueOf"; "__proto__";
   "toLocaleString"].

Definition inherited (n : string) : bool :=
  existsb (String.eqb n) objectPrototypeNames.

(** [registry[n]] is truthy: registry entries are objects, so an own entry is
    truthy, and so is every inherited property. *)
Definition answers (n : string) (registry : list (string * JSObject)) : bool :=
  Obj.has n registry || inherited n.

(** [schemaName && registry[schemaName]] *)
Definition registered (schemaName : option string)
    (registry : list (string * JSObject)) : bool :=
  match schemaName with
  | Some n => truthyString n && answers n registry
  | None => false
  end.

(** [!!schemaName] *)
Definition truthyName (schemaName : option string) : bool :=
  match schemaName with Some n => truthyString n | None => false end.

(** The text of a name that passed the truthiness test. *)
Definition nameText (schemaName : option string) : string :=
  match schemaName with Some n => n | None => EmptyString end.

Definition nullableFlag (isNullable : bool) : Value :=
  if isNullable then VBool true else VUndefined.

Section Generator.
Context {zod : ZodMethods}.

(** [toOpenAPISchema], with [this.generateSingleSchema(schema, saveIfNew)]
    as the parameter [generateSingleSchema]. *)
Definition toOpenAPISchemaWith
    (generateSingleSchema : ZodSchema -> bool -> Gen JSObject)
    (zodSchema : ZodSchema) (isNullable hasOpenAPIType saveIfNew : bool)
  : Gen JSObject :=
  match zodSchema with
  | ZodNull _ => ret [("type", VStr "null")]
  | ZodString _ =>
      ret [("type", VStr "string"); ("nullable", nullableFlag isNullable)]
  | ZodNumber _ checks =>
      ret [("type", VStr "number");
           ("minimum", optNum (minValue checks));
           ("maximum", optNum (maxValue checks));
           ("nullable", nullableFlag isNullable)]
  | ZodLiteral _ value =>
      ret [("type", VStr (typeof value));
           ("nullable", nullableFlag isNullable);
           ("enum", VArr [value])]
  | ZodEnum _ values =>
      ret [("type", VStr "string");
           ("nullable", nullableFlag isNullable);
           ("enum", VArr (map VStr values))]
  | ZodNativeEnum _ values =>
      let enumValues := Obj.values values in
      ret [("type", VStr "string");
           ("nullable", nullableFlag isNullable);
           ("enum", VArr enumValues)]
  | ZodObject _ propTypes _ =>
      let unknownKeysOption := _unknownKeys zodSchema in
      properties <- mapValues
                      (fun propSchema => generateSingleSchema propSchema saveIfNew)
                      propTypes ;;
      ret [("type", VStr "object");
           ("properties", objOfObjs properties);
           ("required",
             VArr (map (fun e => VStr (fst e))
                     (filter (fun e => negb (isOptional (snd e))) propTypes)));
           ("additionalProperties",
             match unknownKeysOption with
             | Some passthrough => VBool true
             | _ => VUndefined
             end);
           ("nullable", nullableFlag isNullable)]
  | ZodBoolean _ =>
      ret [("type", VStr "boolean"); ("nullable", nullableFlag isNullable)]
  | ZodArray _ itemType minLength maxLength =>
      items <- generateSingleSchema itemType saveIfNew ;;
      ret [("type", VStr "array");
           ("items", VObj items);
           ("minItems", optNum minLength);
           ("maxItems", optNum maxLength)]
  | ZodUnion _ _ =>
      let options := flattenUnionTypes zodSchema in
      anyOf <- mapM (fun schema => generateSingleSchema schema saveIfNew) options ;;
      ret [("anyOf", VArr (map VObj anyOf))]
  | ZodIntersection _ _ _ =>
      let subtypes := flattenIntersectionTypes zodSchema in
      allOf <- mapM (fun schema => generateSingleSchema schema saveIfNew) subtypes ;;
      ret [("allOf", VArr (map VObj allOf))]
  | ZodOptional _ _ | ZodNullable _ _ | ZodOther _ _ =>
      if hasOpenAPIType then ret [] else throw (UnknownZodType zodSchema)
  end.

(** [generateSingleSchema], with [this.toOpenAPISchema] as a parameter. *)
Definition generateSingleSchemaWith
    (toOpenAPISchema : ZodSchema -> bool -> bool -> bool -> Gen JSObject)
    (zodSchema : ZodSchema) (saveIfNew withMetaData : bool) : Gen JSObject :=
  let innerSchema := unwrapOptional zodSchema in
  let metadata :=
    match openapi zodSchema with
    | Some m => Some m
    | None => openapi innerSchema
    end in
  let schemaName := metaName metadata in
  this <- getRefs ;;
  if registered schemaName (schemaRefs this) then
    ret (schemaRef (nameText schemaName))
  else
    base <- toOpenAPISchema innerSchema (isNullable zodSchema)
              (truthy (metaProp "type" metadata)) saveIfNew ;;
    let result :=
      omitBy
        (Obj.spread base
           (match metadata with
            | Some m => if withMetaData then buildMetadata m else []
            | None => []
            end))
        isUndefined in
    (if saveIfNew && truthyName schemaName then
       this <- getRefs ;;
       putRefs (storeSchema (nameText schemaName) result this)
     else ret tt) ;;;
    ret result.

(** The two methods call each other; [fuel] bounds the nesting of calls. The
    value at [fuel = 0] is never reached from [generateSingleSchema] below, see
    [generateSingleSchema_eq]. *)
Fixpoint generateSingleSchemaFuel (fuel : nat)
    (zodSchema : ZodSchema) (saveIfNew withMetaData : bool) : Gen JSObject :=
  match fuel with
  | O => ret []
  | S fuel' =>
      generateSingleSchemaWith
        (toOpenAPISchemaWith
           (fun schema save => generateSingleSchemaFuel fuel' schema save true))
        zodSchema saveIfNew withMetaData
  end.

(** [generateSingleSchema(zodSchema, saveIfNew, withMetaData = true)]: the
    nesting of calls never exceeds the height of the node. *)
Definition generateSingleSchema
    (zodSchema : ZodSchema) (saveIfNew withMetaData : bool) : Gen JSObject :=
  generateSingleSchemaFuel (S (height zodSchema)) zodSchema saveIfNew withMetaData.

Definition toOpenAPISchema
    (zodSchema : ZodSchema) (isNullable hasOpenAPIType saveIfNew : bool)
  : Gen JSObject :=
  toOpenAPISchemaWith
    (fun schema save => generateSingleSchema schema save true)
    zodSchema isNullable hasOpenAPIType saveIfNew.

(** The fragment [generateSingleSchema] builds from the dispatched base. *)
Definition mergedFragment (base : JSObject)
    (metadata : option ZodOpenAPIMetadata) (withMetaData : bool) : JSObject :=
  omitBy
    (Obj.spread base
       (match metadata with
        | Some m => if withMetaData then buildMetadata m else []
        | None => []
        end))
    isUndefined.

End Generator.

(* ================================================================= *)
(** * OpenAPIGenerator: parameters, routes and documents *)

Inductive ParameterLocation : Type := query | header | path | cookie.

Definition locationText (location : ParameterLocation) : string :=
  match location with
  | query => "query" | header => "header" | path => "path" | cookie => "cookie"
  end.

(** Modelled from the spec: the route definition [RouteConfig] of [./router]:
    method, path, description and summary, the request shape (path and query
    parameter schemas, a list of header schemas, a body schema, each
    optional) and the response schema. *)
Module Route.
Record Request : Type := mkRequest {
  params : option ZodSchema;
  query : option ZodSchema;
  headers : option (list ZodSchema);
  body : option ZodSchema
}.
Record Config : Type := mkRoute {
  method : string;
  path : string;
  description : option string;
  summary : option string;
  request : option Request;
  response : ZodSchema
}.
End Route.

Inductive OpenAPIDefinitions : Type :=
| DefSchema (schema : ZodSchema)
| DefParameter (location : ParameterLocation) (schema : ZodSchema)
| DefRoute (route : Route.Config).

(** [OpenAPIObjectConfig] *)
Module Config.
Record t : Type := mk {
  openapi : string;
  info : JSObject;
  servers : option Value;
  security : option Value;
  tags : option Value;
  externalDocs : option Value
}.

Definition optional (k : string) (v : option Value) : JSObject :=
  match v with Some x => [(k, x)] | None => [] end.

(** The properties that [...this.config] copies, in the order the interface
    lists them; a configuration written in another order is copied in its
    own. *)
Definition props (c : t) : JSObject :=
  ([("openapi", VStr (openapi c)); ("info", VObj (info c))]
     ++ optional "servers" (servers c) ++ optional "security" (security c)
     ++ optional "tags" (tags c) ++ optional "externalDocs" (externalDocs c))%list.
End Config.

(** The constructor arguments of an [OpenAPIGenerator]; its registries are
    the state [Refs]. *)
Record OpenAPIGenerator : Type := mkGenerator {
  definitions : list OpenAPIDefinitions;
  config : option Config.t
}.

Definition jsonContent (schema : JSObject) : Value :=
  VObj [("application/json", VObj [("schema", VObj schema)])].

Section Documents.
Context {zod : ZodMethods}.

Definition generateSingleParameter (zodSchema : ZodSchema)
    (location : ParameterLocation) (saveIfNew : bool)
    (externalName : option string) : Gen JSObject :=
  let metadata := getMetadata zodSchema in
  let schemaName :=
    match externalName with
    | Some n => Some n
    | None => metaName metadata
    end in
  if negb (truthyName schemaName) then throw UnknownParameterName
  else
    this <- getRefs ;;
    if answers (nameText schemaName) (paramRefs this) then
      ret (paramRef (nameText schemaName))
    else
      let required := negb (isOptional zodSchema) && negb (isNullable zodSchema) in
      schema <- generateSingleSchema zodSchema false false ;;
      let result :=
        Obj.assign
          [("in", VStr (locationText location));
           ("name", VStr (nameText schemaName));
           ("schema", VObj schema);
           ("required", VBool required)]
          (match metadata with Some m => buildMetadata m | None => [] end) in
      (if saveIfNew && truthyName schemaName then
         this <- getRefs ;;
         putRefs (storeParam (nameText schemaName) result this)
       else ret tt) ;;;
      ret result.

Definition getBodyDoc (bodySchema : option ZodSchema) : Gen Value :=
  match bodySchema with
  | None => ret VUndefined
  | Some bodySchema =>
      schema <- generateSingleSchema bodySchema false true ;;
      let metadata := getMetadata bodySchema in
      ret (VObj [("description", metaProp "description" metadata);
                 ("required", VBool true);
                 ("content", jsonContent schema)])
  end.

Definition getParamsByLocation (paramsSchema : option ZodSchema)
    (location : ParameterLocation) : Gen (list Value) :=
  match paramsSchema with
  | Some (ZodObject _ propTypes _) =>
      found <- mapM (fun entry =>
                       generateSingleParameter (snd entry) location false
                         (Some (fst entry)))
                 propTypes ;;
      ret (compact (map VObj found))
  | _ => ret []
  end.

Definition getParameters (request : option Route.Request) : Gen (list Value) :=
  match request with
  | None => ret []
  | Some request =>
      pathParams <- getParamsByLocation (Route.params request) path ;;
      queryParams <- getParamsByLocation (Route.query request) query ;;
      headerParams <-
        match Route.headers request with
        | Some hs =>
            found <- mapM (fun h => generateSingleParameter h header false None) hs ;;
            ret (compact (map VObj found))
        | None => ret (compact [])
        end ;;
      ret (pathParams ++ queryParams ++ headerParams)%list
  end.

Definition requestBodyOf (request : option Route.Request) : option ZodSchema :=
  match request with Some r => Route.body r | None => None end.

Definition generateSingleRoute (route : Route.Config) : Gen JSObject :=
  responseSchema <- generateSingleSchema (Route.response route) false true ;;
  parameters <- getParameters (Route.request route) ;;
  requestBody <- getBodyDoc (requestBodyOf (Route.request route)) ;;
  let routeDoc : JSObject :=
    [(Route.method route,
      VObj [("description", optStr (Route.description route));
            ("summary", optStr (Route.summary route));
            ("parameters", VArr parameters);
            ("requestBody", requestBody);
            ("responses",
              VObj [("200",
                 VObj [("description",
                         metaProp "description" (openapi (Route.response route)));
                       ("content", jsonContent responseSchema)])])])] in
  this <- getRefs ;;
  putRefs (storePath (Route.path route)
             (Obj.spread (readPath (Route.path route) this) routeDoc)
             this) ;;;
  ret routeDoc.

(** The final [throw new Error('Invalid definition type')] cannot be
    reached: the three cases exhaust the type. *)
Definition generateSingle (definition : OpenAPIDefinitions) : Gen JSObject :=
  match definition with
  | DefParameter location schema => generateSingleParameter schema location true None
  | DefSchema schema => generateSingleSchema schema true true
  | DefRoute route => generateSingleRoute route
  end.

Definition componentsOf (this : Refs) : Value :=
  VObj [("schemas", objOfObjs (schemaRefs this));
        ("parameters", objOfObjs (paramRefs this))].

Definition generateDocs (self : OpenAPIGenerator) : Gen JSObject :=
  match config self with
  | None => throw NoConfig
  | Some config =>
      forEach generateSingle (definitions self) ;;;
      this <- getRefs ;;
      ret (Obj.assign (Obj.assign [] (Config.props config))
             [("components", componentsOf this);
              ("paths", objOfObjs (pathRefs this))])
  end.

Definition generateComponents (self : OpenAPIGenerator) : Gen JSObject :=
  forEach generateSingle (definitions self) ;;;
  this <- getRefs ;;
  ret [("components", componentsOf this)].

(** The name a parameter is documented under: [externalName ?? metadata?.name]. *)
Definition parameterName (zodSchema : ZodSchema) (externalName : option string)
  : option string :=
  match externalName with
  | Some n => Some n
  | None => metaName (getMetadata zodSchema)
  end.

Definition parameterObject (zodSchema : ZodSchema) (location : ParameterLocation)
    (name : string) (schema : JSObject) : JSObject :=
  Obj.assign
    [("in", VStr (locationText location));
     ("name", VStr name);
     ("schema", VObj schema);
     ("required", VBool (negb (isOptional zodSchema) && negb (isNullable zodSchema)))]
    (match getMetadata zodSchema with Some m => buildMetadata m | None => [] end).

End Documents.

(* ================================================================= *)
(** * The OpenAPI 3.0 strategy *)

Module OpenApiGeneratorV30Specifics.

Definition nullType : JSObject := [("nullable", VBool true)].

Definition mapNullableOfArray (objects : list Value) (isNullable : bool)
  : list Value :=
  if isNullable then (objects ++ [VObj nullType])%list else objects.

Definition mapNullableType (type : option string) (isNullable : bool) : JSObject :=
  Obj.assign
    (Obj.assign []
       (match type with
        | Some t => if truthyString t then [("type", VStr t)] else []
        | None => []
        end))
    (if isNullable then nullType else []).

Definition getNumberChecks (checks : list ZodNumericCheck) : JSObject :=
  fold_left Obj.assign
    (map (fun check =>
            match check with
            | CheckMin value inclusive =>
                if inclusive then [("minimum", VNum (Number value))]
                else [("minimum", VNum (Number value));
                      ("exclusiveMinimum", VBool true)]
            | CheckMax value inclusive =>
                if inclusive then [("maximum", VNum (Number value))]
                else [("maximum", VNum (Number value));
                      ("exclusiveMaximum", VBool true)]
            | CheckOther _ => []
            end)
       checks)
    [].

End OpenApiGeneratorV30Specifics.

(* ================================================================= *)
(** * zod's methods, as the library implements them *)

(** [isOptional()] is [safeParse(undefined).success], [isNullable()] is
    [safeParse(null).success]; [minValue] and [maxValue] are the tightest
    bound among the checks of a number schema, whose bounds are numbers, or
    [null]. zod declares [_unknownKeys] for its types only and never assigns
    it: reading it finds [undefined]. *)
Module Zod.

(** What the classes outside [ZodSchema]'s list accept of [undefined] and
    [null], as far as the class alone decides it; a class that asks a schema
    it wraps ([ZodDefault] for [null], [ZodEffects], [ZodLazy], ...) is
    counted as rejecting. *)
Definition otherAccepts (what : Value) (typeName : string) : bool :=
  if String.eqb typeName "ZodAny" || String.eqb typeName "ZodUnknown"
     || String.eqb typeName "ZodCatch"
  then isNil what
  else if String.eqb typeName "ZodUndefined" || String.eqb typeName "ZodVoid"
          || String.eqb typeName "ZodDefault"
  then isUndefined what
  else false.

Fixpoint accepts (what : Value) (s : ZodSchema) : bool :=
  match s with
  | ZodNull _ => isNull what
  | ZodLiteral _ v =>
      match what, v with
      | VUndefined, VUndefined | VNull, VNull => true
      | _, _ => false
      end
  | ZodUnion _ options => existsb (accepts what) options
  | ZodIntersection _ l r => accepts what l && accepts what r
  | ZodOptional _ inner => isUndefined what || accepts what inner
  | ZodNullable _ inner => isNull what || accepts what inner
  | ZodOther _ typeName => otherAccepts what typeName
  | _ => false
  end.

Definition minValue (checks : list ZodNumericCheck) : option float :=
  fold_left (fun min ch =>
               match ch, min with
               | CheckMin v _, None => Some (Number v)
               | CheckMin v _, Some m =>
                   if PrimFloat.ltb m (Number v) then Some (Number v) else Some m
               | _, _ => min
               end) checks None.

Definition maxValue (checks : list ZodNumericCheck) : option float :=
  fold_left (fun max ch =>
               match ch, max with
               | CheckMax v _, None => Some (Number v)
               | CheckMax v _, Some m =>
                   if PrimFloat.ltb (Number v) m then Some (Number v) else Some m
               | _, _ => max
               end) checks None.

Definition methods : ZodMethods :=
  Build_ZodMethods (accepts VUndefined) (accepts VNull) minValue maxValue
    (fun _ => None).

End Zod.

(* ================================================================= *)
(** * Vocabulary of the properties *)

(** [hoare I m Q]: run from registries satisfying [I], [m] ends in an outcome
    and registries related by [Q]. *)
Definition hoare {A} (I : Refs -> Prop) (m : Gen A)
    (Q : Outcome A -> Refs -> Prop) : Prop :=
  forall st, I st -> Q (fst (m st)) (snd (m st)).

(** The usual postcondition: the invariant [I] still holds, a returned value
    satisfies [G], a thrown error satisfies [E]. *)
Definition post {A} (I : Refs -> Prop) (E : Error -> Prop) (G : A -> Prop)
  : Outcome A -> Refs -> Prop :=
  fun o st => I st /\ match o with Returns a => G a | Throws e => E e end.

Definition anything {A} : A -> Prop := fun _ => True.

(** Storing a fresh, truthy name keeps the invariant. *)
Definition stableUnderStore (I : Refs -> Prop) : Prop :=
  forall st n, I st -> Obj.has n (schemaRefs st) = false -> truthyString n = true ->
  forall st1 r, I st1 -> I (storeSchema n r st1).

(** The nodes [toOpenAPISchema] passes to [generateSingleSchema]. *)
Definition callees (zodSchema : ZodSchema) : list ZodSchema :=
  match zodSchema with
  | ZodObject _ propTypes _ => map snd propTypes
  | ZodArray _ itemType _ _ => [itemType]
  | ZodUnion _ _ => flattenUnionTypes zodSchema
  | ZodIntersection _ _ _ => flattenIntersectionTypes zodSchema
  | _ => []
  end.

Section Reachability.
Context {zod : ZodMethods}.

(** One call of a mapping method of the generator moves the registries. *)
Inductive call (st : Refs) : Refs -> Prop :=
| call_schema z save wm : call st (snd (generateSingleSchema z save wm st))
| call_parameter z loc save ext :
    call st (snd (generateSingleParameter z loc save ext st))
| call_route route : call st (snd (generateSingleRoute route st)).

(** [later st st']: [st'] is reached from [st] by any number of calls. *)
Inductive later (st : Refs) : Refs -> Prop :=
| later_now : later st st
| later_call st1 st2 : later st st1 -> call st1 st2 -> later st st2.

(** Every key of the schema registry is a truthy name. *)
Definition keysTruthy (st : Refs) : Prop :=
  forall k, Obj.has k (schemaRefs st) = true -> truthyString k = true.

Definition holds (N : string) (frag : JSObject) (st : Refs) : Prop :=
  Obj.get N (schemaRefs st) = Some frag.

End Reachability.

(** The classes [toOpenAPISchema] has an [instanceof] branch for. *)
Definition hasDispatchEntry (zodSchema : ZodSchema) : bool :=
  match zodSchema with
  | ZodOptional _ _ | ZodNullable _ _ | ZodOther _ _ => false
  | _ => true
  end.

(** Mapping three nodes in turn and collecting the fragments under [key]. *)
Definition collect3 {zod : ZodMethods} (key : string) (A B C : ZodSchema)
    (save : bool) : Gen JSObject :=
  a <- generateSingleSchema A save true ;;
  b <- generateSingleSchema B save true ;;
  c <- generateSingleSchema C save true ;;
  ret [(key, VArr [VObj a; VObj b; VObj c])].

(** Mapping two nodes in turn and collecting the fragments under [anyOf]. *)
Definition anyOf2 {zod : ZodMethods} (A B : ZodSchema) (save : bool)
  : Gen JSObject :=
  a <- generateSingleSchema A save true ;;
  b <- generateSingleSchema B save true ;;
  ret [("anyOf", VArr [VObj a; VObj b])].

(** No object inside [v], at any depth, has a property whose value is
    [undefined]. *)
Fixpoint noUndefinedFields (v : Value) : bool :=
  match v with
  | VArr items => forallb noUndefinedFields items
  | VObj fields =>
      forallb (fun kv => negb (isUndefined (snd kv)) && noUndefinedFields (snd kv))
        fields
  | _ => true
  end.

(** The values of the properties of [o] hide no undefined field; the
    properties themselves may still be undefined. *)
Definition valuesClean (o : JSObject) : bool :=
  forallb (fun kv => noUndefinedFields (snd kv)) o.

Definition cleanMetadata (metadata : option ZodOpenAPIMetadata) : bool :=
  match metadata with Some m => valuesClean m | None => true end.

(** The values a schema tree hands to the generator (metadata fields, literal
    values, native enum values) hide no undefined field. *)
Fixpoint cleanSchema (z : ZodSchema) : bool :=
  cleanMetadata (openapi z) &&
  match z with
  | ZodLiteral _ value => noUndefinedFields value
  | ZodNativeEnum _ values => valuesClean values
  | ZodObject _ shape _ => forallb (fun p => cleanSchema (snd p)) shape
  | ZodArray _ t _ _ => cleanSchema t
  | ZodUnion _ options => forallb cleanSchema options
  | ZodIntersection _ l r => cleanSchema l && cleanSchema r
  | ZodOptional _ inner | ZodNullable _ inner => cleanSchema inner
  | _ => true
  end.

Definition cleanObject (o : JSObject) : Prop := noUndefinedFields (VObj o) = true.

(* ================================================================= *)
(** * Vocabulary of the further properties *)

Definition isWrapper (schema : ZodSchema) : bool :=
  match schema with ZodOptional _ _ | ZodNullable _ _ => true | _ => false end.

(** Every node of the tree is of a class the dispatch has a branch for,
    wrappers aside. *)
Fixpoint supported (z : ZodSchema) : bool :=
  match z with
  | ZodOther _ _ => false
  | ZodOptional _ inner | ZodNullable _ inner => supported inner
  | ZodObject _ shape _ => forallb (fun p => supported (snd p)) shape
  | ZodArray _ t _ _ => supported t
  | ZodUnion _ options => forallb supported options
  | ZodIntersection _ l r => supported l && supported r
  | _ => true
  end.

(** The keys of the schema and parameter registries of [a] are keys in [b]. *)
Definition componentsIncluded (a b : Refs) : Prop :=
  (forall k, Obj.has k (schemaRefs a) = true -> Obj.has k (schemaRefs b) = true)
  /\ (forall k, Obj.has k (paramRefs a) = true -> Obj.has k (paramRefs b) = true).

(** The keys of all three registries of [a] are keys in [b]. *)
Definition keysKept (a b : Refs) : Prop :=
  componentsIncluded a b
  /\ (forall k, Obj.has k (pathRefs a) = true -> Obj.has k (pathRefs b) = true).

(** The bound of the last [min] check, the bound of the last [max] check. *)
Fixpoint lastMin (checks : list ZodNumericCheck) : option NumericValue :=
  match checks with
  | [] => None
  | c :: rest =>
      match lastMin rest, c with
      | Some v, _ => Some v
      | None, CheckMin v _ => Some v
      | None, _ => None
      end
  end.

Fixpoint lastMax (checks : list ZodNumericCheck) : option NumericValue :=
  match checks with
  | [] => None
  | c :: rest =>
      match lastMax rest, c with
      | Some v, _ => Some v
      | None, CheckMax v _ => Some v
      | None, _ => None
      end
  end.

Definition isExclusiveMin (c : ZodNumericCheck) : bool :=
  match c with CheckMin _ inclusive => negb inclusive | _ => false end.

Definition isExclusiveMax (c : ZodNumericCheck) : bool :=
  match c with CheckMax _ inclusive => negb inclusive | _ => false end.

Definition isBound (c : ZodNumericCheck) : bool :=
  match c with CheckOther _ => false | _ => true end.

(** The path item [generateSingleRoute] builds from the mapped parts. *)
Definition routeDocOf (route : Route.Config) (responseSchema : JSObject)
    (parameters : list Value) (requestBody : Value) : JSObject :=
  [(Route.method route,
    VObj [("description", optStr (Route.description route));
          ("summary", optStr (Route.summary route));
          ("parameters", VArr parameters);
          ("requestBody", requestBody);
          ("responses",
            VObj [("200",
               VObj [("description",
                       metaProp "description" (openapi (Route.response route)));
                     ("content", jsonContent responseSchema)])])])].

(** What one check contributes to the object [getNumberChecks] folds. *)
Definition boundsOf (check : ZodNumericCheck) : JSObject :=
  match check with
  | CheckMin value inclusive =>
      if inclusive then [("minimum", VNum (Number value))]
      else [("minimum", VNum (Number value)); ("exclusiveMinimum", VBool true)]
  | CheckMax value inclusive =>
      if inclusive then [("maximum", VNum (Number value))]
      else [("maximum", VNum (Number value)); ("exclusiveMaximum", VBool true)]
  | CheckOther _ => []
  end.

(** Reading a key of the folded object: the last check that sets it. *)
Fixpoint lastSet (k : string) (checks : list ZodNumericCheck) : option Value :=
  match checks with
  | [] => None
  | c :: rest =>
      match lastSet k rest with
      | Some v => Some v
      | None => Obj.get k (boundsOf c)
      end
  end.

Definition isZodObject (schema : ZodSchema) : bool :=
  match schema with ZodObject _ _ _ => true | _ => false end.

(** [f] is settled on [x]: once a call on [x] has returned, a call from any
    registries that include the ones it left changes nothing. *)
Definition settledOn {A B} (f : A -> Gen B) (x : A) : Prop :=
  forall st y s1, f x st = (Returns y, s1) ->
  forall st2, componentsIncluded s1 st2 -> snd (f x st2) = st2.

Definition growing {A B} (f : A -> Gen B) : Prop :=
  forall x st, componentsIncluded st (snd (f x st)).

(** The unknown-type error, naming a node of a class without dispatch
    branch. *)
Definition unknownKindError (e : Error) : Prop :=
  exists s, e = UnknownZodType s /\ hasDispatchEntry s = false.

(** The kinds whose fragment the dispatch marks as nullable. *)
Definition decorated (zodSchema : ZodSchema) : bool :=
  match zodSchema with
  | ZodString _ | ZodNumber _ _ | ZodLiteral _ _ | ZodEnum _ _
  | ZodNativeEnum _ _ | ZodObject _ _ _ | ZodBoolean _ => true
  | _ => false
  end.

(** The errors of mapping: a missing parameter name, or a node of a class
    without dispatch branch. *)
Definition mappingError (e : Error) : Prop :=
  e = UnknownParameterName
  \/ exists s, e = UnknownZodType s /\ hasDispatchEntry s = false.

(** [m] throws from whatever registries it is run, and what it throws
    satisfies [E]. *)
Definition abortsWith {A} (E : Error -> Prop) (m : Gen A) : Prop :=
  forall st, exists e, fst (m st) = Throws e /\ E e.

(** [exposes u w]: the node [u] is [w] itself, or sits inside [w] at a place
    the dispatch maps (a property of an object, the item of an array, a
    flattened member of a union or of an intersection, under any optional and
    nullable wrappers) below nodes that carry no registration name, so that
    no reference can be returned in their place. *)
Inductive exposes (u : ZodSchema) : ZodSchema -> Prop :=
| exposes_here : exposes u u
| exposes_below w c :
    truthyName (metaName (getMetadata w)) = false ->
    In c (callees (unwrapOptional w)) ->
    exposes u c ->
    exposes u w.

(** The definitions that hand [w] to a mapper whatever the registries hold: a
    schema or parameter definition of [w], a route whose response, request
    body or one of whose headers is [w]. *)
Definition presents (w : ZodSchema) (d : OpenAPIDefinitions) : Prop :=
  match d with
  | DefSchema s => s = w
  | DefParameter _ s => s = w
  | DefRoute route =>
      Route.response route = w
      \/ requestBodyOf (Route.request route) = Some w
      \/ exists request hs,
           Route.request route = Some request
           /\ Route.headers request = Some hs /\ In w hs
  end.

(** [w] is a property [k] of the object that holds the path parameters or
    the query parameters of [route]. *)
Definition hasParameter (route : Route.Config) (k : string) (w : ZodSchema)
  : Prop :=
  exists request md props unknownKeys,
    Route.request route = Some request
    /\ (Route.params request = Some (ZodObject md props unknownKeys)
        \/ Route.query request = Some (ZodObject md props unknownKeys))
    /\ In (k, w) props.

(* ================================================================= *)
(** * Concrete schemas *)

Module Examples.

Definition zString : ZodSchema := ZodString None.
Definition zBoolean : ZodSchema := ZodBoolean None.
Definition zNumber : ZodSchema := ZodNumber None [].
Definition zNull : ZodSchema := ZodNull None.

(** [z.object({id: z.string()}).openapi({name: 'User'})] *)
Definition userObject : ZodSchema :=
  ZodObject (Some [("name", VStr "User")]) [("id", zString)] strip.

(** [z.string().openapi({name: 'User', description: 'login'})] *)
Definition userString : ZodSchema :=
  ZodString (Some [("name", VStr "User"); ("description", VStr "login")]).

Definition userFragment : JSObject :=
  [("type", VStr "object");
   ("properties", VObj [("id", VObj [("type", VStr "string")])]);
   ("required", VArr [VStr "id"])].

Definition afterUser : Refs := mkRefs [("User", userFragment)] [] [] None.

(** [z.union([z.string(), z.boolean()]).nullable()] *)
Definition nullableUnion : ZodSchema :=
  ZodNullable None (ZodUnion None [zString; zBoolean]).

(** [z.number().min(0).lt(10)] *)
Definition boundedNumber : ZodSchema :=
  ZodNumber None [CheckMin (NumberValue 0) true; CheckMax (NumberValue 10) false].

(** [z.union([z.union([A, z.number()]), z.null()])] with [A] a union *)
Definition innerUnion : ZodSchema := ZodUnion None [zString; zBoolean].
Definition unionOfUnion : ZodSchema :=
  ZodUnion None [ZodUnion None [innerUnion; zNumber]; zNull].

(** the same with [A] a nullable union *)
Definition unionOfWrappedUnion : ZodSchema :=
  ZodUnion None [ZodUnion None [nullableUnion; zNumber]; zNull].

(** [enum Direction { Up, Down }] as the object TypeScript compiles it to,
    in the order [Object.values] lists it. *)
Definition direction : JSObject :=
  [("0", VStr "Up"); ("1", VStr "Down"); ("Up", VNum 0); ("Down", VNum 1)].
Definition directionEnum : ZodSchema := ZodNativeEnum None direction.

(** [z.string().openapi({name: 'id'})] *)
Definition idString : ZodSchema := ZodString (Some [("name", VStr "id")]).

(** [z.date()] *)
Definition zDate : ZodSchema := ZodOther None "ZodDate".

(** [{method: 'get', path: '/ping', response: z.object({ok: z.boolean()})}] *)
Definition pingRoute : Route.Config :=
  Route.mkRoute "get" "/ping" None None None
    (ZodObject None [("ok", zBoolean)] strip).

Definition isStringValue (v : Value) : bool :=
  match v with VStr _ => true | _ => false end.

End Examples.

Import Examples.

Module MoreExamples.

(** [z.string().openapi({name: 'Login', description: 'login', type: 'integer'})] *)
Definition described : ZodSchema :=
  ZodString (Some [("name", VStr "Login"); ("description", VStr "login");
                   ("type", VStr "integer")]).

Definition describedFragment : JSObject :=
  [("type", VStr "integer"); ("description", VStr "login")].

(** [{method: 'post', path: '/ping', response: z.string()}] *)
Definition postPing : Route.Config :=
  Route.mkRoute "post" "/ping" None None None (ZodString None).

(** What the dispatch returns for the object of [userObject], before the
    undefined fields are dropped. *)
Definition userBase : JSObject :=
  [("type", VStr "object");
   ("properties", VObj [("id", VObj [("type", VStr "string")])]);
   ("required", VArr [VStr "id"]);
   ("additionalProperties", VUndefined);
   ("nullable", VUndefined)].

(** [z.string().openapi({name: 'User'})] as a property of
    [z.object({friend: ...}).openapi({name: 'User'})] *)
Definition friendString : ZodSchema := ZodString (Some [("name", VStr "User")]).
Definition userWithFriend : ZodSchema :=
  ZodObject (Some [("name", VStr "User")]) [("friend", friendString)] strip.

Definition userWithFriendFragment : JSObject :=
  [("type", VStr "object");
   ("properties", VObj [("friend", VObj [("type", VStr "string")])]);
   ("required", VArr [VStr "friend"])].

(** [z.date().openapi({name: 'User'})] *)
Definition userDate : ZodSchema :=
  ZodOther (Some [("name", VStr "User")]) "ZodDate".

(** [z.object({}).passthrough()] *)
Definition openObject : ZodSchema := ZodObject None [] passthrough.

(** [z.object({name: z.string(), born: z.date().optional()})] *)
Definition person : ZodSchema :=
  ZodObject None [("name", Examples.zString);
                  ("born", ZodOptional None Examples.zDate)] strip.

(** [{method: 'get', path: '/people', request: {query: z.object({since:
    z.date()})}, response: z.string()}] *)
Definition peopleRoute : Route.Config :=
  Route.mkRoute "get" "/people" None None
    (Some (Route.mkRequest None
             (Some (ZodObject None [("since", Examples.zDate)] strip)) None None))
    Examples.zString.

(** The path registry after the [get] route of [/ping]. *)
Definition afterPing : Refs :=
  snd (generateSingleRoute (zod := Zod.methods) Examples.pingRoute emptyRefs).

Definition pingItem : JSObject :=
  match Obj.get "/ping" (pathRefs afterPing) with Some item => item | None => [] end.

End MoreExamples.

(* ================================================================= *)
(** * Reasoning about method bodies *)

Section HoareRules.
Context {A B : Type}.
Variables (I : Refs -> Prop) (E : Error -> Prop).

Lemma hoare_ret (G : A -> Prop) (a : A) : G a -> hoare I (ret a) (post I E G).
Proof. intros Ha st Hst. split; assumption. Qed.

Lemma hoare_throw (G : A -> Prop) (e : Error) :
  E e -> hoare I (throw e) (post I E G).
Proof. intros He st Hst. split; assumption. Qed.

Lemma hoare_bind (G1 : A -> Prop) (G2 : B -> Prop) (m : Gen A) (k : A -> Gen B) :
  hoare I m (post I E G1) ->
  (forall a, G1 a -> hoare I (k a) (post I E G2)) ->
  hoare I (bind m k) (post I E G2).
Proof.
  intros Hm Hk st Hst. specialize (Hm st Hst). unfold bind.
  destruct (m st) as [[a | e] st1]; simpl in Hm; destruct Hm as [HI Hres].
  - apply (Hk a Hres st1 HI).
  - split; assumption.
Qed.

Lemma hoare_weaken (G G' : A -> Prop) (m : Gen A) :
  (forall a, G a -> G' a) -> hoare I m (post I E G) -> hoare I m (post I E G').
Proof.
  intros HG Hm st Hst. destruct (Hm st Hst) as [HI Hres]. split; [assumption|].
  destruct (fst (m st)); auto.
Qed.

End HoareRules.

Section HoareTraversals.
Context {A B : Type}.
Variables (I : Refs -> Prop) (E : Error -> Prop).

Lemma hoare_mapM (G : B -> Prop) (f : A -> Gen B) (xs : list A) :
  (forall x, In x xs -> hoare I (f x) (post I E G)) ->
  hoare I (mapM f xs) (post I E (Forall G)).
Proof.
  induction xs as [| x rest IH]; intros Hf; simpl.
  - apply hoare_ret. constructor.
  - eapply hoare_bind; [apply Hf; left; reflexivity|].
    intros y Hy. eapply hoare_bind; [apply IH; intros; apply Hf; right; assumption|].
    intros ys Hys. apply hoare_ret. constructor; assumption.
Qed.

Lemma hoare_mapValues (G : B -> Prop) (f : A -> Gen B) (o : list (string * A)) :
  (forall x, In x (map snd o) -> hoare I (f x) (post I E G)) ->
  hoare I (mapValues f o) (post I E (fun r => Forall G (map snd r))).
Proof.
  induction o as [| [k x] rest IH]; intros Hf; simpl.
  - apply hoare_ret. constructor.
  - eapply hoare_bind; [apply Hf; left; reflexivity|].
    intros y Hy. eapply hoare_bind; [apply IH; intros; apply Hf; right; assumption|].
    intros ys Hys. apply hoare_ret. simpl. constructor; assumption.
Qed.

Lemma hoare_forEach (G : B -> Prop) (f : A -> Gen B) (xs : list A) :
  (forall x, In x xs -> hoare I (f x) (post I E G)) ->
  hoare I (forEach f xs) (post I E (fun _ => True)).
Proof.
  induction xs as [| x rest IH]; intros Hf; simpl.
  - apply hoare_ret. exact Logic.I.
  - eapply hoare_bind; [apply Hf; left; reflexivity|].
    intros _ _. apply IH. intros; apply Hf; right; assumption.
Qed.

End HoareTraversals.

(** Callbacks that agree on the elements give the same traversal. *)
Lemma mapM_ext_in {A B} (f g : A -> Gen B) (xs : list A) :
  (forall x, In x xs -> forall st, f x st = g x st) ->
  forall st, mapM f xs st = mapM g xs st.
Proof.
  induction xs as [| x rest IH]; intros Hfg st; simpl; [reflexivity|].
  unfold bind. rewrite (Hfg x (or_introl eq_refl)).
  destruct (g x st) as [[y | e] st1]; [|reflexivity].
  rewrite IH by (intros; apply Hfg; right; assumption). reflexivity.
Qed.

Lemma mapValues_ext_in {A B} (f g : A -> Gen B) (o : list (string * A)) :
  (forall x, In x (map snd o) -> forall st, f x st = g x st) ->
  forall st, mapValues f o st = mapValues g o st.
Proof.
  induction o as [| [k x] rest IH]; intros Hfg st; simpl; [reflexivity|].
  unfold bind. rewrite (Hfg x (or_introl eq_refl)).
  destruct (g x st) as [[y | e] st1]; [|reflexivity].
  rewrite IH by (intros; apply Hfg; right; assumption). reflexivity.
Qed.

(* ================================================================= *)
(** * The nodes a dispatch maps, and their height *)

Lemma height_ind (P : ZodSchema -> Prop) :
  (forall s, (forall c, height c < height s -> P c) -> P s) -> forall s, P s.
Proof.
  intros step s. remember (height s) as n eqn:Hn. revert s Hn.
  induction n as [n IH] using lt_wf_ind. intros s ->.
  apply step. intros c Hc. exact (IH (height c) Hc c eq_refl).
Qed.

Lemma height_member {A} (f : A -> nat) (x : A) (l : list A) :
  In x l -> f x <= fold_right (fun o acc => Nat.max (f o) acc) 0 l.
Proof.
  induction l as [| y l IH]; simpl; [tauto|].
  intros [-> | Hin]; [lia | specialize (IH Hin); lia].
Qed.

Lemma flattenUnionTypes_height (s c : ZodSchema) :
  In c (flattenUnionTypes s) ->
  height c <= height s /\ (isZodUnion s = true -> height c < height s).
Proof.
  revert c. induction s as [s IH] using height_ind. intros c.
  destruct s; simpl;
    try (intros [<- | []]; split; [apply Nat.le_refl | discriminate]).
  intros Hin. apply in_flat_map in Hin. destruct Hin as [o [Ho Hc]].
  assert (Hlt : height o < height (ZodUnion openapi0 options)).
  { simpl. apply Nat.lt_succ_r. apply (height_member height o options Ho). }
  destruct (IH o Hlt c Hc) as [Hle _]. simpl in Hlt. split; intros; lia.
Qed.

Lemma flattenIntersectionTypes_height (s c : ZodSchema) :
  In c (flattenIntersectionTypes s) ->
  height c <= height s /\ (isZodIntersection s = true -> height c < height s).
Proof.
  revert c. induction s as [s IH] using height_ind. intros c.
  destruct s; simpl;
    try (intros [<- | []]; split; [apply Nat.le_refl | discriminate]).
  intros Hin. apply in_app_or in Hin.
  destruct Hin as [Hin | Hin].
  - assert (Hlt : height s1 < height (ZodIntersection openapi0 s1 s2))
      by (simpl; lia).
    destruct (IH s1 Hlt c Hin) as [Hle _]. split; intros; lia.
  - assert (Hlt : height s2 < height (ZodIntersection openapi0 s1 s2))
      by (simpl; lia).
    destruct (IH s2 Hlt c Hin) as [Hle _]. split; intros; lia.
Qed.

Lemma callees_height (z c : ZodSchema) : In c (callees z) -> height c < height z.
Proof.
  destruct z; simpl; try tauto.
  - intros Hin. apply in_map_iff in Hin. destruct Hin as [[k x] [<- Hin]].
    apply Nat.lt_succ_r.
    exact (height_member (fun p => height (snd p)) (k, x) shape Hin).
  - intros [<- | []]. lia.
  - intros Hin.
    exact (proj2 (flattenUnionTypes_height (ZodUnion openapi0 options) c Hin) eq_refl).
  - intros Hin.
    exact (proj2 (flattenIntersectionTypes_height
                    (ZodIntersection openapi0 z1 z2) c Hin) eq_refl).
Qed.

Lemma unwrapOptional_height (z : ZodSchema) : height (unwrapOptional z) <= height z.
Proof.
  induction z; simpl; try apply Nat.le_refl; lia.
Qed.

(* ================================================================= *)
(** * The schema mapper is its own recursion equation *)

Section MapperEquation.
Context {zod : ZodMethods}.

Lemma toOpenAPISchemaWith_ext (g1 g2 : ZodSchema -> bool -> Gen JSObject)
    (z : ZodSchema) (isN hasT save : bool) :
  (forall c, In c (callees z) -> forall st, g1 c save st = g2 c save st) ->
  forall st, toOpenAPISchemaWith g1 z isN hasT save st
             = toOpenAPISchemaWith g2 z isN hasT save st.
Proof.
  intros Hg st. destruct z; simpl in *; try reflexivity.
  - unfold bind.
    rewrite (mapValues_ext_in (fun s => g1 s save) (fun s => g2 s save) shape)
      by (intros x Hx st'; apply Hg; exact Hx).
    reflexivity.
  - unfold bind. rewrite Hg by (left; reflexivity). reflexivity.
  - unfold bind.
    rewrite (mapM_ext_in (fun s => g1 s save) (fun s => g2 s save))
      by (intros x Hx st'; apply Hg; exact Hx).
    reflexivity.
  - unfold bind.
    rewrite (mapM_ext_in (fun s => g1 s save) (fun s => g2 s save))
      by (intros x Hx st'; apply Hg; exact Hx).
    reflexivity.
Qed.

(** One call of [generateSingleSchema], step by step. *)
Lemma generateSingleSchemaWith_run
    (t : ZodSchema -> bool -> bool -> bool -> Gen JSObject)
    (z : ZodSchema) (save wm : bool) (st : Refs) :
  generateSingleSchemaWith t z save wm st =
  let metadata := getMetadata z in
  let name := metaName metadata in
  if registered name (schemaRefs st) then (Returns (schemaRef (nameText name)), st)
  else
    match t (unwrapOptional z) (isNullable z)
            (truthy (metaProp "type" metadata)) save st with
    | (Returns base, st1) =>
        (Returns (mergedFragment base metadata wm),
         if save && truthyName name
         then storeSchema (nameText name) (mergedFragment base metadata wm) st1
         else st1)
    | (Throws e, st1) => (Throws e, st1)
    end.
Proof.
  unfold generateSingleSchemaWith, getMetadata, bind, getRefs, putRefs, ret,
    mergedFragment, storeSchema. simpl.
  destruct (registered _ _); [reflexivity|].
  destruct (t _ _ _ _ st) as [[base | e] st1]; [|reflexivity].
  destruct (save && truthyName _); reflexivity.
Qed.

Lemma generateSingleSchemaWith_ext
    (t1 t2 : ZodSchema -> bool -> bool -> bool -> Gen JSObject)
    (z : ZodSchema) (save wm : bool) :
  (forall isN hasT st, t1 (unwrapOptional z) isN hasT save st
                       = t2 (unwrapOptional z) isN hasT save st) ->
  forall st, generateSingleSchemaWith t1 z save wm st
             = generateSingleSchemaWith t2 z save wm st.
Proof.
  intros Ht st. rewrite !generateSingleSchemaWith_run. simpl.
  rewrite Ht. reflexivity.
Qed.

(** More fuel than the height of the node changes nothing. *)
Lemma generateSingleSchemaFuel_enough (n m : nat) :
  forall z save wm st,
    height z < n -> height z < m ->
    generateSingleSchemaFuel n z save wm st = generateSingleSchemaFuel m z save wm st.
Proof.
  revert m. induction n as [| n IH]; intros m z save wm st Hn Hm; [lia|].
  destruct m as [| m]; [lia|]. simpl.
  apply generateSingleSchemaWith_ext. intros isN hasT st'.
  apply toOpenAPISchemaWith_ext. intros c Hc st''.
  pose proof (callees_height _ _ Hc) as Hlt.
  pose proof (unwrapOptional_height z) as Hle.
  apply IH; lia.
Qed.

(** [generateSingleSchema] satisfies the equation that the source text of the
    method is, with [toOpenAPISchema] calling back into it. *)
Lemma generateSingleSchema_eq (z : ZodSchema) (save wm : bool) (st : Refs) :
  generateSingleSchema z save wm st
  = generateSingleSchemaWith toOpenAPISchema z save wm st.
Proof.
  unfold generateSingleSchema. simpl.
  apply generateSingleSchemaWith_ext. intros isN hasT st'.
  unfold toOpenAPISchema. apply toOpenAPISchemaWith_ext. intros c Hc st''.
  unfold generateSingleSchema.
  pose proof (callees_height _ _ Hc) as Hlt.
  pose proof (unwrapOptional_height z) as Hle.
  apply generateSingleSchemaFuel_enough; lia.
Qed.

(* ================================================================= *)
(** * Invariants of the schema mapper *)

Section Invariant.
Variables (I : Refs -> Prop) (E : Error -> Prop).
Hypothesis E_unknown : forall s, E (UnknownZodType s).

Lemma toOpenAPISchemaWith_inv (g : ZodSchema -> bool -> Gen JSObject)
    (z : ZodSchema) (isN hasT save : bool) :
  (forall c, In c (callees z) -> hoare I (g c save) (post I E (fun _ => True))) ->
  hoare I (toOpenAPISchemaWith g z isN hasT save) (post I E (fun _ => True)).
Proof.
  intros Hg. destruct z; simpl in *;
    try (apply hoare_ret; exact Logic.I).
  - eapply hoare_bind; [apply hoare_mapValues; exact Hg|].
    intros; apply hoare_ret; exact Logic.I.
  - eapply hoare_bind; [apply Hg; left; reflexivity|].
    intros; apply hoare_ret; exact Logic.I.
  - eapply hoare_bind; [apply hoare_mapM; exact Hg|].
    intros; apply hoare_ret; exact Logic.I.
  - eapply hoare_bind; [apply hoare_mapM; exact Hg|].
    intros; apply hoare_ret; exact Logic.I.
  - destruct hasT; [apply hoare_ret; exact Logic.I | apply hoare_throw; apply E_unknown].
  - destruct hasT; [apply hoare_ret; exact Logic.I | apply hoare_throw; apply E_unknown].
  - destruct hasT; [apply hoare_ret; exact Logic.I | apply hoare_throw; apply E_unknown].
Qed.

Lemma generateSingleSchemaWith_inv
    (t : ZodSchema -> bool -> bool -> bool -> Gen JSObject)
    (z : ZodSchema) (save wm : bool) :
  (save = true -> stableUnderStore I) ->
  (forall isN hasT,
      hoare I (t (unwrapOptional z) isN hasT save) (post I E (fun _ => True))) ->
  hoare I (generateSingleSchemaWith t z save wm) (post I E (fun _ => True)).
Proof.
  intros Hstore Ht st Hst. rewrite generateSingleSchemaWith_run. simpl.
  set (name := metaName (getMetadata z)).
  destruct (registered name (schemaRefs st)) eqn:Hreg;
    [split; [exact Hst | exact Logic.I]|].
  match goal with |- context [t ?i ?a ?b ?c st] =>
    pose proof (Ht a b st Hst) as H; destruct (t i a b c st) as [[base | e] st1] end;
    simpl in H; destruct H as [HI HE]; [|split; assumption].
  simpl. split; [|exact Logic.I].
  destruct (save && truthyName name) eqn:Hsave; [|exact HI].
  apply andb_prop in Hsave. destruct Hsave as [-> Hname].
  destruct name as [n |]; simpl in *; [|discriminate].
  rewrite Hname in Hreg. simpl in Hreg.
  apply orb_false_elim in Hreg. destruct Hreg as [Hreg _].
  exact (Hstore eq_refl st n Hst Hreg Hname st1 _ HI).
Qed.

Lemma generateSingleSchemaFuel_inv (save : bool) :
  (save = true -> stableUnderStore I) ->
  forall n z wm, hoare I (generateSingleSchemaFuel n z save wm) (post I E (fun _ => True)).
Proof.
  intros Hstore. induction n as [| n IH]; intros z wm; simpl.
  - apply hoare_ret. exact Logic.I.
  - apply generateSingleSchemaWith_inv; [exact Hstore|].
    intros isN hasT. apply toOpenAPISchemaWith_inv. intros c _. apply IH.
Qed.

Lemma generateSingleSchema_inv (save : bool) (z : ZodSchema) (wm : bool) :
  (save = true -> stableUnderStore I) ->
  hoare I (generateSingleSchema z save wm) (post I E (fun _ => True)).
Proof. intros Hstore. apply generateSingleSchemaFuel_inv. exact Hstore. Qed.

Lemma toOpenAPISchema_inv (save : bool) (z : ZodSchema) (isN hasT : bool) :
  (save = true -> stableUnderStore I) ->
  hoare I (toOpenAPISchema z isN hasT save) (post I E (fun _ => True)).
Proof.
  intros Hstore. apply toOpenAPISchemaWith_inv. intros c _.
  apply generateSingleSchema_inv. exact Hstore.
Qed.

End Invariant.
End MapperEquation.

(* ================================================================= *)
(** * Parameters, routes and definitions keep invariants *)

Section DocumentInvariants.
Context {zod : ZodMethods}.

(** One call of [generateSingleParameter], step by step. *)
Lemma generateSingleParameter_run (z : ZodSchema) (loc : ParameterLocation)
    (save : bool) (ext : option string) (st : Refs) :
  generateSingleParameter z loc save ext st =
  let name := parameterName z ext in
  if negb (truthyName name) then (Throws UnknownParameterName, st)
  else if answers (nameText name) (paramRefs st)
  then (Returns (paramRef (nameText name)), st)
  else
    match generateSingleSchema z false false st with
    | (Returns schema, st1) =>
        (Returns (parameterObject z loc (nameText name) schema),
         if save
         then storeParam (nameText name)
                (parameterObject z loc (nameText name) schema) st1
         else st1)
    | (Throws e, st1) => (Throws e, st1)
    end.
Proof.
  unfold generateSingleParameter, parameterName, parameterObject. simpl.
  set (name := match ext with Some n => Some n | None => _ end).
  destruct (truthyName name) eqn:Hname; simpl; [|reflexivity].
  unfold bind at 1, getRefs. simpl.
  destruct (answers (nameText name) (paramRefs st)); [reflexivity|].
  unfold bind at 1.
  destruct (generateSingleSchema z false false st) as [[schema | e] st1];
    [|reflexivity].
  rewrite andb_true_r. destruct save; reflexivity.
Qed.

Section DocInvariant.
Variables (I : Refs -> Prop) (E : Error -> Prop).
Hypothesis E_unknown : forall s, E (UnknownZodType s).
Hypothesis E_parameter : E UnknownParameterName.
Hypothesis I_param : forall st n r, I st -> I (storeParam n r st).
Hypothesis I_path : forall st p r, I st -> I (storePath p r st).

Lemma generateSingleParameter_inv z loc save ext :
  hoare I (generateSingleParameter z loc save ext) (post I E anything).
Proof.
  intros st Hst. rewrite generateSingleParameter_run. simpl.
  destruct (negb _); [split; assumption|].
  destruct (answers _ _); [split; [assumption | exact Logic.I]|].
  pose proof (generateSingleSchema_inv I E E_unknown false z false
                (fun H => False_ind _ (Bool.diff_false_true H)) st Hst) as H.
  destruct (generateSingleSchema z false false st) as [[schema | e] st1];
    simpl in *; destruct H as [HI HE]; [|split; assumption].
  split; [|exact Logic.I]. destruct save; [apply I_param|]; exact HI.
Qed.

Lemma getParamsByLocation_inv paramsSchema loc :
  hoare I (getParamsByLocation paramsSchema loc) (post I E anything).
Proof.
  destruct paramsSchema as [[] |]; simpl; try (apply hoare_ret; exact Logic.I).
  eapply hoare_bind.
  - apply hoare_mapM with (G := anything). intros x _. apply generateSingleParameter_inv.
  - intros; apply hoare_ret; exact Logic.I.
Qed.

Lemma getParameters_inv request :
  hoare I (getParameters request) (post I E anything).
Proof.
  destruct request as [request |]; simpl; [|apply hoare_ret; exact Logic.I].
  eapply hoare_bind; [apply getParamsByLocation_inv|]. intros pathParams _.
  eapply hoare_bind; [apply getParamsByLocation_inv|]. intros queryParams _.
  eapply hoare_bind with (G1 := anything).
  - destruct (Route.headers request); [|apply hoare_ret; exact Logic.I].
    eapply hoare_bind.
    + apply hoare_mapM with (G := anything). intros x _. apply generateSingleParameter_inv.
    + intros; apply hoare_ret; exact Logic.I.
  - intros; apply hoare_ret; exact Logic.I.
Qed.

Lemma getBodyDoc_inv bodySchema :
  hoare I (getBodyDoc bodySchema) (post I E anything).
Proof.
  destruct bodySchema; simpl; [|apply hoare_ret; exact Logic.I].
  eapply hoare_bind.
  - apply generateSingleSchema_inv with (save := false); [exact E_unknown|].
    discriminate.
  - intros; apply hoare_ret; exact Logic.I.
Qed.

Lemma generateSingleRoute_inv route :
  hoare I (generateSingleRoute route) (post I E anything).
Proof.
  unfold generateSingleRoute.
  eapply hoare_bind.
  { apply generateSingleSchema_inv with (save := false); [exact E_unknown|].
    discriminate. }
  intros responseSchema _.
  eapply hoare_bind; [apply getParameters_inv|]. intros parameters _.
  eapply hoare_bind; [apply getBodyDoc_inv|]. intros requestBody _.
  intros st Hst. split; [|exact Logic.I]. apply I_path. exact Hst.
Qed.

Hypothesis I_schema : stableUnderStore I.

Lemma generateSingle_inv definition :
  hoare I (generateSingle definition) (post I E anything).
Proof.
  destruct definition; simpl.
  - apply generateSingleSchema_inv; [exact E_unknown | intros _; exact I_schema].
  - apply generateSingleParameter_inv.
  - apply generateSingleRoute_inv.
Qed.

Lemma forEach_generateSingle_inv defs :
  hoare I (forEach generateSingle defs) (post I E anything).
Proof.
  apply hoare_forEach with (G := anything). intros d _. apply generateSingle_inv.
Qed.

End DocInvariant.

(* ================================================================= *)
(** * Calls that do not save leave the registries alone *)

Lemma generateSingleSchema_frame z wm st :
  snd (generateSingleSchema z false wm st) = st.
Proof.
  symmetry.
  exact (proj1 (generateSingleSchema_inv (eq st) (fun _ => True)
                  (fun _ => Logic.I) false z wm
                  (fun H => False_ind _ (Bool.diff_false_true H)) st eq_refl)).
Qed.

Lemma toOpenAPISchema_frame z isN hasT st :
  snd (toOpenAPISchema z isN hasT false st) = st.
Proof.
  symmetry.
  exact (proj1 (toOpenAPISchema_inv (eq st) (fun _ => True)
                  (fun _ => Logic.I) false z isN hasT
                  (fun H => False_ind _ (Bool.diff_false_true H)) st eq_refl)).
Qed.

Lemma generateSingleParameter_frame z loc ext st :
  snd (generateSingleParameter z loc false ext st) = st.
Proof.
  rewrite generateSingleParameter_run. simpl.
  destruct (negb _); [reflexivity|]. destruct (answers _ _); [reflexivity|].
  pose proof (generateSingleSchema_frame z false st) as H.
  destruct (generateSingleSchema z false false st) as [[schema | e] st1]; exact H.
Qed.

End DocumentInvariants.

(* ================================================================= *)
(** * Facts about objects *)

Section ObjFacts.
Context {A : Type}.
Implicit Types (o : list (string * A)) (k : string).

Lemma get_put_same k (v : A) o : Obj.get k (Obj.put k v o) = Some v.
Proof.
  induction o as [| [k' v'] o IH]; simpl.
  - rewrite String.eqb_refl. reflexivity.
  - destruct (String.eqb k k') eqn:Hk; simpl.
    + rewrite String.eqb_refl. reflexivity.
    + rewrite Hk. exact IH.
Qed.

Lemma get_put_other k k' (v : A) o :
  k <> k' -> Obj.get k (Obj.put k' v o) = Obj.get k o.
Proof.
  intros Hne. apply String.eqb_neq in Hne.
  induction o as [| [k2 v2] o IH]; simpl.
  - rewrite Hne. reflexivity.
  - destruct (String.eqb k' k2) eqn:Hk; simpl.
    + apply String.eqb_eq in Hk. subst k2. rewrite Hne. reflexivity.
    + rewrite IH. reflexivity.
Qed.

Lemma get_assign_other k (s o : list (string * A)) :
  ~ In k (map fst s) -> Obj.get k (Obj.assign o s) = Obj.get k o.
Proof.
  unfold Obj.assign. revert o.
  induction s as [| [k' v] s IH]; intros o Hnot; simpl; [reflexivity|].
  rewrite IH by (intros H; apply Hnot; right; exact H).
  apply get_put_other. intros ->. apply Hnot. left. reflexivity.
Qed.

Lemma in_put (e : string * A) k (v : A) o :
  In e (Obj.put k v o) -> e = (k, v) \/ In e o.
Proof.
  induction o as [| [k' v'] o IH]; simpl.
  - intros [<- | []]. left. reflexivity.
  - destruct (String.eqb k k'); simpl.
    + intros [<- | H]; [left; reflexivity | right; right; exact H].
    + intros [<- | H]; [right; left; reflexivity|].
      destruct (IH H) as [-> | H']; [left; reflexivity | right; right; exact H'].
Qed.

Lemma in_assign (e : string * A) (s o : list (string * A)) :
  In e (Obj.assign o s) -> In e o \/ In e s.
Proof.
  unfold Obj.assign. revert o.
  induction s as [| [k v] s IH]; intros o; simpl; [tauto|].
  intros H. destruct (IH _ H) as [H1 | H1]; [|right; right; exact H1].
  destruct (in_put _ _ _ _ H1) as [-> | H2]; [right; left; reflexivity | left; exact H2].
Qed.

Lemma in_spread (e : string * A) (a b : list (string * A)) :
  In e (Obj.spread a b) -> In e a \/ In e b.
Proof.
  unfold Obj.spread. intros H.
  destruct (in_assign _ _ _ H) as [H1 | H1]; [|right; exact H1].
  destruct (in_assign _ _ _ H1) as [[] | H2]. left. exact H2.
Qed.

Lemma get_some_in k (v : A) o : Obj.get k o = Some v -> In (k, v) o.
Proof.
  induction o as [| [k' v'] o IH]; simpl; [discriminate|].
  destruct (String.eqb k k') eqn:Hk.
  - apply String.eqb_eq in Hk. subst k'. intros [= ->]. left. reflexivity.
  - intros H. right. exact (IH H).
Qed.

Lemma has_put k k' (v : A) o :
  Obj.has k (Obj.put k' v o) = true -> k = k' \/ Obj.has k o = true.
Proof.
  destruct (String.eqb k k') eqn:Hk.
  - apply String.eqb_eq in Hk. left. exact Hk.
  - apply String.eqb_neq in Hk. unfold Obj.has.
    rewrite (get_put_other _ _ v o Hk). right. assumption.
Qed.

End ObjFacts.

Lemma not_in_buildMetadata (m : ZodOpenAPIMetadata) :
  ~ In "name" (map fst (buildMetadata m)).
Proof.
  unfold buildMetadata, omitBy, omit. intros H.
  apply in_map_iff in H. destruct H as [[k v] [Hk Hin]]. simpl in Hk. subst k.
  apply filter_In in Hin. destruct Hin as [Hin _].
  apply filter_In in Hin. destruct Hin as [_ Hin]. simpl in Hin. discriminate.
Qed.

(* ================================================================= *)
(** * Registry states a generator goes through *)

Section ReachabilityFacts.
Context {zod : ZodMethods}.

Lemma keysTruthy_stable : stableUnderStore keysTruthy.
Proof.
  intros st n _ _ Hn st1 r H1 k Hk. simpl in Hk.
  destruct (has_put _ _ _ _ Hk) as [-> | Hk']; [exact Hn | exact (H1 k Hk')].
Qed.

Lemma holds_stable N frag : stableUnderStore (holds N frag).
Proof.
  intros st n Hst Hfresh _ st1 r H1. unfold holds in *. simpl.
  rewrite get_put_other; [exact H1|].
  intros ->. unfold Obj.has in Hfresh. rewrite Hst in Hfresh. discriminate.
Qed.

Lemma call_preserves (I : Refs -> Prop) :
  stableUnderStore I ->
  (forall st n r, I st -> I (storeParam n r st)) ->
  (forall st p r, I st -> I (storePath p r st)) ->
  forall st st', call st st' -> I st -> I st'.
Proof.
  intros Hs Hp Hr st st' Hcall Hst. destruct Hcall.
  - exact (proj1 (generateSingleSchema_inv I (fun _ => True) (fun _ => Logic.I)
                    save z wm (fun _ => Hs) st Hst)).
  - exact (proj1 (generateSingleParameter_inv I (fun _ => True) (fun _ => Logic.I)
                    Logic.I Hp z loc save ext st Hst)).
  - exact (proj1 (generateSingleRoute_inv I (fun _ => True) (fun _ => Logic.I)
                    Logic.I Hp Hr route st Hst)).
Qed.

Lemma later_preserves (I : Refs -> Prop) :
  stableUnderStore I ->
  (forall st n r, I st -> I (storeParam n r st)) ->
  (forall st p r, I st -> I (storePath p r st)) ->
  forall st st', later st st' -> I st -> I st'.
Proof.
  intros Hs Hp Hr st st' Hlater Hst. induction Hlater as [| st1 st2 _ IH Hcall].
  - exact Hst.
  - exact (call_preserves I Hs Hp Hr st1 st2 Hcall IH).
Qed.

Lemma later_keysTruthy st : later emptyRefs st -> keysTruthy st.
Proof.
  intros H. apply (later_preserves keysTruthy keysTruthy_stable) with (st := emptyRefs).
  - intros; assumption.
  - intros; assumption.
  - exact H.
  - intros k Hk. discriminate.
Qed.

Lemma later_holds N frag st st' :
  later st st' -> holds N frag st -> holds N frag st'.
Proof.
  apply (later_preserves (holds N frag) (holds_stable N frag)); intros; assumption.
Qed.

(* ================================================================= *)
(** * C1: reference stability *)

(** C1, as the code has it. Let a fragment [frag] be stored under the name
    [N] in the schema registry; [N] is not the empty string, or the
    registries are ones a generator reaches, in which no empty name is ever a
    key. Then every call of [generateSingleSchema] that starts from then on,
    be it at once or after any number of calls, on any node whose resolved
    metadata name is [N], returns the object whose only property is [$ref]
    with the text [#/components/schemas/] followed by [N], whatever the
    node's structure and whatever [saveIfNew] is; the call leaves the
    registries as they were, and [frag] is still what is stored under [N].
    Only a call that was already running when [frag] was stored is not bound
    by this: a call on a node named [N] that found nothing under [N] when it
    started and saves stores, when it returns, the fragment it returns,
    whatever its descent has stored under [N] meanwhile. *)
Theorem stored_name_is_answered_by_its_reference
    (N : string) (frag : JSObject) (st0 st : Refs)
    (z : ZodSchema) (save wm : bool) :
  Obj.get N (schemaRefs st0) = Some frag ->
  truthyString N = true \/ later emptyRefs st0 ->
  later st0 st ->
  metaName (getMetadata z) = Some N ->
  generateSingleSchema z save wm st
  = (Returns [("$ref", VStr ("#/components/schemas/" ++ N))], st)
  /\ Obj.get N (schemaRefs st) = Some frag
  /\ (forall s r s',
        answers N (schemaRefs s) = false ->
        generateSingleSchema z true wm s = (Returns r, s') ->
        Obj.get N (schemaRefs s') = Some r).
Proof.
  intros Hstored Hreach Hlater Hname.
  assert (Htruthy : truthyString N = true).
  { destruct Hreach as [H | H]; [exact H|].
    apply (later_keysTruthy st0 H). unfold Obj.has. rewrite Hstored. reflexivity. }
  pose proof (later_holds N frag st0 st Hlater Hstored) as Hst. unfold holds in Hst.
  split; [|split; [exact Hst|]].
  - rewrite generateSingleSchema_eq, generateSingleSchemaWith_run. simpl.
    rewrite Hname. simpl. unfold answers, Obj.has. rewrite Htruthy, Hst.
    reflexivity.
  - intros s r s' Hfree.
    rewrite generateSingleSchema_eq, generateSingleSchemaWith_run. cbv zeta.
    rewrite Hname. simpl. rewrite Htruthy, Hfree. simpl.
    destruct (toOpenAPISchema _ _ _ _ s) as [[base | e] s1]; [|discriminate].
    intros [= <- <-]. simpl. apply get_put_same.
Qed.

End ReachabilityFacts.

(* ================================================================= *)
(** * C10: calls with [saveIfNew = false] *)

(** C10. With [saveIfNew = false] the schema mapper, the dispatch it descends
    through (object properties, array items, union and intersection members)
    and the parameter mapper leave the three registries exactly as they found
    them, whether they return or throw; two successive such calls on a node
    therefore give the same result. *)
Theorem unsaved_calls_leave_registries_unchanged
    (zod : ZodMethods) (z : ZodSchema) (st : Refs) :
  (forall wm, snd (generateSingleSchema z false wm st) = st)
  /\ (forall isN hasT, snd (toOpenAPISchema z isN hasT false st) = st)
  /\ (forall loc ext, snd (generateSingleParameter z loc false ext st) = st)
  /\ (forall wm,
        fst (generateSingleSchema z false wm
               (snd (generateSingleSchema z false wm st)))
        = fst (generateSingleSchema z false wm st))
  /\ (forall loc ext,
        fst (generateSingleParameter z loc false ext
               (snd (generateSingleParameter z loc false ext st)))
        = fst (generateSingleParameter z loc false ext st)).
Proof.
  repeat split; intros.
  - apply generateSingleSchema_frame.
  - apply toOpenAPISchema_frame.
  - apply generateSingleParameter_frame.
  - rewrite generateSingleSchema_frame. reflexivity.
  - rewrite generateSingleParameter_frame. reflexivity.
Qed.

(* ================================================================= *)
(** * C5: document configuration *)

Lemma generateSingle_never_NoConfig (zod : ZodMethods) defs st :
  fst (forEach generateSingle defs st) <> Throws NoConfig.
Proof.
  pose proof (forEach_generateSingle_inv (fun _ => True) (fun e => e <> NoConfig)
                (fun s => ltac:(discriminate)) ltac:(discriminate)
                (fun _ _ _ _ => Logic.I) (fun _ _ _ _ => Logic.I)
                (fun _ _ _ _ _ _ _ _ => Logic.I) defs st Logic.I) as [_ H].
  destruct (fst (forEach generateSingle defs st)); [discriminate|].
  intros [= ->]. apply H. reflexivity.
Qed.

(** C5. A generator constructed without a configuration: [generateDocs]
    throws the missing-configuration error at once, with the registries
    untouched, so before any definition is processed; [generateComponents]
    processes the definitions, never throws that error, and when the
    definitions map without error it returns exactly
    [{components: {schemas, parameters}}] built from the registries. *)
Theorem generateDocs_needs_config_generateComponents_does_not
    (zod : ZodMethods) (defs : list OpenAPIDefinitions) (st : Refs) :
  generateDocs (mkGenerator defs None) st = (Throws NoConfig, st)
  /\ fst (generateComponents (mkGenerator defs None) st) <> Throws NoConfig
  /\ generateComponents (mkGenerator defs None) st =
       match forEach generateSingle defs st with
       | (Returns _, st') =>
           (Returns [("components",
                      VObj [("schemas", objOfObjs (schemaRefs st'));
                            ("parameters", objOfObjs (paramRefs st'))])], st')
       | (Throws e, st') => (Throws e, st')
       end.
Proof.
  split; [reflexivity|].
  assert (Heq : generateComponents (mkGenerator defs None) st =
       match forEach generateSingle defs st with
       | (Returns _, st') =>
           (Returns [("components",
                      VObj [("schemas", objOfObjs (schemaRefs st'));
                            ("parameters", objOfObjs (paramRefs st'))])], st')
       | (Throws e, st') => (Throws e, st')
       end).
  { unfold generateComponents, bind. simpl.
    destruct (forEach generateSingle defs st) as [[[] | e] st']; reflexivity. }
  split; [|exact Heq].
  rewrite Heq. pose proof (generateSingle_never_NoConfig zod defs st) as H.
  destruct (forEach generateSingle defs st) as [[[] | e] st']; simpl in *;
    [discriminate|].
  intros [= ->]. apply H. reflexivity.
Qed.

(* ================================================================= *)
(** * C6: kinds without a dispatch entry *)

Lemma forEach_aborts {A B} (f : A -> Gen B) (pre post : list A) (x : A)
    (st st1 st2 : Refs) (e : Error) :
  forEach f pre st = (Returns tt, st1) ->
  f x st1 = (Throws e, st2) ->
  forEach f (pre ++ x :: post) st = (Throws e, st2).
Proof.
  revert st. induction pre as [| y pre IH]; intros st Hpre Hx; simpl in *.
  - injection Hpre as <-. unfold bind. rewrite Hx. reflexivity.
  - unfold bind in *. destruct (f y st) as [[b | e'] st']; [|discriminate].
    apply IH; assumption.
Qed.

(* ================================================================= *)
(** * C7: the name of a parameter *)

Lemma generateSingleSchema_never_UnknownParameterName (zod : ZodMethods)
    z save wm st :
  fst (generateSingleSchema z save wm st) <> Throws UnknownParameterName.
Proof.
  pose proof (generateSingleSchema_inv (fun _ => True)
                (fun e => e <> UnknownParameterName)
                (fun s => ltac:(discriminate)) save z wm
                (fun _ _ _ _ _ _ _ _ _ => Logic.I) st Logic.I) as [_ H].
  destruct (fst (generateSingleSchema z save wm st)); [discriminate|].
  intros [= ->]. apply H. reflexivity.
Qed.

(** C7, as the code has it. [generateSingleParameter] throws the missing-name
    error exactly when the resolved name, which is [externalName] if one is
    given and the metadata's registration name otherwise, is absent or is the
    empty string. When the resolved name is a non-empty string, the call
    returns the reference to that parameter name or a parameter object whose
    [name] is that string, or throws some other error. *)
Theorem parameter_name_error_iff_name_falsy
    (zod : ZodMethods) (z : ZodSchema) (loc : ParameterLocation)
    (save : bool) (ext : option string) (st : Refs) :
  (fst (generateSingleParameter z loc save ext st) = Throws UnknownParameterName
   <-> truthyName (parameterName z ext) = false)
  /\ (forall r st',
        generateSingleParameter z loc save ext st = (Returns r, st') ->
        r = paramRef (nameText (parameterName z ext))
        \/ prop "name" r = VStr (nameText (parameterName z ext))).
Proof.
  rewrite generateSingleParameter_run. simpl.
  destruct (truthyName (parameterName z ext)) eqn:Hname; simpl.
  - pose proof (generateSingleSchema_never_UnknownParameterName zod z false false st) as Hs.
    destruct (answers _ _).
    + split; [split; discriminate|]. intros r st' [= <- <-]. left. reflexivity.
    + destruct (generateSingleSchema z false false st) as [[schema | e] st1];
        simpl in *.
      * split; [split; discriminate|]. intros r st' [= <- _]. right.
        unfold parameterObject, prop. rewrite get_assign_other.
        -- reflexivity.
        -- destruct (getMetadata z); [apply not_in_buildMetadata | simpl; tauto].
      * split; [|discriminate]. split; [|discriminate].
        intros H. exfalso. apply Hs. exact H.
  - split; [split; reflexivity | discriminate].
Qed.

(* ================================================================= *)
(** * C4 and C2: unions and intersections *)

Lemma flattenUnionTypes_leaf (s : ZodSchema) :
  isZodUnion s = false -> flattenUnionTypes s = [s].
Proof. destruct s; simpl; intros H; try reflexivity; discriminate. Qed.

Lemma flattenIntersectionTypes_leaf (s : ZodSchema) :
  isZodIntersection s = false -> flattenIntersectionTypes s = [s].
Proof. destruct s; simpl; intros H; try reflexivity; discriminate. Qed.

Lemma mapM_three {A B} (f : A -> Gen B) (x y z : A) (k : list B -> JSObject) st :
  (r <- mapM f [x; y; z] ;; ret (k r)) st
  = (a <- f x ;; b <- f y ;; c <- f z ;; ret (k [a; b; c])) st.
Proof.
  simpl. unfold bind, ret.
  destruct (f x st) as [[a | e] st1]; [|reflexivity].
  destruct (f y st1) as [[b | e] st2]; [|reflexivity].
  destruct (f z st2) as [[c | e] st3]; reflexivity.
Qed.

Lemma mapM_two {A B} (f : A -> Gen B) (x y : A) (k : list B -> JSObject) st :
  (r <- mapM f [x; y] ;; ret (k r)) st
  = (a <- f x ;; b <- f y ;; ret (k [a; b])) st.
Proof.
  simpl. unfold bind, ret.
  destruct (f x st) as [[a | e] st1]; [|reflexivity].
  destruct (f y st1) as [[b | e] st2]; reflexivity.
Qed.

(** C4, as the code has it. Mapping [union(union(A,B),C)] maps the
    alternatives of [A], of [B] and of [C], in this order, and returns them
    as one [anyOf] list: the inner union adds no [anyOf] level of its own.
    When none of [A], [B], [C] is itself a union node the list is
    [[mapped A, mapped B, mapped C]]. Mapping
    [intersection(A, intersection(B,C))] does the same under [allOf], left
    before right, with [[mapped A, mapped B, mapped C]] when none of them is
    itself an intersection node. A mapping that throws on a member throws on
    the whole. *)
Theorem nested_unions_and_intersections_flatten
    (zod : ZodMethods) (A B C : ZodSchema) :
  (forall m1 m2 isN hasT save st,
      toOpenAPISchema (ZodUnion m1 [ZodUnion m2 [A; B]; C]) isN hasT save st
      = (anyOf <- mapM (fun schema => generateSingleSchema schema save true)
                    (flattenUnionTypes A ++ flattenUnionTypes B
                       ++ flattenUnionTypes C) ;;
         ret [("anyOf", VArr (map VObj anyOf))]) st)
  /\ (isZodUnion A = false -> isZodUnion B = false -> isZodUnion C = false ->
      forall m1 m2 isN hasT save st,
        toOpenAPISchema (ZodUnion m1 [ZodUnion m2 [A; B]; C]) isN hasT save st
        = collect3 "anyOf" A B C save st)
  /\ (forall m1 m2 isN hasT save st,
        toOpenAPISchema (ZodIntersection m1 A (ZodIntersection m2 B C))
          isN hasT save st
        = (allOf <- mapM (fun schema => generateSingleSchema schema save true)
                      (flattenIntersectionTypes A ++ flattenIntersectionTypes B
                         ++ flattenIntersectionTypes C) ;;
           ret [("allOf", VArr (map VObj allOf))]) st)
  /\ (isZodIntersection A = false -> isZodIntersection B = false ->
      isZodIntersection C = false ->
      forall m1 m2 isN hasT save st,
        toOpenAPISchema (ZodIntersection m1 A (ZodIntersection m2 B C))
          isN hasT save st
        = collect3 "allOf" A B C save st).
Proof.
  split; [|split; [|split]].
  - intros. unfold toOpenAPISchema. simpl.
    rewrite !app_nil_r, <- app_assoc. reflexivity.
  - intros HA HB HC m1 m2 isN hasT save st.
    unfold toOpenAPISchema, collect3. simpl.
    rewrite (flattenUnionTypes_leaf A HA), (flattenUnionTypes_leaf B HB),
      (flattenUnionTypes_leaf C HC). simpl app.
    apply (mapM_three (fun s => generateSingleSchema s save true) A B C
             (fun r => [("anyOf", VArr (map VObj r))])).
  - intros. reflexivity.
  - intros HA HB HC m1 m2 isN hasT save st.
    unfold toOpenAPISchema, collect3. simpl.
    rewrite (flattenIntersectionTypes_leaf A HA),
      (flattenIntersectionTypes_leaf B HB), (flattenIntersectionTypes_leaf C HC).
    simpl app.
    apply (mapM_three (fun s => generateSingleSchema s save true) A B C
             (fun r => [("allOf", VArr (map VObj r))])).
Qed.

(** The union branch for any two members. The dispatch maps a union of [A]
    and [B] to a fragment whose only key is [anyOf], whatever the nullable
    flag it is handed: the flag is not used. The list holds the fragments of
    the alternatives of [A] and of [B], each mapped on its own; when neither
    is itself a union it is [[mapped A, mapped B]], and the same fragment is
    what the mapper returns for the nullable wrapper of such a union. In the
    3.0 strategy, [mapNullableOfArray] appends [{nullable: true}] to a
    nullable list and leaves the members as they are. *)
Theorem nullable_union_keeps_members_undecorated
    (zod : ZodMethods) (A B : ZodSchema) :
  (forall md isN hasT save st,
      toOpenAPISchema (ZodUnion md [A; B]) isN hasT save st
      = (anyOf <- mapM (fun schema => generateSingleSchema schema save true)
                    (flattenUnionTypes A ++ flattenUnionTypes B) ;;
         ret [("anyOf", VArr (map VObj anyOf))]) st)
  /\ (isZodUnion A = false -> isZodUnion B = false ->
      (forall md isN hasT save st,
          toOpenAPISchema (ZodUnion md [A; B]) isN hasT save st
          = anyOf2 A B save st)
      /\ (forall save wm st,
            generateSingleSchema (ZodNullable None (ZodUnion None [A; B]))
              save wm st
            = anyOf2 A B save st))
  /\ (forall objects,
        OpenApiGeneratorV30Specifics.mapNullableOfArray objects true
        = (objects ++ [VObj [("nullable", VBool true)]])%list
        /\ OpenApiGeneratorV30Specifics.mapNullableOfArray objects false = objects).
Proof.
  split.
  { intros. unfold toOpenAPISchema. simpl. rewrite app_nil_r. reflexivity. }
  split; [|intros; split; reflexivity].
  intros HA HB.
  assert (Hd : forall md isN hasT save st,
      toOpenAPISchema (ZodUnion md [A; B]) isN hasT save st = anyOf2 A B save st).
  { intros. unfold toOpenAPISchema, anyOf2. simpl.
    rewrite (flattenUnionTypes_leaf A HA), (flattenUnionTypes_leaf B HB). simpl app.
    apply (mapM_two (fun s => generateSingleSchema s save true) A B
             (fun r => [("anyOf", VArr (map VObj r))])). }
  split; [exact Hd|].
  intros save wm st.
  rewrite generateSingleSchema_eq, generateSingleSchemaWith_run.
  cbv zeta. simpl unwrapOptional. rewrite Hd. simpl. unfold anyOf2, bind, ret.
  destruct (generateSingleSchema A save true st) as [[a | e] st1]; [|reflexivity].
  destruct (generateSingleSchema B save true st1) as [[b | e] st2]; [|reflexivity].
  rewrite andb_false_r. reflexivity.
Qed.

(* ================================================================= *)
(** * C3: numeric bounds *)

(** C3, as the code has it. The 3.0 strategy's [getNumberChecks] turns the
    checks [min(0, inclusive)], [max(10, exclusive)] into exactly
    [{minimum: 0, maximum: 10, exclusiveMaximum: true}], with no
    [exclusiveMinimum] key. The dispatch of the generator maps a number
    schema to [type], [minimum] and [maximum] read from [minValue] and
    [maxValue], and the nullable flag: for these two checks the mapper
    returns [{type: "number", minimum: 0, maximum: 10}]. *)
Theorem number_bounds_in_strategy_and_mapper :
  OpenApiGeneratorV30Specifics.getNumberChecks
    [CheckMin (NumberValue 0) true; CheckMax (NumberValue 10) false]
  = [("minimum", VNum 0); ("maximum", VNum 10); ("exclusiveMaximum", VBool true)]
  /\ Obj.get "exclusiveMinimum"
       (OpenApiGeneratorV30Specifics.getNumberChecks
          [CheckMin (NumberValue 0) true; CheckMax (NumberValue 10) false]) = None
  /\ (forall (zod : ZodMethods) md checks isN hasT save st,
        toOpenAPISchema (ZodNumber md checks) isN hasT save st
        = (Returns [("type", VStr "number");
                    ("minimum", optNum (minValue checks));
                    ("maximum", optNum (maxValue checks));
                    ("nullable", nullableFlag isN)], st))
  /\ (forall save wm st,
        generateSingleSchema (zod := Zod.methods)
          (ZodNumber None
             [CheckMin (NumberValue 0) true; CheckMax (NumberValue 10) false])
          save wm st
        = (Returns [("type", VStr "number"); ("minimum", VNum 0);
                    ("maximum", VNum 10)], st)).
Proof.
  split; [reflexivity|]. split; [reflexivity|]. split; [reflexivity|].
  intros save wm st.
  rewrite generateSingleSchema_eq, generateSingleSchemaWith_run. simpl.
  rewrite andb_false_r. reflexivity.
Qed.

(* ================================================================= *)
(** * C8: native enums *)

(** C8, as the code has it. The dispatch maps a native-enum schema to type
    [string] and to an [enum] list that is [Object.values] of the enum
    object, unchanged: a member value that is a number is emitted as that
    number. Without metadata the mapper returns this fragment, with the
    [nullable] key only when the node is nullable. *)
Theorem native_enum_values_are_copied (zod : ZodMethods) (values : JSObject) :
  (forall md isN hasT save st,
      toOpenAPISchema (ZodNativeEnum md values) isN hasT save st
      = (Returns [("type", VStr "string");
                  ("nullable", nullableFlag isN);
                  ("enum", VArr (Obj.values values))], st))
  /\ (forall save wm st,
        generateSingleSchema (ZodNativeEnum None values) save wm st
        = (Returns ((("type", VStr "string")
                     :: (if isNullable (ZodNativeEnum None values)
                         then [("nullable", VBool true)] else []))
                    ++ [("enum", VArr (Obj.values values))])%list, st)).
Proof.
  split; [reflexivity|]. intros save wm st.
  rewrite generateSingleSchema_eq, generateSingleSchemaWith_run. simpl.
  rewrite andb_false_r. destruct (isNullable _); reflexivity.
Qed.

(* ================================================================= *)
(** * C9: fields whose value is undefined *)

Lemma cleanObject_omitBy (o : JSObject) :
  valuesClean o = true -> cleanObject (omitBy o isUndefined).
Proof.
  unfold cleanObject, valuesClean, omitBy. simpl. intros H.
  apply forallb_forall. intros kv Hin. apply filter_In in Hin.
  destruct Hin as [Hin Hdef]. rewrite Hdef. simpl.
  exact (proj1 (forallb_forall _ _) H kv Hin).
Qed.

Lemma valuesClean_spread (a b : JSObject) :
  valuesClean a = true -> valuesClean b = true -> valuesClean (Obj.spread a b) = true.
Proof.
  unfold valuesClean. intros Ha Hb. apply forallb_forall. intros kv Hin.
  destruct (in_spread _ _ _ Hin) as [H | H];
    [exact (proj1 (forallb_forall _ _) Ha kv H)
    | exact (proj1 (forallb_forall _ _) Hb kv H)].
Qed.

Lemma valuesClean_buildMetadata (m : ZodOpenAPIMetadata) :
  valuesClean m = true -> valuesClean (buildMetadata m) = true.
Proof.
  unfold valuesClean, buildMetadata, omitBy, omit. intros H.
  apply forallb_forall. intros kv Hin.
  apply filter_In in Hin. destruct Hin as [Hin _].
  apply filter_In in Hin. destruct Hin as [Hin _].
  exact (proj1 (forallb_forall _ _) H kv Hin).
Qed.

Lemma cleanObject_buildMetadata_entry (m : ZodOpenAPIMetadata) kv :
  valuesClean m = true -> In kv (buildMetadata m) ->
  negb (isUndefined (snd kv)) && noUndefinedFields (snd kv) = true.
Proof.
  intros H Hin.
  rewrite (proj1 (forallb_forall _ _) (valuesClean_buildMetadata m H) kv Hin).
  unfold buildMetadata, omitBy in Hin. apply filter_In in Hin.
  destruct Hin as [_ Hnil]. destruct (snd kv); try reflexivity; discriminate.
Qed.

Lemma cleanSchema_openapi z : cleanSchema z = true -> cleanMetadata (openapi z) = true.
Proof. destruct z; simpl; intros H; apply andb_prop in H; tauto. Qed.

Lemma cleanSchema_unwrapOptional z :
  cleanSchema z = true -> cleanSchema (unwrapOptional z) = true.
Proof.
  induction z; simpl; intros H; try exact H;
    apply andb_prop in H; destruct H as [_ H]; auto.
Qed.

Lemma cleanSchema_getMetadata z :
  cleanSchema z = true -> cleanMetadata (getMetadata z) = true.
Proof.
  intros H. unfold getMetadata.
  pose proof (cleanSchema_openapi z H) as H1.
  pose proof (cleanSchema_openapi _ (cleanSchema_unwrapOptional z H)) as H2.
  destruct (openapi z); assumption.
Qed.

Lemma cleanSchema_flattenUnionTypes s c :
  cleanSchema s = true -> In c (flattenUnionTypes s) -> cleanSchema c = true.
Proof.
  revert c. induction s as [s IH] using height_ind. intros c Hs.
  destruct s; simpl; try (intros [<- | []]; exact Hs).
  intros Hin. apply in_flat_map in Hin. destruct Hin as [o [Ho Hc]].
  simpl in Hs. apply andb_prop in Hs. destruct Hs as [_ Hs].
  apply (IH o); [|exact (proj1 (forallb_forall _ _) Hs o Ho) | exact Hc].
  simpl. apply Nat.lt_succ_r. exact (height_member height o options Ho).
Qed.

Lemma cleanSchema_flattenIntersectionTypes s c :
  cleanSchema s = true -> In c (flattenIntersectionTypes s) -> cleanSchema c = true.
Proof.
  revert c. induction s as [s IH] using height_ind. intros c Hs.
  destruct s; simpl; try (intros [<- | []]; exact Hs).
  intros Hin. simpl in Hs. apply andb_prop in Hs. destruct Hs as [_ Hs].
  apply andb_prop in Hs. destruct Hs as [H1 H2].
  apply in_app_or in Hin. destruct Hin as [Hin | Hin].
  - apply (IH s1); [simpl; lia | exact H1 | exact Hin].
  - apply (IH s2); [simpl; lia | exact H2 | exact Hin].
Qed.

Lemma cleanSchema_callees z c :
  cleanSchema z = true -> In c (callees z) -> cleanSchema c = true.
Proof.
  intros Hz. destruct z; simpl; try tauto.
  - intros Hin. apply in_map_iff in Hin. destruct Hin as [p [<- Hin]].
    simpl in Hz. apply andb_prop in Hz. destruct Hz as [_ Hz].
    exact (proj1 (forallb_forall _ _) Hz p Hin).
  - intros [<- | []]. simpl in Hz. apply andb_prop in Hz. tauto.
  - apply (cleanSchema_flattenUnionTypes _ c Hz).
  - apply (cleanSchema_flattenIntersectionTypes _ c Hz).
Qed.

Lemma noUndefinedFields_objects (l : list JSObject) :
  Forall cleanObject l -> noUndefinedFields (VArr (map VObj l)) = true.
Proof.
  intros H. simpl. apply forallb_forall. intros v Hin.
  apply in_map_iff in Hin. destruct Hin as [o [<- Hin]].
  exact (proj1 (Forall_forall _ _) H o Hin).
Qed.

Lemma noUndefinedFields_objOfObjs (l : list (string * JSObject)) :
  Forall cleanObject (map snd l) -> noUndefinedFields (objOfObjs l) = true.
Proof.
  intros H. unfold objOfObjs. simpl. apply forallb_forall. intros kv Hin.
  apply in_map_iff in Hin. destruct Hin as [[k o] [<- Hin]]. simpl snd.
  change (cleanObject o).
  apply (proj1 (Forall_forall _ _) H o). apply in_map_iff. exists (k, o). tauto.
Qed.

Section Clean.
Context {zod : ZodMethods}.

Lemma toOpenAPISchemaWith_clean (g : ZodSchema -> bool -> Gen JSObject)
    (z : ZodSchema) (isN hasT save : bool) :
  cleanSchema z = true ->
  (forall c, In c (callees z) ->
             hoare anything (g c save) (post anything anything cleanObject)) ->
  hoare anything (toOpenAPISchemaWith g z isN hasT save)
    (post anything anything (fun base => valuesClean base = true)).
Proof.
  intros Hz Hg.
  destruct z; simpl in *;
    try (apply hoare_ret; destruct isN; reflexivity).
  - apply hoare_ret. simpl. destruct (minValue checks), (maxValue checks), isN; reflexivity.
  - apply hoare_ret. unfold valuesClean. simpl.
    apply andb_prop in Hz. destruct Hz as [_ Hz]. rewrite Hz.
    destruct isN; reflexivity.
  - apply hoare_ret. unfold valuesClean. simpl.
    replace (forallb noUndefinedFields (map VStr values)) with true;
      [destruct isN; reflexivity|].
    symmetry. apply forallb_forall. intros v Hin.
    apply in_map_iff in Hin. destruct Hin as [s [<- _]]. reflexivity.
  - apply hoare_ret. unfold valuesClean. simpl.
    apply andb_prop in Hz. destruct Hz as [_ Hz].
    replace (forallb noUndefinedFields (Obj.values values)) with true;
      [destruct isN; reflexivity|].
    symmetry. apply forallb_forall. intros v Hin. unfold Obj.values in Hin.
    apply in_map_iff in Hin. destruct Hin as [kv [<- Hin]].
    exact (proj1 (forallb_forall _ _) Hz kv Hin).
  - eapply hoare_bind; [apply hoare_mapValues; exact Hg|].
    intros properties Hp. apply hoare_ret. unfold valuesClean.
    cbn [forallb snd]. rewrite (noUndefinedFields_objOfObjs properties Hp).
    replace (noUndefinedFields (VArr _)) with true.
    + destruct (_unknownKeys _) as [[] |], isN; reflexivity.
    + symmetry. simpl. apply forallb_forall. intros v Hin.
      apply in_map_iff in Hin. destruct Hin as [s [<- _]]. reflexivity.
  - eapply hoare_bind; [apply Hg; left; reflexivity|].
    intros items Hitems. apply hoare_ret. unfold valuesClean.
    unfold cleanObject in Hitems. simpl in *. rewrite Hitems.
    destruct minLength, maxLength; reflexivity.
  - eapply hoare_bind; [apply hoare_mapM; exact Hg|].
    intros anyOf Hany. apply hoare_ret. unfold valuesClean. cbn [forallb snd].
    rewrite (noUndefinedFields_objects anyOf Hany). reflexivity.
  - eapply hoare_bind; [apply hoare_mapM; exact Hg|].
    intros allOf Hall. apply hoare_ret. unfold valuesClean. cbn [forallb snd].
    rewrite (noUndefinedFields_objects allOf Hall). reflexivity.
  - destruct hasT; [apply hoare_ret; reflexivity | apply hoare_throw; exact Logic.I].
  - destruct hasT; [apply hoare_ret; reflexivity | apply hoare_throw; exact Logic.I].
  - destruct hasT; [apply hoare_ret; reflexivity | apply hoare_throw; exact Logic.I].
Qed.

Lemma cleanObject_mergedFragment base metadata wm :
  valuesClean base = true -> cleanMetadata metadata = true ->
  cleanObject (mergedFragment base metadata wm).
Proof.
  intros Hb Hm. unfold mergedFragment. apply cleanObject_omitBy.
  apply valuesClean_spread; [exact Hb|].
  destruct metadata as [m |]; [|reflexivity].
  destruct wm; [|reflexivity]. apply valuesClean_buildMetadata. exact Hm.
Qed.

Lemma generateSingleSchemaFuel_clean (save : bool) :
  forall n z wm,
    cleanSchema z = true ->
    hoare anything (generateSingleSchemaFuel n z save wm)
      (post anything anything cleanObject).
Proof.
  induction n as [| n IH]; intros z wm Hz; simpl.
  - apply hoare_ret. reflexivity.
  - intros st _. rewrite generateSingleSchemaWith_run. cbv zeta.
    destruct (registered _ _); [split; [exact Logic.I | reflexivity]|].
    pose proof (cleanSchema_unwrapOptional z Hz) as Hinner.
    match goal with |- context [toOpenAPISchemaWith ?g ?i ?a ?b ?c st] =>
      pose proof (toOpenAPISchemaWith_clean g i a b c Hinner
                    (fun c Hc => IH c true (cleanSchema_callees _ c Hinner Hc))
                    st Logic.I) as H;
      destruct (toOpenAPISchemaWith g i a b c st) as [[base | e] st1] end;
      simpl in H; destruct H as [_ H]; [|split; exact Logic.I].
    split; [exact Logic.I|]. simpl.
    apply cleanObject_mergedFragment; [exact H | apply cleanSchema_getMetadata; exact Hz].
Qed.

Lemma cleanObject_parameterObject z loc name schema :
  cleanSchema z = true -> cleanObject schema ->
  cleanObject (parameterObject z loc name schema).
Proof.
  intros Hz Hs. unfold cleanObject, parameterObject. simpl.
  apply forallb_forall. intros kv Hin.
  destruct (in_assign _ _ _ Hin) as [H | H].
  - simpl in H. destruct H as [<- | [<- | [<- | [<- | []]]]]; try reflexivity.
    simpl. exact Hs.
  - pose proof (cleanSchema_getMetadata z Hz) as Hm.
    destruct (getMetadata z) as [m |]; [|destruct H].
    exact (cleanObject_buildMetadata_entry m kv Hm H).
Qed.

(** C9, as the code has it. When the values handed over with the schema
    (metadata fields, literal values, native enum values) hide no undefined
    field themselves, every object returned by the schema mapper and every
    object returned by the parameter mapper contains, at any depth, no
    property whose value is undefined. *)
Theorem mapped_objects_have_no_undefined_field (z : ZodSchema) :
  cleanSchema z = true ->
  (forall save wm st r st',
      generateSingleSchema z save wm st = (Returns r, st') ->
      noUndefinedFields (VObj r) = true)
  /\ (forall loc save ext st r st',
        generateSingleParameter z loc save ext st = (Returns r, st') ->
        noUndefinedFields (VObj r) = true).
Proof.
  intros Hz.
  assert (Hs : forall save wm st r st',
      generateSingleSchema z save wm st = (Returns r, st') ->
      noUndefinedFields (VObj r) = true).
  { intros save wm st r st' Hrun.
    pose proof (generateSingleSchemaFuel_clean save (S (height z)) z wm Hz st Logic.I)
      as [_ H].
    unfold generateSingleSchema in Hrun. rewrite Hrun in H. exact H. }
  split; [exact Hs|].
  intros loc save ext st r st'. rewrite generateSingleParameter_run. cbv zeta.
  destruct (negb _); [discriminate|].
  destruct (answers _ _); [intros [= <- _]; reflexivity|].
  destruct (generateSingleSchema z false false st) as [[schema | e] st1] eqn:Hrun;
    [|discriminate].
  intros [= <- _]. apply cleanObject_parameterObject; [exact Hz|].
  exact (Hs false false st schema st1 Hrun).
Qed.

End Clean.

(* ================================================================= *)
(** * The embedding on the specification's examples *)

(** Required-field computation: [{a: string, b: optional(string)}]. *)
Example required_lists_the_properties_that_are_not_optional :
  generateSingleSchema (zod := Zod.methods)
    (ZodObject None [("a", zString); ("b", ZodOptional None zString)] strip)
    false true emptyRefs
  = (Returns [("type", VStr "object");
              ("properties", VObj [("a", VObj [("type", VStr "string")]);
                                   ("b", VObj [("type", VStr "string")])]);
              ("required", VArr [VStr "a"])], emptyRefs).
Proof. reflexivity. Qed.

(** Route assembly: the response schema and the empty parameter list of
    [{method: "get", path: "/ping", response: object({ok: boolean})}]. *)
Example ping_route_is_assembled :
  exists op rest,
    pathRefs (snd (generateSingleRoute (zod := Zod.methods) pingRoute emptyRefs))
    = [("/ping", [("get", VObj op)])]
    /\ Obj.get "parameters" op = Some (VArr [])
    /\ Obj.get "responses" op
       = Some (VObj [("200", VObj (rest ++
           [("content",
             jsonContent [("type", VStr "object");
                          ("properties", VObj [("ok", VObj [("type", VStr "boolean")])]);
                          ("required", VArr [VStr "ok"])])])%list)]).
Proof.
  eexists. exists [("description", VUndefined)].
  split; [vm_compute; reflexivity|]. split; reflexivity.
Qed.

(** Missing-name failure: an anonymous schema as a path parameter. *)
Example anonymous_parameter_is_rejected :
  generateSingleParameter (zod := Zod.methods) zString path false None emptyRefs
  = (Throws UnknownParameterName, emptyRefs).
Proof. reflexivity. Qed.

(** A name every object inherits is answered by a reference although
    nothing was registered, and nothing is stored for it. *)
Example inherited_names_are_answered_by_references :
  generateSingleSchema (zod := Zod.methods)
    (ZodString (Some [("name", VStr "constructor")])) true true emptyRefs
  = (Returns [("$ref", VStr "#/components/schemas/constructor")], emptyRefs)
  /\ generateSingleParameter (zod := Zod.methods) zString query true
       (Some "toString") emptyRefs
     = (Returns [("$ref", VStr "#/components/parameters/toString")], emptyRefs).
Proof. split; reflexivity. Qed.

(** A route whose path is [__proto__] leaves no entry in the path registry:
    the document built afterwards has no paths. *)
Example proto_path_leaves_no_entry :
  pathRefs (snd (generateSingleRoute (zod := Zod.methods)
                   (Route.mkRoute "get" "__proto__" None None None zString)
                   emptyRefs)) = []
  /\ prop "paths"
       (match fst (generateDocs (zod := Zod.methods)
                     (mkGenerator
                        [DefRoute (Route.mkRoute "get" "__proto__" None None
                                     None zString)]
                        (Some (Config.mk "3.0.0" [] None None None None)))
                     emptyRefs) with
        | Returns doc => doc
        | Throws _ => []
        end) = VObj [].
Proof. split; reflexivity. Qed.

(** A second node named [User] is not stored: the registry keeps the first. *)
Example second_User_becomes_a_reference :
  generateSingleSchema (zod := Zod.methods) userObject true true emptyRefs
  = (Returns userFragment, afterUser)
  /\ generateSingleSchema (zod := Zod.methods) userString true true afterUser
     = (Returns (schemaRef "User"), afterUser).
Proof. split; reflexivity. Qed.

(* ================================================================= *)
(** * The claims as the specification words them, on concrete schemas *)

Local Existing Instance Zod.methods.

(** C2. The nullable union of a string and a boolean,
    [z.union([z.string(), z.boolean()]).nullable()], is nullable for zod, and
    the mapper returns [{anyOf: [{type: string}, {type: boolean}]}] for it:
    not the [{anyOf: [...], nullable: true}] of the claim, the members are
    undecorated and nothing else in the fragment says that [null] is
    allowed. The nullable string next to it shows the flag that the union
    branch drops: it maps to [{type: string, nullable: true}]. *)
Lemma nullable_union_without_nullable_key :
  isNullable nullableUnion = true
  /\ generateSingleSchema nullableUnion false true emptyRefs
     = (Returns [("anyOf", VArr [VObj [("type", VStr "string")];
                                 VObj [("type", VStr "boolean")]])], emptyRefs)
  /\ fst (generateSingleSchema nullableUnion false true emptyRefs)
     <> Returns [("anyOf", VArr [VObj [("type", VStr "string")];
                                 VObj [("type", VStr "boolean")]]);
                 ("nullable", VBool true)]
  /\ generateSingleSchema (ZodNullable None zString) false true emptyRefs
     = (Returns [("type", VStr "string"); ("nullable", VBool true)], emptyRefs).
Proof.
  split; [reflexivity|]. split; [reflexivity|].
  split; [vm_compute; discriminate | reflexivity].
Qed.

(** C1 as worded fails. A node named [User] that is a property of an object
    named [User]: the call on the object finds the name free, its descent
    stores the fragment of the property under [User], and when the call
    returns it stores the fragment of the object under the same name. The
    fragment registered first is not the one that remains. *)
Lemma enclosing_node_replaces_the_nested_registration :
  metaName (getMetadata MoreExamples.friendString) = Some "User"
  /\ metaName (getMetadata MoreExamples.userWithFriend) = Some "User"
  /\ Obj.get "User"
       (schemaRefs (snd (toOpenAPISchema MoreExamples.userWithFriend
                           false false true emptyRefs)))
     = Some [("type", VStr "string")]
  /\ generateSingleSchema MoreExamples.userWithFriend true true emptyRefs
     = (Returns MoreExamples.userWithFriendFragment,
        mkRefs [("User", MoreExamples.userWithFriendFragment)] [] [] None)
  /\ Obj.get "User"
       (schemaRefs (snd (generateSingleSchema MoreExamples.userWithFriend
                           true true emptyRefs)))
     <> Some [("type", VStr "string")].
Proof.
  split; [reflexivity|]. split; [reflexivity|]. split; [reflexivity|].
  split; [reflexivity|]. vm_compute. discriminate.
Qed.

(** C6 as worded fails. A node of a kind without dispatch entry and without
    type override, named [User], once [User] is registered: the mapper
    returns the reference, nothing is thrown, and a generation whose
    definitions hold it after the object named [User] returns its document. *)
Lemma registered_unknown_kind_is_answered_by_a_reference :
  hasDispatchEntry (unwrapOptional MoreExamples.userDate) = false
  /\ truthy (metaProp "type" (getMetadata MoreExamples.userDate)) = false
  /\ generateSingleSchema MoreExamples.userDate true true afterUser
     = (Returns [("$ref", VStr "#/components/schemas/User")], afterUser)
  /\ generateComponents
       (mkGenerator [DefSchema userObject; DefSchema MoreExamples.userDate] None)
       emptyRefs
     = (Returns [("components",
                  VObj [("schemas", VObj [("User", VObj userFragment)]);
                        ("parameters", VObj [])])], afterUser).
Proof. repeat split. Qed.

(** C3 as worded fails: the mapper emits no [exclusiveMaximum] for
    [min(0, inclusive)], [max(10, exclusive)]. *)
Lemma bounded_number_without_exclusiveMaximum :
  generateSingleSchema boundedNumber false true emptyRefs
  = (Returns [("type", VStr "number"); ("minimum", VNum 0); ("maximum", VNum 10)],
     emptyRefs)
  /\ fst (generateSingleSchema boundedNumber false true emptyRefs)
     <> Returns [("type", VStr "number"); ("minimum", VNum 0);
                 ("maximum", VNum 10); ("exclusiveMaximum", VBool true)].
Proof. split; [reflexivity|]. vm_compute. discriminate. Qed.

(** C4 as worded fails. With [A] itself a union, [union(union(A,B),C)] maps
    to four alternatives, not to the three fragments of [A], [B], [C]; with
    [A] a nullable union, the first alternative is itself an [anyOf]. *)
Lemma union_members_that_are_unions :
  fst (generateSingleSchema unionOfUnion false true emptyRefs)
  = Returns [("anyOf", VArr [VObj [("type", VStr "string")];
                             VObj [("type", VStr "boolean")];
                             VObj [("type", VStr "number")];
                             VObj [("type", VStr "null")]])]
  /\ fst (toOpenAPISchema unionOfUnion false false false emptyRefs)
     <> fst (collect3 "anyOf" innerUnion zNumber zNull false emptyRefs)
  /\ fst (generateSingleSchema unionOfWrappedUnion false true emptyRefs)
     = Returns [("anyOf",
                 VArr [VObj [("anyOf", VArr [VObj [("type", VStr "string")];
                                             VObj [("type", VStr "boolean")]])];
                       VObj [("type", VStr "number")];
                       VObj [("type", VStr "null")]])].
Proof.
  split; [reflexivity|]. split; [|reflexivity]. vm_compute. discriminate.
Qed.

(** C7 as worded fails: with the empty string as [externalName] the
    missing-name error is thrown although an [externalName] is given and the
    metadata carries a name. *)
Lemma empty_external_name_is_rejected :
  metaName (getMetadata idString) = Some "id"
  /\ fst (generateSingleParameter idString path false (Some EmptyString) emptyRefs)
     = Throws UnknownParameterName
  /\ ~ (fst (generateSingleParameter idString path false (Some EmptyString)
               emptyRefs) = Throws UnknownParameterName
        <-> (Some EmptyString = None
             /\ metaName (getMetadata idString) = None)).
Proof.
  split; [reflexivity|]. split; [reflexivity|].
  intros [H _]. destruct (H eq_refl) as [H1 _]. discriminate.
Qed.

(** C8 as worded fails: the numeric members of [Direction] are emitted as
    the numbers [0] and [1]. *)
Lemma numeric_enum_members_stay_numbers :
  generateSingleSchema directionEnum false true emptyRefs
  = (Returns [("type", VStr "string");
              ("enum", VArr [VStr "Up"; VStr "Down"; VNum 0; VNum 1])], emptyRefs)
  /\ forallb isStringValue [VStr "Up"; VStr "Down"; VNum 0; VNum 1] = false.
Proof. split; reflexivity. Qed.

(** C9 as worded fails: the operation object of a route without description
    and request has [description], [summary] and [requestBody] properties
    whose value is undefined, and so has a request body whose schema has no
    description. *)
Lemma route_objects_keep_undefined_fields :
  (exists op st',
      generateSingleRoute pingRoute emptyRefs = (Returns [("get", VObj op)], st')
      /\ Obj.get "description" op = Some VUndefined
      /\ Obj.get "requestBody" op = Some VUndefined
      /\ noUndefinedFields (VObj [("get", VObj op)]) = false)
  /\ (exists bodyDoc,
        fst (getBodyDoc (Some zString) emptyRefs) = Returns (VObj bodyDoc)
        /\ Obj.get "description" bodyDoc = Some VUndefined).
Proof.
  split.
  - eexists. eexists. split; [vm_compute; reflexivity|]. repeat split.
  - eexists. split; [vm_compute; reflexivity | reflexivity].
Qed.

(* ================================================================= *)
(** * The theorems at work on concrete schemas *)

Lemma stored_name_is_answered_by_its_reference_witness :
  Obj.get "User" (schemaRefs afterUser) = Some userFragment
  /\ generateSingleSchema userString true true afterUser
     = (Returns [("$ref", VStr "#/components/schemas/User")], afterUser).
Proof.
  split; [reflexivity|].
  exact (proj1 (stored_name_is_answered_by_its_reference "User" userFragment
                  afterUser afterUser userString true true
                  eq_refl (or_introl eq_refl) (later_now afterUser) eq_refl)).
Defined.

Lemma parameter_name_error_iff_name_falsy_witness :
  generateSingleParameter idString path false None emptyRefs
  = (Returns [("in", VStr "path"); ("name", VStr "id");
              ("schema", VObj [("type", VStr "string")]);
              ("required", VBool true)], emptyRefs)
  /\ prop "name" [("in", VStr "path"); ("name", VStr "id");
                  ("schema", VObj [("type", VStr "string")]);
                  ("required", VBool true)] = VStr "id".
Proof.
  split; [reflexivity|].
  destruct (proj2 (parameter_name_error_iff_name_falsy Zod.methods idString path
                     false None emptyRefs) _ _ eq_refl) as [H | H].
  - discriminate H.
  - exact H.
Defined.

Lemma nested_unions_and_intersections_flatten_witness :
  toOpenAPISchema (ZodUnion None [ZodUnion None [zString; zNumber]; zBoolean])
    true false false emptyRefs
  = (Returns [("anyOf", VArr [VObj [("type", VStr "string")];
                              VObj [("type", VStr "number")];
                              VObj [("type", VStr "boolean")]])], emptyRefs)
  /\ toOpenAPISchema
       (ZodIntersection None zString (ZodIntersection None zNumber zBoolean))
       false false false emptyRefs
     = (Returns [("allOf", VArr [VObj [("type", VStr "string")];
                                 VObj [("type", VStr "number")];
                                 VObj [("type", VStr "boolean")]])], emptyRefs).
Proof.
  destruct (nested_unions_and_intersections_flatten Zod.methods
              zString zNumber zBoolean) as [_ [Hu [_ Hi]]].
  split.
  - exact (Hu eq_refl eq_refl eq_refl None None true false false emptyRefs).
  - exact (Hi eq_refl eq_refl eq_refl None None false false false emptyRefs).
Defined.

Lemma nullable_union_keeps_members_undecorated_witness :
  isZodUnion zString = false /\ isZodUnion zBoolean = false
  /\ generateSingleSchema nullableUnion false true emptyRefs
     = (Returns [("anyOf", VArr [VObj [("type", VStr "string")];
                                 VObj [("type", VStr "boolean")]])], emptyRefs).
Proof.
  split; [reflexivity|]. split; [reflexivity|].
  exact (proj2 (proj1 (proj2 (nullable_union_keeps_members_undecorated
                                Zod.methods zString zBoolean))
                  eq_refl eq_refl)
           false true emptyRefs).
Defined.

Lemma mapped_objects_have_no_undefined_field_witness :
  cleanSchema userObject = true
  /\ noUndefinedFields (VObj userFragment) = true.
Proof.
  split; [reflexivity|].
  exact (proj1 (mapped_objects_have_no_undefined_field userObject eq_refl)
           true true emptyRefs userFragment afterUser eq_refl).
Defined.

(* ================================================================= *)
(** * Further properties: unwrapping and flattening *)

Lemma unwrapOptional_not_wrapper z : isWrapper (unwrapOptional z) = false.
Proof. induction z; simpl; auto. Qed.

(** X1. [unwrapOptional] returns a node that is neither an optional nor a
    nullable wrapper, unwrapping again changes nothing, and the only inner
    nodes without a dispatch branch are those of classes the generator does
    not know. *)
Theorem unwrapOptional_reaches_the_inner_node (z : ZodSchema) :
  isWrapper (unwrapOptional z) = false
  /\ unwrapOptional (unwrapOptional z) = unwrapOptional z
  /\ (hasDispatchEntry (unwrapOptional z) = false
      <-> exists m typeName, unwrapOptional z = ZodOther m typeName)
  /\ getMetadata (unwrapOptional z) = openapi (unwrapOptional z).
Proof.
  pose proof (unwrapOptional_not_wrapper z) as Hw.
  split; [exact Hw|]. split; [|split].
  - destruct (unwrapOptional z); simpl in *; try reflexivity; discriminate.
  - split.
    + destruct (unwrapOptional z); simpl in *; try discriminate.
      intros _. eexists. eexists. reflexivity.
    + intros [m [n ->]]. reflexivity.
  - unfold getMetadata.
    destruct (unwrapOptional z); simpl in *; try discriminate;
      destruct openapi0; reflexivity.
Qed.

(** X2. [flattenUnionTypes] returns no union node and [flattenIntersectionTypes]
    no intersection node, so flattening the members again changes nothing; an
    intersection always has at least one member, while a union without options
    flattens to the empty list. *)
Theorem flattening_leaves_no_nested_node (s : ZodSchema) :
  (forall c, In c (flattenUnionTypes s) -> isZodUnion c = false)
  /\ (forall c, In c (flattenIntersectionTypes s) -> isZodIntersection c = false)
  /\ flat_map flattenUnionTypes (flattenUnionTypes s) = flattenUnionTypes s
  /\ flat_map flattenIntersectionTypes (flattenIntersectionTypes s)
     = flattenIntersectionTypes s
  /\ flattenIntersectionTypes s <> []
  /\ (forall m, flattenUnionTypes (ZodUnion m []) = []).
Proof.
  assert (HU : forall s c, In c (flattenUnionTypes s) -> isZodUnion c = false).
  { clear s. intros s. induction s as [s IH] using height_ind. intros c.
    destruct s; simpl; try (intros [<- | []]; reflexivity).
    intros Hin. apply in_flat_map in Hin. destruct Hin as [o [Ho Hc]].
    apply (IH o); [|exact Hc]. simpl. apply Nat.lt_succ_r.
    exact (height_member height o options Ho). }
  assert (HI : forall s c,
             In c (flattenIntersectionTypes s) -> isZodIntersection c = false).
  { clear s. intros s. induction s as [s IH] using height_ind. intros c.
    destruct s; simpl; try (intros [<- | []]; reflexivity).
    intros Hin. apply in_app_or in Hin. destruct Hin as [Hin | Hin].
    - apply (IH s1); [simpl; lia | exact Hin].
    - apply (IH s2); [simpl; lia | exact Hin]. }
  assert (Hfix : forall (f : ZodSchema -> list ZodSchema) l,
             (forall c, In c l -> f c = [c]) -> flat_map f l = l).
  { intros f l. induction l as [| x l IHl]; intros H; simpl; [reflexivity|].
    rewrite (H x (or_introl eq_refl)). simpl. f_equal.
    apply IHl. intros c Hc. apply H. right. exact Hc. }
  split; [apply HU|]. split; [apply HI|]. split; [|split; [|split]].
  - apply Hfix. intros c Hc. apply flattenUnionTypes_leaf. exact (HU s c Hc).
  - apply Hfix. intros c Hc. apply flattenIntersectionTypes_leaf. exact (HI s c Hc).
  - induction s; simpl; try discriminate.
    intros H. apply app_eq_nil in H. destruct H as [H _]. exact (IHs1 H).
  - reflexivity.
Qed.

(* ================================================================= *)
(** * Further properties: metadata in the fragment *)

Lemma get_filter {A} (p : string * A -> bool) k (v : A) (o : list (string * A)) :
  Obj.get k o = Some v -> p (k, v) = true -> Obj.get k (filter p o) = Some v.
Proof.
  induction o as [| [k' v'] o IH]; simpl; [discriminate|].
  destruct (String.eqb k k') eqn:Hk.
  - apply String.eqb_eq in Hk. subst k'. intros [= ->] Hp. rewrite Hp. simpl.
    rewrite String.eqb_refl. reflexivity.
  - intros Hget Hp. destruct (p (k', v')); simpl; [rewrite Hk|]; exact (IH Hget Hp).
Qed.

Lemma get_none_not_in {A} k (o : list (string * A)) :
  ~ In k (map fst o) -> Obj.get k o = None.
Proof.
  induction o as [| [k' v'] o IH]; simpl; [reflexivity|].
  intros Hnot. destruct (String.eqb k k') eqn:Hk.
  - apply String.eqb_eq in Hk. subst k'. exfalso. apply Hnot. left. reflexivity.
  - apply IH. intros H. apply Hnot. right. exact H.
Qed.

Lemma get_in_keys {A} k (v : A) (o : list (string * A)) :
  Obj.get k o = Some v -> In k (map fst o).
Proof.
  intros H. apply get_some_in in H. apply in_map_iff. exists (k, v). tauto.
Qed.

Lemma get_assign_in {A} k (v : A) (s o : list (string * A)) :
  NoDup (map fst s) -> Obj.get k s = Some v -> Obj.get k (Obj.assign o s) = Some v.
Proof.
  unfold Obj.assign. revert o.
  induction s as [| [k' v'] s IH]; intros o Hnd; simpl; [discriminate|].
  inversion Hnd as [| x l Hnotin Hnd']; subst.
  destruct (String.eqb k k') eqn:Hk.
  - apply String.eqb_eq in Hk. subst k'. intros [= ->].
    change (Obj.get k (Obj.assign (Obj.put k v o) s) = Some v).
    rewrite get_assign_other by exact Hnotin. apply get_put_same.
  - intros Hget. apply IH; assumption.
Qed.

Lemma NoDup_keys_filter {A} (p : string * A -> bool) (o : list (string * A)) :
  NoDup (map fst o) -> NoDup (map fst (filter p o)).
Proof.
  induction o as [| [k v] o IH]; simpl; intros Hnd; [constructor|].
  inversion Hnd as [| x l Hnotin Hnd']; subst.
  destruct (p (k, v)); simpl; [|exact (IH Hnd')].
  constructor; [|exact (IH Hnd')].
  intros Hin. apply Hnotin. apply in_map_iff in Hin.
  destruct Hin as [[k2 v2] [Hk Hin]]. apply filter_In in Hin.
  apply in_map_iff. exists (k2, v2). tauto.
Qed.

Lemma buildMetadata_get (m : ZodOpenAPIMetadata) k v :
  Obj.get k m = Some v -> k <> "name" -> isNil v = false ->
  Obj.get k (buildMetadata m) = Some v.
Proof.
  intros Hget Hk Hv. unfold buildMetadata, omitBy, omit.
  apply get_filter; [|simpl; rewrite Hv; reflexivity].
  apply get_filter; [exact Hget|]. simpl.
  apply String.eqb_neq in Hk. rewrite Hk. reflexivity.
Qed.

(** [buildMetadata] keeps exactly the metadata fields other than [name]
    whose value is neither undefined nor null. *)
Lemma buildMetadata_drops_name_and_nil (m : ZodOpenAPIMetadata) (k : string)
    (v : Value) :
  In (k, v) (buildMetadata m)
  <-> In (k, v) m /\ k <> "name" /\ v <> VUndefined /\ v <> VNull.
Proof.
  unfold buildMetadata, omitBy, omit. rewrite !filter_In. simpl. split.
  - intros [[Hin Hname] Hnil]. split; [exact Hin|].
    split; [intros ->; discriminate|].
    split; intros ->; discriminate.
  - intros [Hin [Hname [Hu Hn]]]. split; [split; [exact Hin|]|].
    + apply String.eqb_neq in Hname. rewrite Hname. reflexivity.
    + destruct v; try reflexivity; congruence.
Qed.

(** X4. A metadata field wins over the field the dispatch computed: when a
    node that is not answered by a reference is mapped with its metadata (an
    object with distinct keys), a field of the resolved metadata other than
    [name], with a value that is neither undefined nor null, is in the
    returned fragment with that value (so a [type] in the metadata replaces
    the dispatched [type]). *)
Theorem metadata_fields_override_the_dispatch
    (zod : ZodMethods) (z : ZodSchema) (m : ZodOpenAPIMetadata)
    (k : string) (v : Value) (save : bool) (st st' : Refs) (r : JSObject) :
  getMetadata z = Some m ->
  NoDup (map fst m) ->
  Obj.get k m = Some v -> k <> "name" -> isNil v = false ->
  registered (metaName (Some m)) (schemaRefs st) = false ->
  generateSingleSchema z save true st = (Returns r, st') ->
  Obj.get k r = Some v.
Proof.
  intros Hm Hnd Hget Hk Hv Hreg.
  rewrite generateSingleSchema_eq, generateSingleSchemaWith_run. cbv zeta.
  rewrite Hm, Hreg.
  destruct (toOpenAPISchema _ _ _ _ st) as [[base | e] st1]; [|discriminate].
  intros [= <- _]. unfold mergedFragment, omitBy.
  apply get_filter; [|simpl; destruct v; try reflexivity; discriminate].
  unfold Obj.spread. apply get_assign_in.
  - unfold buildMetadata, omitBy, omit. apply NoDup_keys_filter.
    apply NoDup_keys_filter. exact Hnd.
  - apply buildMetadata_get; assumption.
Qed.

Lemma metadata_fields_override_the_dispatch_witness :
  generateSingleSchema (zod := Zod.methods) MoreExamples.described false true
    emptyRefs
  = (Returns MoreExamples.describedFragment, emptyRefs)
  /\ Obj.get "type" MoreExamples.describedFragment = Some (VStr "integer").
Proof.
  split; [reflexivity|].
  apply (metadata_fields_override_the_dispatch Zod.methods MoreExamples.described
           [("name", VStr "Login"); ("description", VStr "login");
            ("type", VStr "integer")]
           "type" (VStr "integer") false emptyRefs emptyRefs
           MoreExamples.describedFragment eq_refl).
  - repeat constructor; simpl; intuition discriminate.
  - reflexivity.
  - discriminate.
  - reflexivity.
  - reflexivity.
  - reflexivity.
Defined.

(* ================================================================= *)
(** * Further properties: registering and looking up *)

(** X5. Registering then referring. Let the resolved name [N] of a node be
    non-empty. When reading [N] in the schema registry finds something, an
    entry of its own or a property every object inherits, the call returns
    the object whose only property is [$ref] with the text
    [#/components/schemas/] followed by [N] and stores nothing. When it finds
    nothing and the call with [saveIfNew = true] returns, exactly the fragment
    it returns is stored under [N], and from then on a call on any node named
    [N] returns that reference and changes nothing. *)
Theorem saved_schema_is_what_was_returned
    (zod : ZodMethods) (z : ZodSchema) (N : string) (wm : bool)
    (st : Refs) :
  metaName (getMetadata z) = Some N ->
  truthyString N = true ->
  (answers N (schemaRefs st) = true ->
   forall save,
     generateSingleSchema z save wm st
     = (Returns [("$ref", VStr ("#/components/schemas/" ++ N))], st))
  /\ (answers N (schemaRefs st) = false ->
      forall r st',
        generateSingleSchema z true wm st = (Returns r, st') ->
        Obj.get N (schemaRefs st') = Some r
        /\ (forall z' save' wm',
              metaName (getMetadata z') = Some N ->
              generateSingleSchema z' save' wm' st'
              = (Returns [("$ref", VStr ("#/components/schemas/" ++ N))], st'))).
Proof.
  intros Hname Htruthy. split.
  - intros Hans save.
    rewrite generateSingleSchema_eq, generateSingleSchemaWith_run. cbv zeta.
    rewrite Hname. simpl. rewrite Htruthy, Hans. reflexivity.
  - intros Hfresh r st'.
    rewrite generateSingleSchema_eq, generateSingleSchemaWith_run. cbv zeta.
    rewrite Hname. simpl. rewrite Htruthy, Hfresh. simpl.
    destruct (toOpenAPISchema _ _ _ _ st) as [[base | e] st1]; [|discriminate].
    intros [= <- <-].
    assert (Hget : Obj.get N (schemaRefs (storeSchema N
               (mergedFragment base (getMetadata z) wm) st1))
             = Some (mergedFragment base (getMetadata z) wm))
      by (simpl; apply get_put_same).
    split; [exact Hget|].
    intros z' save' wm' Hname'.
    rewrite generateSingleSchema_eq, generateSingleSchemaWith_run. cbv zeta.
    rewrite Hname'. unfold registered, answers, Obj.has.
    rewrite Htruthy, Hget. reflexivity.
Qed.

Lemma saved_schema_is_what_was_returned_witness :
  Obj.get "User" (schemaRefs afterUser) = Some userFragment
  /\ generateSingleSchema (zod := Zod.methods) userString false false afterUser
     = (Returns [("$ref", VStr "#/components/schemas/User")], afterUser).
Proof.
  destruct (proj2 (saved_schema_is_what_was_returned Zod.methods userObject "User"
                     true emptyRefs eq_refl eq_refl)
              eq_refl userFragment afterUser eq_refl)
    as [Hget Href].
  split; [exact Hget | exact (Href userString false false eq_refl)].
Defined.

(** X6. The parameter registry works the same way. Let the resolved parameter
    name [N] be non-empty. When reading [N] in the parameter registry finds
    something, an entry of its own or a property every object inherits, the
    call returns the object whose only property is [$ref] with the text
    [#/components/parameters/] followed by [N] and changes nothing, whatever
    the schema is. When it finds nothing and the call with [saveIfNew = true]
    returns, the returned parameter object is stored under [N], the schema
    registry is untouched, and the next call for [N] returns that
    reference. *)
Theorem parameter_registry_round_trip
    (zod : ZodMethods) (z : ZodSchema) (loc : ParameterLocation)
    (ext : option string) (N : string) (st : Refs) :
  parameterName z ext = Some N ->
  truthyString N = true ->
  (answers N (paramRefs st) = true ->
   forall save,
     generateSingleParameter z loc save ext st
     = (Returns [("$ref", VStr ("#/components/parameters/" ++ N))], st))
  /\ (answers N (paramRefs st) = false ->
      forall r st',
        generateSingleParameter z loc true ext st = (Returns r, st') ->
        Obj.get N (paramRefs st') = Some r
        /\ schemaRefs st' = schemaRefs st
        /\ forall z' loc' save' ext',
             parameterName z' ext' = Some N ->
             generateSingleParameter z' loc' save' ext' st'
             = (Returns [("$ref", VStr ("#/components/parameters/" ++ N))], st')).
Proof.
  intros Hname Htruthy. split.
  - intros Hhas save. rewrite generateSingleParameter_run. cbv zeta.
    rewrite Hname. simpl. rewrite Htruthy, Hhas. reflexivity.
  - intros Hfresh r st'. rewrite generateSingleParameter_run. cbv zeta.
    rewrite Hname. simpl. rewrite Htruthy, Hfresh. simpl.
    pose proof (generateSingleSchema_frame z false st) as Hframe.
    destruct (generateSingleSchema z false false st) as [[schema | e] st1];
      [|discriminate].
    simpl in Hframe. subst st1. intros [= <- <-].
    assert (Hget : Obj.get N (paramRefs (storeParam N
               (parameterObject z loc N schema) st))
             = Some (parameterObject z loc N schema))
      by (simpl; apply get_put_same).
    split; [exact Hget|]. split; [reflexivity|].
    intros z' loc' save' ext' Hname'.
    rewrite generateSingleParameter_run. cbv zeta.
    rewrite Hname'. unfold answers, Obj.has. simpl nameText. rewrite Hget.
    simpl. rewrite Htruthy. reflexivity.
Qed.

Lemma parameter_registry_round_trip_witness :
  exists r st',
    generateSingleParameter (zod := Zod.methods) idString path true None emptyRefs
    = (Returns r, st')
    /\ Obj.get "id" (paramRefs st') = Some r
    /\ generateSingleParameter (zod := Zod.methods) zBoolean query false
         (Some "id") st'
       = (Returns [("$ref", VStr "#/components/parameters/id")], st').
Proof.
  eexists. eexists. split; [vm_compute; reflexivity|].
  destruct (proj2 (parameter_registry_round_trip Zod.methods idString path None
                     "id" emptyRefs eq_refl eq_refl) eq_refl _ _ eq_refl)
    as [Hget [_ Href]].
  split; [exact Hget | exact (Href zBoolean query false (Some "id") eq_refl)].
Defined.

(* ================================================================= *)
(** * Further properties: routes *)

Section RouteFacts.
Context {zod : ZodMethods}.

Lemma getParamsByLocation_frame paramsSchema loc st :
  snd (getParamsByLocation paramsSchema loc st) = st.
Proof.
  symmetry.
  assert (H : hoare (eq st) (getParamsByLocation paramsSchema loc)
                (post (eq st) anything anything)).
  { destruct paramsSchema as [[] |]; simpl; try (apply hoare_ret; exact Logic.I).
    eapply hoare_bind.
    - apply hoare_mapM with (G := anything). intros x _ st1 <-.
      split; [symmetry; apply generateSingleParameter_frame|].
      destruct (fst _); exact Logic.I.
    - intros; apply hoare_ret; exact Logic.I. }
  exact (proj1 (H st eq_refl)).
Qed.

Lemma getParameters_frame request st : snd (getParameters request st) = st.
Proof.
  symmetry.
  assert (Hloc : forall p loc,
             hoare (eq st) (getParamsByLocation p loc)
               (post (eq st) anything anything)).
  { intros p loc st1 <-. split; [symmetry; apply getParamsByLocation_frame|].
    destruct (fst _); exact Logic.I. }
  assert (H : hoare (eq st) (getParameters request)
                (post (eq st) anything anything)).
  { destruct request as [request |]; simpl; [|apply hoare_ret; exact Logic.I].
    eapply hoare_bind; [apply Hloc|]. intros pathParams _.
    eapply hoare_bind; [apply Hloc|]. intros queryParams _.
    eapply hoare_bind with (G1 := anything).
    - destruct (Route.headers request); [|apply hoare_ret; exact Logic.I].
      eapply hoare_bind.
      + apply hoare_mapM with (G := anything). intros x _ st1 <-.
        split; [symmetry; apply generateSingleParameter_frame|].
        destruct (fst _); exact Logic.I.
      + intros; apply hoare_ret; exact Logic.I.
    - intros; apply hoare_ret; exact Logic.I. }
  exact (proj1 (H st eq_refl)).
Qed.

Lemma getBodyDoc_frame bodySchema st : snd (getBodyDoc bodySchema st) = st.
Proof.
  destruct bodySchema as [b |]; simpl; [|reflexivity].
  unfold bind. pose proof (generateSingleSchema_frame b true st) as H.
  destruct (generateSingleSchema b false true st) as [[schema | e] st1]; exact H.
Qed.

(** One call of [generateSingleRoute], step by step. *)
Lemma generateSingleRoute_run route st :
  generateSingleRoute route st =
  match fst (generateSingleSchema (Route.response route) false true st) with
  | Throws e => (Throws e, st)
  | Returns responseSchema =>
      match fst (getParameters (Route.request route) st) with
      | Throws e => (Throws e, st)
      | Returns parameters =>
          match fst (getBodyDoc (requestBodyOf (Route.request route)) st) with
          | Throws e => (Throws e, st)
          | Returns requestBody =>
              let routeDoc :=
                routeDocOf route responseSchema parameters requestBody in
              (Returns routeDoc,
               storePath (Route.path route)
                 (Obj.spread (readPath (Route.path route) st) routeDoc)
                 st)
          end
      end
  end.
Proof.
  unfold generateSingleRoute. unfold bind at 1.
  pose proof (generateSingleSchema_frame (Route.response route) true st) as H1.
  destruct (generateSingleSchema (Route.response route) false true st)
    as [[rs | e] s1]; simpl in H1; subst s1; [|reflexivity].
  unfold bind at 1.
  pose proof (getParameters_frame (Route.request route) st) as H2.
  destruct (getParameters (Route.request route) st) as [[ps | e] s2];
    simpl in H2; subst s2; [|reflexivity].
  unfold bind at 1.
  pose proof (getBodyDoc_frame (requestBodyOf (Route.request route)) st) as H3.
  destruct (getBodyDoc (requestBodyOf (Route.request route)) st) as [[b | e] s3];
    simpl in H3; subst s3; reflexivity.
Qed.

Lemma get_of_member {A} k (v : A) (o : list (string * A)) :
  In (k, v) o -> exists w, Obj.get k o = Some w.
Proof.
  induction o as [| [k2 v2] o IH]; intros Hin; [destruct Hin|].
  simpl. destruct (String.eqb k k2) eqn:Hk; [eexists; reflexivity|].
  destruct Hin as [[= -> ->] | Hin]; [|exact (IH Hin)].
  rewrite String.eqb_refl in Hk. discriminate.
Qed.

Lemma get_copy {A} k (o : list (string * A)) :
  NoDup (map fst o) -> Obj.get k (Obj.assign [] o) = Obj.get k o.
Proof.
  intros Hnd. destruct (Obj.get k o) as [v |] eqn:Hget.
  - apply get_assign_in; assumption.
  - rewrite get_assign_other; [reflexivity|].
    intros Hin. apply in_map_iff in Hin. destruct Hin as [[k' v] [Hk Hin]].
    simpl in Hk. subst k'. destruct (get_of_member k v o Hin) as [w Hw].
    congruence.
Qed.

Lemma readPath_own p st item :
  p <> "__proto__" -> Obj.get p (pathRefs st) = Some item -> readPath p st = item.
Proof.
  intros Hp Hget. unfold readPath. apply String.eqb_neq in Hp.
  rewrite Hp, Hget. reflexivity.
Qed.

Lemma readPath_storePath p r st : readPath p (storePath p r st) = r.
Proof.
  unfold readPath, storePath. simpl.
  destruct (String.eqb p "__proto__"); [reflexivity|].
  rewrite get_put_same. reflexivity.
Qed.

(** X7. A route only writes the path registry, and only when it succeeds.
    [generateSingleRoute] never changes the schema and parameter registries;
    when it throws, no registry has changed; when it returns the path item
    [{method: operation}], reading the route's path in the path registry
    gives an item that holds that operation under the method and keeps the
    other methods that reading the path gave before (an item with distinct
    keys), and the entries of the other paths are as before. For every path
    but [__proto__] the item is the registry's own entry for the path; the
    path [__proto__] gets no entry, the item becomes the prototype of the
    registry. *)
Theorem route_is_merged_into_its_path (route : Route.Config) (st : Refs) :
  schemaRefs (snd (generateSingleRoute route st)) = schemaRefs st
  /\ paramRefs (snd (generateSingleRoute route st)) = paramRefs st
  /\ (forall e, fst (generateSingleRoute route st) = Throws e ->
                snd (generateSingleRoute route st) = st)
  /\ (forall doc st',
        generateSingleRoute route st = (Returns doc, st') ->
        exists op item,
          doc = [(Route.method route, VObj op)]
          /\ readPath (Route.path route) st' = item
          /\ Obj.get (Route.method route) item = Some (VObj op)
          /\ (forall p, p <> Route.path route ->
                        Obj.get p (pathRefs st') = Obj.get p (pathRefs st))
          /\ (forall m,
                NoDup (map fst (readPath (Route.path route) st)) ->
                m <> Route.method route ->
                Obj.get m item = Obj.get m (readPath (Route.path route) st))
          /\ (Route.path route <> "__proto__" ->
              Obj.get (Route.path route) (pathRefs st') = Some item
              /\ pathProto st' = pathProto st
              /\ forall old m,
                   Obj.get (Route.path route) (pathRefs st) = Some old ->
                   NoDup (map fst old) -> m <> Route.method route ->
                   Obj.get m item = Obj.get m old)
          /\ (Route.path route = "__proto__" ->
              pathRefs st' = pathRefs st /\ pathProto st' = Some item)).
Proof.
  rewrite generateSingleRoute_run.
  destruct (fst (generateSingleSchema (Route.response route) false true st))
    as [rs | e]; [|repeat split; try reflexivity; discriminate].
  destruct (fst (getParameters (Route.request route) st)) as [ps | e];
    [|repeat split; try reflexivity; discriminate].
  destruct (fst (getBodyDoc (requestBodyOf (Route.request route)) st)) as [b | e];
    [|repeat split; try reflexivity; discriminate].
  cbv zeta. split; [reflexivity|]. split; [reflexivity|]. split; [discriminate|].
  intros doc st' [= <- <-]. eexists. eexists. split; [reflexivity|].
  split; [apply readPath_storePath|].
  assert (Hkeep : forall m old, NoDup (map fst old) -> m <> Route.method route ->
            Obj.get m (Obj.spread old (routeDocOf route rs ps b)) = Obj.get m old).
  { intros m old Hnd Hm.
    unfold Obj.spread, routeDocOf, Obj.assign at 1. simpl fold_left.
    rewrite get_put_other by exact Hm. apply get_copy. exact Hnd. }
  split; [|split; [|split; [|split]]].
  - unfold Obj.spread, routeDocOf, Obj.assign at 1. simpl fold_left.
    apply get_put_same.
  - intros p Hp. simpl.
    destruct (String.eqb (Route.path route) "__proto__"); [reflexivity|].
    apply get_put_other. exact Hp.
  - intros m Hnd Hm. apply Hkeep; assumption.
  - intros Hpath. apply String.eqb_neq in Hpath. simpl. rewrite Hpath.
    split; [apply get_put_same|]. split; [reflexivity|].
    intros old m Hold Hnd Hm. unfold readPath. rewrite Hpath, Hold.
    apply Hkeep; assumption.
  - intros Hpath. simpl. rewrite Hpath. simpl. split; reflexivity.
Qed.

End RouteFacts.

Lemma route_is_merged_into_its_path_witness :
  exists op item,
    Obj.get "/ping"
      (pathRefs (snd (generateSingleRoute (zod := Zod.methods)
                        MoreExamples.postPing MoreExamples.afterPing)))
    = Some item
    /\ Obj.get "post" item = Some (VObj op)
    /\ Obj.get "get" item = Obj.get "get" MoreExamples.pingItem.
Proof.
  destruct (proj2 (proj2 (proj2 (route_is_merged_into_its_path
                                   (zod := Zod.methods)
                                   MoreExamples.postPing MoreExamples.afterPing)))
              _ _ eq_refl)
    as [op [item [_ [_ [Hpost [_ [_ [Hown _]]]]]]]].
  assert (Hpath : Route.path MoreExamples.postPing <> "__proto__") by discriminate.
  destruct (Hown Hpath) as [Hitem [_ Hkeep]].
  exists op, item. split; [exact Hitem|]. split; [exact Hpost|].
  apply (Hkeep MoreExamples.pingItem "get" eq_refl).
  - repeat constructor. simpl. tauto.
  - discriminate.
Defined.

(* ================================================================= *)
(** * Further properties: which errors, and when none *)

Section Errors.
Context {zod : ZodMethods}.

Lemma toOpenAPISchemaWith_errors (I : Refs -> Prop) (E : Error -> Prop)
    (g : ZodSchema -> bool -> Gen JSObject) (z : ZodSchema)
    (isN hasT save : bool) :
  (hasDispatchEntry z = false -> E (UnknownZodType z)) ->
  (forall c, In c (callees z) -> hoare I (g c save) (post I E anything)) ->
  hoare I (toOpenAPISchemaWith g z isN hasT save) (post I E anything).
Proof.
  intros HE Hg. destruct z; simpl in *;
    try (apply hoare_ret; exact Logic.I).
  - eapply hoare_bind; [apply hoare_mapValues; exact Hg|].
    intros; apply hoare_ret; exact Logic.I.
  - eapply hoare_bind; [apply Hg; left; reflexivity|].
    intros; apply hoare_ret; exact Logic.I.
  - eapply hoare_bind; [apply hoare_mapM; exact Hg|].
    intros; apply hoare_ret; exact Logic.I.
  - eapply hoare_bind; [apply hoare_mapM; exact Hg|].
    intros; apply hoare_ret; exact Logic.I.
  - destruct hasT; [apply hoare_ret; exact Logic.I | apply hoare_throw; auto].
  - destruct hasT; [apply hoare_ret; exact Logic.I | apply hoare_throw; auto].
  - destruct hasT; [apply hoare_ret; exact Logic.I | apply hoare_throw; auto].
Qed.

Lemma generateSingleSchemaFuel_errors (save : bool) :
  forall n z wm,
    hoare anything (generateSingleSchemaFuel n z save wm)
      (post anything unknownKindError anything).
Proof.
  induction n as [| n IH]; intros z wm; simpl.
  - apply hoare_ret. exact Logic.I.
  - apply generateSingleSchemaWith_inv.
    + intros _ st n0 _ _ _ st1 r _. exact Logic.I.
    + intros isN hasT. apply toOpenAPISchemaWith_errors.
      * intros Hk. eexists. split; [reflexivity | exact Hk].
      * intros c _. apply IH.
Qed.

Lemma supported_unwrapOptional z :
  supported z = true -> supported (unwrapOptional z) = true.
Proof. induction z; simpl; auto. Qed.

Lemma supported_hasDispatchEntry z :
  supported z = true -> isWrapper z = false -> hasDispatchEntry z = true.
Proof. destruct z; simpl; intros; try reflexivity; discriminate. Qed.

Lemma supported_flattenUnionTypes s c :
  supported s = true -> In c (flattenUnionTypes s) -> supported c = true.
Proof.
  revert c. induction s as [s IH] using height_ind. intros c Hs.
  destruct s; simpl; try (intros [<- | []]; exact Hs).
  intros Hin. apply in_flat_map in Hin. destruct Hin as [o [Ho Hc]].
  simpl in Hs.
  apply (IH o); [|exact (proj1 (forallb_forall _ _) Hs o Ho) | exact Hc].
  simpl. apply Nat.lt_succ_r. exact (height_member height o options Ho).
Qed.

Lemma supported_flattenIntersectionTypes s c :
  supported s = true -> In c (flattenIntersectionTypes s) -> supported c = true.
Proof.
  revert c. induction s as [s IH] using height_ind. intros c Hs.
  destruct s; simpl; try (intros [<- | []]; exact Hs).
  intros Hin. simpl in Hs. apply andb_prop in Hs. destruct Hs as [H1 H2].
  apply in_app_or in Hin. destruct Hin as [Hin | Hin].
  - apply (IH s1); [simpl; lia | exact H1 | exact Hin].
  - apply (IH s2); [simpl; lia | exact H2 | exact Hin].
Qed.

Lemma supported_callees z c :
  supported z = true -> In c (callees z) -> supported c = true.
Proof.
  intros Hz. destruct z; simpl; try tauto.
  - intros Hin. apply in_map_iff in Hin. destruct Hin as [p [<- Hin]].
    simpl in Hz. exact (proj1 (forallb_forall _ _) Hz p Hin).
  - intros [<- | []]. exact Hz.
  - apply (supported_flattenUnionTypes _ c Hz).
  - apply (supported_flattenIntersectionTypes _ c Hz).
Qed.

Lemma generateSingleSchemaFuel_returns (save : bool) :
  forall n z wm,
    supported z = true ->
    hoare anything (generateSingleSchemaFuel n z save wm)
      (post anything (fun _ => False) anything).
Proof.
  induction n as [| n IH]; intros z wm Hz; simpl.
  - apply hoare_ret. exact Logic.I.
  - pose proof (supported_unwrapOptional z Hz) as Hinner.
    apply generateSingleSchemaWith_inv.
    + intros _ st n0 _ _ _ st1 r _. exact Logic.I.
    + intros isN hasT. apply toOpenAPISchemaWith_errors.
      * intros Hk.
        rewrite (supported_hasDispatchEntry _ Hinner (unwrapOptional_not_wrapper z))
          in Hk. discriminate.
      * intros c Hc. apply IH. exact (supported_callees _ c Hinner Hc).
Qed.

(** The methods above the mapper throw what the mapper throws, or the
    missing-name error. *)
Section Above.
Variable E : Error -> Prop.
Hypothesis E_schema :
  forall z save wm,
    hoare anything (generateSingleSchema z save wm) (post anything E anything).
Hypothesis E_parameter : E UnknownParameterName.

Lemma generateSingleParameter_errors z loc save ext :
  hoare anything (generateSingleParameter z loc save ext)
    (post anything E anything).
Proof.
  intros st _. rewrite generateSingleParameter_run. cbv zeta.
  destruct (negb _); [split; [exact Logic.I | exact E_parameter]|].
  destruct (answers _ _); [split; exact Logic.I|].
  pose proof (E_schema z false false st Logic.I) as [_ H].
  destruct (generateSingleSchema z false false st) as [[schema | e] st1];
    split; try exact Logic.I; exact H.
Qed.

Lemma getParamsByLocation_errors paramsSchema loc :
  hoare anything (getParamsByLocation paramsSchema loc)
    (post anything E anything).
Proof.
  destruct paramsSchema as [[] |]; simpl; try (apply hoare_ret; exact Logic.I).
  eapply hoare_bind.
  - apply hoare_mapM with (G := anything). intros x _.
    apply generateSingleParameter_errors.
  - intros; apply hoare_ret; exact Logic.I.
Qed.

Lemma getParameters_errors request :
  hoare anything (getParameters request) (post anything E anything).
Proof.
  destruct request as [request |]; simpl; [|apply hoare_ret; exact Logic.I].
  eapply hoare_bind; [apply getParamsByLocation_errors|]. intros pathParams _.
  eapply hoare_bind; [apply getParamsByLocation_errors|]. intros queryParams _.
  eapply hoare_bind with (G1 := anything).
  - destruct (Route.headers request); [|apply hoare_ret; exact Logic.I].
    eapply hoare_bind.
    + apply hoare_mapM with (G := anything). intros x _.
      apply generateSingleParameter_errors.
    + intros; apply hoare_ret; exact Logic.I.
  - intros; apply hoare_ret; exact Logic.I.
Qed.

Lemma generateSingle_errors definition :
  hoare anything (generateSingle definition) (post anything E anything).
Proof.
  destruct definition; simpl.
  - apply E_schema.
  - apply generateSingleParameter_errors.
  - unfold generateSingleRoute.
    eapply hoare_bind; [apply E_schema|]. intros responseSchema _.
    eapply hoare_bind; [apply getParameters_errors|]. intros parameters _.
    eapply hoare_bind with (G1 := anything).
    + destruct (requestBodyOf (Route.request route)); simpl;
        [|apply hoare_ret; exact Logic.I].
      eapply hoare_bind; [apply E_schema|].
      intros; apply hoare_ret; exact Logic.I.
    + intros requestBody _ st _. split; exact Logic.I.
Qed.

End Above.

(** X8. The only error the schema mapper throws is the unknown-type error,
    and the node it names is of a class without dispatch branch. Processing a
    definition throws nothing but that error or the missing-parameter-name
    error, and so do [generateComponents] and, given a configuration,
    [generateDocs]. *)
Theorem mapping_throws_only_its_two_errors :
  (forall z save wm st e,
      fst (generateSingleSchema z save wm st) = Throws e ->
      exists s, e = UnknownZodType s /\ hasDispatchEntry s = false)
  /\ (forall definition st e,
        fst (generateSingle definition st) = Throws e -> mappingError e)
  /\ (forall self st e,
        fst (generateComponents self st) = Throws e -> mappingError e)
  /\ (forall defs cfg st e,
        fst (generateDocs (mkGenerator defs (Some cfg)) st) = Throws e ->
        mappingError e).
Proof.
  assert (HS : forall z save wm,
             hoare anything (generateSingleSchema z save wm)
               (post anything unknownKindError anything))
    by (intros; apply generateSingleSchemaFuel_errors).
  assert (HS' : forall z save wm,
             hoare anything (generateSingleSchema z save wm)
               (post anything mappingError anything)).
  { intros z save wm st Hst. destruct (HS z save wm st Hst) as [_ H].
    split; [exact Logic.I|].
    destruct (fst (generateSingleSchema z save wm st)); [exact Logic.I|].
    right. exact H. }
  assert (HD : forall definition,
             hoare anything (generateSingle definition)
               (post anything mappingError anything))
    by (apply generateSingle_errors; [exact HS' | left; reflexivity]).
  assert (HF : forall defs st e,
             fst (forEach generateSingle defs st) = Throws e -> mappingError e).
  { intros defs st e He.
    pose proof (hoare_forEach anything mappingError anything generateSingle defs
                  (fun d _ => HD d) st Logic.I) as [_ H].
    rewrite He in H. exact H. }
  split; [|split; [|split]].
  - intros z save wm st e He. destruct (HS z save wm st Logic.I) as [_ H].
    rewrite He in H. exact H.
  - intros d st e He. destruct (HD d st Logic.I) as [_ H].
    rewrite He in H. exact H.
  - intros self st e. unfold generateComponents, bind. intros He.
    apply (HF (definitions self) st).
    destruct (forEach generateSingle (definitions self) st) as [[[] | e'] st'];
      simpl in *; [discriminate | congruence].
  - intros defs cfg st e. unfold generateDocs, bind. simpl. intros He.
    apply (HF defs st).
    destruct (forEach generateSingle defs st) as [[[] | e'] st'];
      simpl in *; [discriminate | congruence].
Qed.

(** X9. A schema tree all of whose nodes are of classes the dispatch knows
    (wrappers aside) is always mapped: [generateSingleSchema] returns a
    fragment, whatever the registries and the flags are; and as a parameter
    it is rejected only for a missing name. *)
Theorem supported_schemas_are_always_mapped (z : ZodSchema) :
  supported z = true ->
  (forall save wm st,
      exists r st', generateSingleSchema z save wm st = (Returns r, st'))
  /\ (forall loc save ext st,
        truthyName (parameterName z ext) = true ->
        exists r st',
          generateSingleParameter z loc save ext st = (Returns r, st')).
Proof.
  intros Hz.
  assert (Hs : forall save wm st,
      exists r st', generateSingleSchema z save wm st = (Returns r, st')).
  { intros save wm st.
    pose proof (generateSingleSchemaFuel_returns save (S (height z)) z wm Hz
                  st Logic.I) as [_ H].
    unfold generateSingleSchema.
    destruct (generateSingleSchemaFuel (S (height z)) z save wm st)
      as [[r | e] st']; [|destruct H].
    exists r, st'. reflexivity. }
  split; [exact Hs|].
  intros loc save ext st Hname. rewrite generateSingleParameter_run. cbv zeta.
  rewrite Hname. simpl. destruct (answers _ _); [eexists; eexists; reflexivity|].
  destruct (Hs false false st) as [r [st' ->]]. eexists. eexists. reflexivity.
Qed.

End Errors.

(* ================================================================= *)
(** * C6: kinds without a dispatch entry *)

Section Aborts.
Context {zod : ZodMethods}.

Lemma abortsWith_errors {A} (E : Error -> Prop) (m : Gen A) :
  abortsWith anything m -> hoare anything m (post anything E anything) ->
  abortsWith E m.
Proof.
  intros Ha He st. destruct (Ha st) as [e [H _]]. exists e. split; [exact H|].
  destruct (He st Logic.I) as [_ HE]. rewrite H in HE. exact HE.
Qed.

Lemma aborts_bind_left {A B} (m : Gen A) (k : A -> Gen B) :
  abortsWith anything m -> abortsWith anything (bind m k).
Proof.
  intros Hm st. destruct (Hm st) as [e [H _]]. unfold bind.
  destruct (m st) as [[a | e'] st1]; simpl in H; [discriminate|].
  exists e'. split; [reflexivity | exact Logic.I].
Qed.

Lemma aborts_bind {A B} (m : Gen A) (k : A -> Gen B) :
  (forall a, abortsWith anything (k a)) -> abortsWith anything (bind m k).
Proof.
  intros Hk st. unfold bind. destruct (m st) as [[a | e] st1]; [apply Hk|].
  exists e. split; [reflexivity | exact Logic.I].
Qed.

Lemma aborts_mapM {A B} (f : A -> Gen B) (xs : list A) (x : A) :
  In x xs -> abortsWith anything (f x) -> abortsWith anything (mapM f xs).
Proof.
  intros Hin Hx. induction xs as [| y rest IH]; [destruct Hin|]. simpl.
  destruct Hin as [-> | Hin]; [apply aborts_bind_left; exact Hx|].
  apply aborts_bind. intros b. apply aborts_bind_left. exact (IH Hin).
Qed.

Lemma aborts_mapValues {A B} (f : A -> Gen B) (o : list (string * A)) (x : A) :
  In x (map snd o) -> abortsWith anything (f x) ->
  abortsWith anything (mapValues f o).
Proof.
  intros Hin Hx. induction o as [| [k y] rest IH]; [destruct Hin|]. simpl in *.
  destruct Hin as [-> | Hin]; [apply aborts_bind_left; exact Hx|].
  apply aborts_bind. intros b. apply aborts_bind_left. exact (IH Hin).
Qed.

Lemma aborts_forEach {A B} (f : A -> Gen B) (xs : list A) (x : A) :
  In x xs -> abortsWith anything (f x) -> abortsWith anything (forEach f xs).
Proof.
  intros Hin Hx. induction xs as [| y rest IH]; [destruct Hin|]. simpl.
  destruct Hin as [-> | Hin]; [apply aborts_bind_left; exact Hx|].
  apply aborts_bind. intros b. exact (IH Hin).
Qed.

(** A traversal whose callback leaves the registries alone runs every call
    from the same registries. *)
Lemma mapM_throws_in_place {A B} (f : A -> Gen B) (xs : list A) (x : A) st :
  (forall y s, snd (f y s) = s) -> In x xs ->
  (exists e, fst (f x st) = Throws e) ->
  exists e, fst (mapM f xs st) = Throws e.
Proof.
  intros Hframe Hin Hx. induction xs as [| y rest IH]; [destruct Hin|].
  simpl. unfold bind. pose proof (Hframe y st) as Hy.
  destruct (f y st) as [[b | e] s1] eqn:Hrun; simpl in Hy; subst s1;
    [|eexists; reflexivity].
  destruct Hin as [-> | Hin].
  - destruct Hx as [e He]. rewrite Hrun in He. discriminate.
  - destruct (IH Hin) as [e He].
    destruct (mapM f rest st) as [[ys | e'] s2]; simpl in He; [discriminate|].
    eexists. reflexivity.
Qed.

Lemma aborts_dispatch (g : ZodSchema -> bool -> Gen JSObject)
    (z c : ZodSchema) (isN hasT save : bool) :
  In c (callees z) -> abortsWith anything (g c save) ->
  abortsWith anything (toOpenAPISchemaWith g z isN hasT save).
Proof.
  intros Hin Hc. destruct z; simpl in *; try (destruct Hin; fail).
  - apply aborts_bind_left.
    exact (aborts_mapValues (fun s => g s save) shape c Hin Hc).
  - destruct Hin as [<- | []]. apply aborts_bind_left. exact Hc.
  - apply aborts_bind_left.
    exact (aborts_mapM (fun s => g s save) _ c Hin Hc).
  - apply aborts_bind_left.
    exact (aborts_mapM (fun s => g s save) _ c Hin Hc).
Qed.

Lemma anonymous_not_registered name registry :
  truthyName name = false -> registered name registry = false.
Proof. destruct name as [n |]; simpl; [intros ->|]; reflexivity. Qed.

Lemma aborts_anonymous (w : ZodSchema) (save wm : bool) :
  truthyName (metaName (getMetadata w)) = false ->
  (forall isN hasT,
      abortsWith anything (toOpenAPISchema (unwrapOptional w) isN hasT save)) ->
  abortsWith anything (generateSingleSchema w save wm).
Proof.
  intros Hname Hd st.
  rewrite generateSingleSchema_eq, generateSingleSchemaWith_run. cbv zeta.
  rewrite (anonymous_not_registered _ _ Hname).
  destruct (Hd (isNullable w) (truthy (metaProp "type" (getMetadata w))) st)
    as [e [He _]].
  destruct (toOpenAPISchema _ _ _ _ st) as [[base | e'] st1]; simpl in He;
    [discriminate|].
  exists e'. split; [reflexivity | exact Logic.I].
Qed.

Lemma exposes_aborts (u w : ZodSchema) :
  exposes u w ->
  (forall save wm, abortsWith anything (generateSingleSchema u save wm)) ->
  forall save wm, abortsWith anything (generateSingleSchema w save wm).
Proof.
  intros Hex Hu. induction Hex as [| w c Hname Hin _ IH]; [exact Hu|].
  intros save wm. apply aborts_anonymous; [exact Hname|].
  intros isN hasT. unfold toOpenAPISchema.
  apply (aborts_dispatch _ _ c); [exact Hin | apply IH].
Qed.

Lemma exposes_anonymous (u w : ZodSchema) :
  exposes u w ->
  truthyName (metaName (getMetadata u)) = false ->
  truthyName (metaName (getMetadata w)) = false.
Proof. intros Hex Hu. destruct Hex; assumption. Qed.

Lemma generateSingleSchema_unknownKind z save wm :
  hoare anything (generateSingleSchema z save wm)
    (post anything unknownKindError anything).
Proof. apply generateSingleSchemaFuel_errors. Qed.

Lemma generateSingleSchema_mappingError z save wm :
  hoare anything (generateSingleSchema z save wm)
    (post anything mappingError anything).
Proof.
  intros st Hst. destruct (generateSingleSchema_unknownKind z save wm st Hst) as [_ H].
  split; [exact Logic.I|].
  destruct (fst (generateSingleSchema z save wm st)); [exact Logic.I|].
  right. exact H.
Qed.

Lemma generateSingle_mappingError definition :
  hoare anything (generateSingle definition)
    (post anything mappingError anything).
Proof.
  apply generateSingle_errors;
    [exact generateSingleSchema_mappingError | left; reflexivity].
Qed.

Lemma generateSingleParameter_mappingError z loc save ext :
  hoare anything (generateSingleParameter z loc save ext)
    (post anything mappingError anything).
Proof.
  apply generateSingleParameter_errors;
    [exact generateSingleSchema_mappingError | left; reflexivity].
Qed.

Lemma forEach_generateSingle_mappingError defs :
  hoare anything (forEach generateSingle defs)
    (post anything mappingError anything).
Proof.
  apply hoare_forEach with (G := anything). intros d _.
  apply generateSingle_mappingError.
Qed.

Lemma aborts_nameless_parameter w loc save :
  truthyName (metaName (getMetadata w)) = false ->
  abortsWith anything (generateSingleParameter w loc save None).
Proof.
  intros Hname st. rewrite generateSingleParameter_run. cbv zeta.
  unfold parameterName. rewrite Hname.
  exists UnknownParameterName. split; [reflexivity | exact Logic.I].
Qed.

Lemma aborts_presented (w : ZodSchema) (d : OpenAPIDefinitions) :
  presents w d ->
  truthyName (metaName (getMetadata w)) = false ->
  (forall save wm, abortsWith anything (generateSingleSchema w save wm)) ->
  abortsWith anything (generateSingle d).
Proof.
  intros Hd Hname Hw. destruct d as [s | loc s | route]; simpl in Hd |- *.
  - subst s. apply Hw.
  - subst s. apply aborts_nameless_parameter. exact Hname.
  - unfold generateSingleRoute. destruct Hd as [Hr | [Hb | Hh]].
    + apply aborts_bind_left. rewrite Hr. apply Hw.
    + apply aborts_bind. intros responseSchema.
      apply aborts_bind. intros parameters.
      apply aborts_bind_left. rewrite Hb. simpl.
      apply aborts_bind_left. apply Hw.
    + destruct Hh as [request [hs [Hreq [Hhs Hin]]]].
      apply aborts_bind. intros responseSchema.
      apply aborts_bind_left. rewrite Hreq. simpl.
      apply aborts_bind. intros pathParams.
      apply aborts_bind. intros queryParams.
      apply aborts_bind_left. rewrite Hhs.
      apply aborts_bind_left.
      apply (aborts_mapM _ hs w Hin).
      apply aborts_nameless_parameter. exact Hname.
Qed.

Lemma getParamsByLocation_throws md props unknownKeys loc k w st :
  In (k, w) props ->
  (exists e, fst (generateSingleParameter w loc false (Some k) st) = Throws e) ->
  exists e,
    fst (getParamsByLocation (Some (ZodObject md props unknownKeys)) loc st)
    = Throws e.
Proof.
  intros Hin Hw. simpl. unfold bind.
  destruct (mapM_throws_in_place
              (fun entry => generateSingleParameter (snd entry) loc false
                              (Some (fst entry)))
              props (k, w) st
              (fun y s => generateSingleParameter_frame _ _ _ _) Hin Hw)
    as [e He].
  destruct (mapM _ props st) as [[found | e'] s1]; simpl in He; [discriminate|].
  eexists. reflexivity.
Qed.

Lemma getParameters_throws route k w st :
  hasParameter route k w ->
  (forall loc,
      exists e, fst (generateSingleParameter w loc false (Some k) st) = Throws e) ->
  exists e, fst (getParameters (Route.request route) st) = Throws e.
Proof.
  intros [request [md [props [uk [Hreq [Hwhere Hin]]]]]] Hw.
  rewrite Hreq. simpl. unfold bind at 1.
  pose proof (getParamsByLocation_frame (Route.params request) path st) as Hframe.
  destruct Hwhere as [Hp | Hq].
  - destruct (getParamsByLocation_throws md props uk path k w st Hin (Hw path))
      as [e He].
    rewrite <- Hp in He.
    destruct (getParamsByLocation (Route.params request) path st)
      as [[found | e'] s1]; simpl in He; [discriminate|].
    eexists. reflexivity.
  - destruct (getParamsByLocation (Route.params request) path st)
      as [[found | e'] s1]; simpl in Hframe; subst; [|eexists; reflexivity].
    unfold bind at 1.
    destruct (getParamsByLocation_throws md props uk query k w st Hin (Hw query))
      as [e He].
    rewrite <- Hq in He.
    destruct (getParamsByLocation (Route.query request) query st)
      as [[found2 | e'] s2]; simpl in He; [discriminate|].
    eexists. reflexivity.
Qed.

(** C6, as the code has it. Let the inner node of [z] (after unwrapping) be of
    a kind without a dispatch entry. The dispatch returns the empty fragment
    when it is told that the metadata declares a type, and throws the
    unknown-kind error otherwise, in both cases without touching the
    registries. A mapper call on [z] whose name is answered by a reference
    returns that reference and throws nothing; any other mapper call on [z]
    returns just the metadata merge when the resolved metadata has a type,
    and throws the unknown-kind error naming the inner node otherwise, and
    then a generation that has come to a schema definition of [z] throws it
    instead of returning a document. When [z] has neither a type nor a name,
    the throw reaches whatever holds [z]: mapping any schema that exposes
    [z], at any depth, throws an unknown-kind error from whatever registries;
    such a schema is refused as a parameter unless the parameter's name is
    answered by a reference; a route throws when such a schema is its
    response, its request body, one of its headers, or one of its path or
    query parameters under a name not answered by a reference; and
    [generateDocs] and [generateComponents] throw for every list of
    definitions that holds a definition presenting such a schema. *)
Theorem unknown_kind_needs_type_override (z : ZodSchema) :
  hasDispatchEntry (unwrapOptional z) = false ->
  (forall isN save st,
      toOpenAPISchema (unwrapOptional z) isN true save st = (Returns [], st))
  /\ (forall isN save st,
        toOpenAPISchema (unwrapOptional z) isN false save st
        = (Throws (UnknownZodType (unwrapOptional z)), st))
  /\ (forall save wm st,
        registered (metaName (getMetadata z)) (schemaRefs st) = true ->
        generateSingleSchema z save wm st
        = (Returns [("$ref", VStr ("#/components/schemas/"
                                     ++ nameText (metaName (getMetadata z))))],
           st))
  /\ (forall save wm st,
        registered (metaName (getMetadata z)) (schemaRefs st) = false ->
        truthy (metaProp "type" (getMetadata z)) = true ->
        fst (generateSingleSchema z save wm st)
        = Returns (mergedFragment [] (getMetadata z) wm))
  /\ (forall save wm st,
        registered (metaName (getMetadata z)) (schemaRefs st) = false ->
        truthy (metaProp "type" (getMetadata z)) = false ->
        generateSingleSchema z save wm st
        = (Throws (UnknownZodType (unwrapOptional z)), st))
  /\ (forall cfg other pre rest st st1,
        forEach generateSingle pre st = (Returns tt, st1) ->
        registered (metaName (getMetadata z)) (schemaRefs st1) = false ->
        truthy (metaProp "type" (getMetadata z)) = false ->
        generateDocs (mkGenerator (pre ++ DefSchema z :: rest) (Some cfg)) st
        = (Throws (UnknownZodType (unwrapOptional z)), st1)
        /\ generateComponents (mkGenerator (pre ++ DefSchema z :: rest) other) st
           = (Throws (UnknownZodType (unwrapOptional z)), st1))
  /\ (truthy (metaProp "type" (getMetadata z)) = false ->
      truthyName (metaName (getMetadata z)) = false ->
      forall w, exposes z w ->
        (forall save wm,
            abortsWith unknownKindError (generateSingleSchema w save wm))
        /\ (forall loc save ext st,
              answers (nameText (parameterName w ext)) (paramRefs st) = false ->
              exists e,
                fst (generateSingleParameter w loc save ext st) = Throws e
                /\ mappingError e)
        /\ (forall route k st,
              hasParameter route k w ->
              answers k (paramRefs st) = false ->
              exists e,
                fst (generateSingleRoute route st) = Throws e /\ mappingError e)
        /\ (forall d, presents w d -> abortsWith mappingError (generateSingle d))
        /\ (forall d defs cfg other,
              presents w d -> In d defs ->
              abortsWith mappingError
                (generateDocs (mkGenerator defs (Some cfg)))
              /\ abortsWith mappingError
                   (generateComponents (mkGenerator defs other)))).
Proof.
  intros Hkind.
  assert (Hyes : forall isN save st,
             toOpenAPISchema (unwrapOptional z) isN true save st = (Returns [], st))
    by (intros; unfold toOpenAPISchema;
        destruct (unwrapOptional z); try discriminate; reflexivity).
  assert (Hno : forall isN save st,
             toOpenAPISchema (unwrapOptional z) isN false save st
             = (Throws (UnknownZodType (unwrapOptional z)), st))
    by (intros; unfold toOpenAPISchema;
        destruct (unwrapOptional z); try discriminate; reflexivity).
  assert (Hthrow : forall save wm st,
        registered (metaName (getMetadata z)) (schemaRefs st) = false ->
        truthy (metaProp "type" (getMetadata z)) = false ->
        generateSingleSchema z save wm st
        = (Throws (UnknownZodType (unwrapOptional z)), st)).
  { intros save wm st Hreg Htype.
    rewrite generateSingleSchema_eq, generateSingleSchemaWith_run. simpl.
    rewrite Hreg, Htype, Hno. reflexivity. }
  split; [exact Hyes|]. split; [exact Hno|]. split; [|split; [|split; [|split]]].
  - intros save wm st Hreg.
    rewrite generateSingleSchema_eq, generateSingleSchemaWith_run. simpl.
    rewrite Hreg. reflexivity.
  - intros save wm st Hreg Htype.
    rewrite generateSingleSchema_eq, generateSingleSchemaWith_run. simpl.
    rewrite Hreg, Htype, Hyes. reflexivity.
  - exact Hthrow.
  - intros cfg other pre rest st st1 Hpre Hreg Htype.
    assert (Hrun : forEach generateSingle (pre ++ DefSchema z :: rest) st
                   = (Throws (UnknownZodType (unwrapOptional z)), st1)).
    { apply (forEach_aborts generateSingle pre rest (DefSchema z) st st1 st1 _ Hpre).
      simpl. apply Hthrow; assumption. }
    split.
    + unfold generateDocs, bind. cbn [config definitions]. rewrite Hrun. reflexivity.
    + unfold generateComponents, bind. cbn [definitions]. rewrite Hrun. reflexivity.
  - intros Htype Hname w Hex.
    assert (Hz : forall save wm,
               abortsWith anything (generateSingleSchema z save wm)).
    { intros save wm st.
      rewrite (Hthrow save wm st (anonymous_not_registered _ _ Hname) Htype).
      eexists. split; [reflexivity | exact Logic.I]. }
    pose proof (exposes_aborts z w Hex Hz) as Hw.
    pose proof (exposes_anonymous z w Hex Hname) as Hwname.
    assert (Hdef : forall d, presents w d ->
                             abortsWith mappingError (generateSingle d)).
    { intros d Hd. apply abortsWith_errors.
      - exact (aborts_presented w d Hd Hwname Hw).
      - apply generateSingle_mappingError. }
    assert (Hparam : forall loc save ext st,
              answers (nameText (parameterName w ext)) (paramRefs st) = false ->
              exists e,
                fst (generateSingleParameter w loc save ext st) = Throws e
                /\ mappingError e).
    { intros loc save ext st Hans.
      pose proof (generateSingleParameter_mappingError w loc save ext st Logic.I)
        as [_ HE].
      rewrite generateSingleParameter_run in *. cbv zeta in *.
      destruct (negb _); [eexists; split; [reflexivity | exact HE]|].
      rewrite Hans in *.
      destruct (Hw false false st) as [e [He _]].
      destruct (generateSingleSchema w false false st) as [[schema | e'] s1];
        simpl in He; [discriminate|].
      eexists. split; [reflexivity | exact HE]. }
    split; [|split; [exact Hparam|split; [|split; [exact Hdef|]]]].
    + intros save wm. apply abortsWith_errors; [apply Hw|].
      apply generateSingleSchema_unknownKind.
    + intros route k st Hhas Hans.
      pose proof (generateSingle_mappingError (DefRoute route) st Logic.I)
        as [_ HE]. simpl in HE.
      assert (Hps : exists e, fst (getParameters (Route.request route) st) = Throws e).
      { apply (getParameters_throws route k w st Hhas). intros loc.
        destruct (Hparam loc false (Some k) st Hans) as [e [He _]].
        exists e. exact He. }
      destruct Hps as [e He].
      rewrite generateSingleRoute_run in *.
      destruct (fst (generateSingleSchema (Route.response route) false true st));
        [|eexists; split; [reflexivity | exact HE]].
      rewrite He in *. eexists. split; [reflexivity | exact HE].
    + intros d defs cfg other Hd Hin.
      assert (Hall : abortsWith anything (forEach generateSingle defs))
        by (apply (aborts_forEach _ defs d Hin); intros st;
            destruct (Hdef d Hd st) as [e [He _]]; exists e; split;
            [exact He | exact Logic.I]).
      split; apply abortsWith_errors.
      * unfold generateDocs. cbn [config definitions].
        apply aborts_bind_left. exact Hall.
      * unfold generateDocs. cbn [config definitions].
        eapply hoare_bind; [apply forEach_generateSingle_mappingError|].
        intros _ _. eapply hoare_bind with (G1 := anything).
        -- intros st _. split; exact Logic.I.
        -- intros this _. apply hoare_ret. exact Logic.I.
      * unfold generateComponents. cbn [definitions].
        apply aborts_bind_left. exact Hall.
      * unfold generateComponents. cbn [definitions].
        eapply hoare_bind; [apply forEach_generateSingle_mappingError|].
        intros _ _. eapply hoare_bind with (G1 := anything).
        -- intros st _. split; exact Logic.I.
        -- intros this _. apply hoare_ret. exact Logic.I.
Qed.

End Aborts.

Lemma unknown_kind_needs_type_override_witness :
  hasDispatchEntry (unwrapOptional (ZodOptional None zDate)) = false
  /\ exposes (ZodOptional None zDate) MoreExamples.person
  /\ toOpenAPISchema zDate false true true emptyRefs = (Returns [], emptyRefs)
  /\ generateSingleSchema (ZodOptional None zDate) true true emptyRefs
     = (Throws (UnknownZodType zDate), emptyRefs)
  /\ (exists e,
        fst (generateSingleSchema MoreExamples.person true true afterUser)
        = Throws e /\ unknownKindError e)
  /\ (exists e,
        fst (generateSingleRoute MoreExamples.peopleRoute afterUser) = Throws e
        /\ mappingError e)
  /\ (exists e,
        fst (generateComponents
               (mkGenerator [DefSchema userObject; DefSchema MoreExamples.person]
                  None) emptyRefs)
        = Throws e /\ mappingError e).
Proof.
  assert (Hex : exposes (ZodOptional None zDate) MoreExamples.person).
  { apply exposes_below with (c := ZodOptional None zDate).
    - reflexivity.
    - simpl. right. left. reflexivity.
    - apply exposes_here. }
  destruct (unknown_kind_needs_type_override (zod := Zod.methods)
              (ZodOptional None zDate) eq_refl)
    as [Hyes [_ [_ [_ [Hthrow [_ Hdeep]]]]]].
  destruct (Hdeep eq_refl eq_refl MoreExamples.person Hex)
    as [Hschema [_ [_ [_ Hdocs]]]].
  destruct (unknown_kind_needs_type_override (zod := Zod.methods) zDate eq_refl)
    as [_ [_ [_ [_ [_ [_ Hdate]]]]]].
  destruct (Hdate eq_refl eq_refl zDate (exposes_here zDate))
    as [_ [_ [Hroute _]]].
  split; [reflexivity|]. split; [exact Hex|].
  split; [exact (Hyes false true emptyRefs)|].
  split; [exact (Hthrow true true emptyRefs eq_refl eq_refl)|].
  split; [exact (Hschema true true afterUser)|].
  split.
  - apply (Hroute MoreExamples.peopleRoute "since" afterUser); [|reflexivity].
    exists (Route.mkRequest None
              (Some (ZodObject None [("since", zDate)] strip)) None None),
      None, [("since", zDate)], strip.
    split; [reflexivity|]. split; [right; reflexivity | left; reflexivity].
  - exact (proj2 (Hdocs (DefSchema MoreExamples.person)
                    [DefSchema userObject; DefSchema MoreExamples.person]
                    (Config.mk "3.0.0" [] None None None None) None
                    eq_refl (or_intror (or_introl eq_refl)))
             emptyRefs).
Defined.

Lemma supported_schemas_are_always_mapped_witness :
  supported userObject = true
  /\ exists r st',
       generateSingleSchema (zod := Zod.methods) userObject true true emptyRefs
       = (Returns r, st').
Proof.
  split; [reflexivity|].
  exact (proj1 (supported_schemas_are_always_mapped (zod := Zod.methods)
                  userObject eq_refl) true true emptyRefs).
Defined.

(* ================================================================= *)
(** * Further properties: what the dispatch writes *)

Section DispatchFacts.
Context {zod : ZodMethods}.

Ltac dispatch_cases H :=
  unfold toOpenAPISchemaWith, bind, ret, throw in H;
  repeat match type of H with
    | context [match ?m ?st with _ => _ end] =>
        let o := fresh "o" in
        let st1 := fresh "st" in
        let Hm := fresh "Hm" in
        destruct (m st) as [o st1] eqn:Hm; destruct o
    end;
  try discriminate H.

Lemma mapValues_keys {A B} (f : A -> Gen B) (o : list (string * A)) st r st' :
  mapValues f o st = (Returns r, st') -> map fst r = map fst o.
Proof.
  revert st r st'. induction o as [| [k x] o IH]; intros st r st'; simpl.
  - intros [= <- _]. reflexivity.
  - unfold bind. destruct (f x st) as [[y | e] s1]; [|discriminate].
    destruct (mapValues f o s1) as [[ys | e] s2] eqn:Hrest; [|discriminate].
    intros [= <- _]. simpl. f_equal. exact (IH s1 ys s2 Hrest).
Qed.

Lemma dispatch_has_no_name (g : ZodSchema -> bool -> Gen JSObject)
    z isN hasT save st base st' :
  toOpenAPISchemaWith g z isN hasT save st = (Returns base, st') ->
  Obj.get "name" base = None.
Proof.
  intros H. destruct z; dispatch_cases H;
    try (injection H as <- _; reflexivity).
  destruct hasT; [injection H as <- _; reflexivity | discriminate].
  destruct hasT; [injection H as <- _; reflexivity | discriminate].
  destruct hasT; [injection H as <- _; reflexivity | discriminate].
Qed.

Lemma get_none_filter {A} (p : string * A -> bool) k (o : list (string * A)) :
  Obj.get k o = None -> Obj.get k (filter p o) = None.
Proof.
  induction o as [| [k' v'] o IH]; simpl; [reflexivity|].
  destruct (String.eqb k k') eqn:Hk; [discriminate|].
  intros H. destruct (p (k', v')); simpl; [rewrite Hk|]; exact (IH H).
Qed.

(** X3. The registration name is never emitted: no fragment returned by the
    schema mapper has a [name] field, whatever the metadata holds. *)
Theorem mapped_fragment_has_no_name_field
    (z : ZodSchema) (save wm : bool) (st st' : Refs) (r : JSObject) :
  generateSingleSchema z save wm st = (Returns r, st') ->
  Obj.get "name" r = None.
Proof.
  rewrite generateSingleSchema_eq, generateSingleSchemaWith_run. cbv zeta.
  destruct (registered _ _); [intros [= <- _]; reflexivity|].
  destruct (toOpenAPISchema _ _ _ _ st) as [[base | e] st1] eqn:Hd; [|discriminate].
  intros [= <- _]. unfold mergedFragment, omitBy. apply get_none_filter.
  unfold Obj.spread. rewrite get_assign_other.
  - rewrite get_assign_other.
    + reflexivity.
    + intros Hin. apply in_map_iff in Hin. destruct Hin as [[k v] [Hk Hin]].
      simpl in Hk. subst k. destruct (get_of_member "name" v base Hin) as [w Hw].
      unfold toOpenAPISchema in Hd. rewrite (dispatch_has_no_name _ _ _ _ _ _ _ _ Hd) in Hw.
      discriminate.
  - destruct (getMetadata z) as [m |]; [|simpl; tauto].
    destruct wm; [apply not_in_buildMetadata | simpl; tauto].
Qed.

(** X10. The dispatch marks nullability only by [nullable: true], and only
    for strings, numbers, literals, enums, native enums, objects and
    booleans when the nullable flag is set: the fragment of a null, array,
    union or intersection schema, or of an unknown kind, gets no [nullable]
    key even when the node is nullable. *)
Theorem dispatch_writes_nullable_for_seven_kinds
    (z : ZodSchema) (isN hasT save : bool) (st st' : Refs) (base : JSObject) :
  toOpenAPISchema z isN hasT save st = (Returns base, st') ->
  prop "nullable" base = (if isN && decorated z then VBool true else VUndefined).
Proof.
  unfold toOpenAPISchema. intros H. destruct z; dispatch_cases H;
    try (injection H as <- _; destruct isN; reflexivity).
  destruct hasT; [injection H as <- _; destruct isN; reflexivity | discriminate].
  destruct hasT; [injection H as <- _; destruct isN; reflexivity | discriminate].
  destruct hasT; [injection H as <- _; destruct isN; reflexivity | discriminate].
Qed.

(** X11. The fragment of an object schema lists under [properties] exactly
    the declared property names, in declaration order, each with an object
    as value; [required] holds the names of the properties that are not
    optional, which are all among them. [additionalProperties] is [true]
    when reading [_unknownKeys] from the node finds [passthrough] and is
    absent otherwise; zod keeps the policy in [_def] and never sets that
    property, so with zod the fragment of an object has no
    [additionalProperties], whatever its policy is. *)
Theorem object_fragment_follows_the_shape
    (md : option ZodOpenAPIMetadata) (shape : list (string * ZodSchema))
    (unknownKeys : UnknownKeysParam) (isN hasT save : bool) :
  (forall st st' base,
      toOpenAPISchema (ZodObject md shape unknownKeys) isN hasT save st
      = (Returns base, st') ->
      (exists properties : list (string * JSObject),
          prop "properties" base = objOfObjs properties
          /\ map fst properties = map fst shape)
      /\ prop "type" base = VStr "object"
      /\ prop "required" base
         = VArr (map VStr
                   (map fst (filter (fun e => negb (isOptional (snd e))) shape)))
      /\ incl (map fst (filter (fun e => negb (isOptional (snd e))) shape))
           (map fst shape)
      /\ prop "additionalProperties" base
         = match _unknownKeys (ZodObject md shape unknownKeys) with
           | Some passthrough => VBool true
           | _ => VUndefined
           end)
  /\ (forall st st' base,
        toOpenAPISchema (zod := Zod.methods) (ZodObject md shape unknownKeys)
          isN hasT save st
        = (Returns base, st') ->
        prop "additionalProperties" base = VUndefined).
Proof.
  split.
  - unfold toOpenAPISchema. intros st st' base H. dispatch_cases H.
    injection H as <- _.
    split; [|split; [reflexivity|split; [|split; [|reflexivity]]]].
    + eexists. split; [reflexivity|]. exact (mapValues_keys _ _ _ _ _ Hm).
    + unfold prop. simpl. rewrite map_map. reflexivity.
    + intros k Hin. apply in_map_iff in Hin. destruct Hin as [e [<- Hin]].
      apply filter_In in Hin. apply in_map. tauto.
  - unfold toOpenAPISchema. intros st st' base H. dispatch_cases H.
    injection H as <- _. reflexivity.
Qed.

End DispatchFacts.

(* ================================================================= *)
(** * Further properties: the registries only grow *)

Lemma has_put_kept {A} k k' (v : A) (o : list (string * A)) :
  Obj.has k o = true -> Obj.has k (Obj.put k' v o) = true.
Proof.
  unfold Obj.has. destruct (String.eqb k k') eqn:Hk.
  - apply String.eqb_eq in Hk. subst k'. rewrite get_put_same. reflexivity.
  - apply String.eqb_neq in Hk. rewrite get_put_other by exact Hk. tauto.
Qed.

Lemma keysKept_refl st : keysKept st st.
Proof. repeat split; auto. Qed.

Lemma keysKept_storeSchema st0 st n r :
  keysKept st0 st -> keysKept st0 (storeSchema n r st).
Proof.
  intros [[Hs Hp] Hr]. repeat split; simpl; auto.
  intros k Hk. apply has_put_kept. auto.
Qed.

Lemma keysKept_storeParam st0 st n r :
  keysKept st0 st -> keysKept st0 (storeParam n r st).
Proof.
  intros [[Hs Hp] Hr]. repeat split; simpl; auto.
  intros k Hk. apply has_put_kept. auto.
Qed.

Lemma keysKept_storePath st0 st n r :
  keysKept st0 st -> keysKept st0 (storePath n r st).
Proof.
  intros [[Hs Hp] Hr]. repeat split; simpl; auto.
  intros k Hk. destruct (String.eqb n "__proto__"); [auto|].
  apply has_put_kept. auto.
Qed.

Section Growth.
Context {zod : ZodMethods}.

Lemma generateSingleSchema_own_registry z save wm st :
  paramRefs (snd (generateSingleSchema z save wm st)) = paramRefs st
  /\ pathRefs (snd (generateSingleSchema z save wm st)) = pathRefs st.
Proof.
  pose proof (generateSingleSchema_inv
                (fun s => paramRefs s = paramRefs st /\ pathRefs s = pathRefs st)
                (fun _ => True) (fun _ => Logic.I) save z wm
                (fun _ _ _ _ _ _ _ _ H => H) st (conj eq_refl eq_refl)) as [H _].
  exact H.
Qed.

(** X12. Each mapping method writes its own registry only, and nothing is
    ever removed: the schema mapper leaves the parameter and path registries
    as they are, the parameter mapper leaves the schema and path registries
    as they are, and after processing any definition, or any list of
    definitions, every key of the three registries is still a key, whether
    the processing returned or threw. *)
Theorem registries_only_grow :
  (forall z save wm st,
      paramRefs (snd (generateSingleSchema z save wm st)) = paramRefs st
      /\ pathRefs (snd (generateSingleSchema z save wm st)) = pathRefs st)
  /\ (forall z loc save ext st,
        schemaRefs (snd (generateSingleParameter z loc save ext st)) = schemaRefs st
        /\ pathRefs (snd (generateSingleParameter z loc save ext st)) = pathRefs st)
  /\ (forall definition st, keysKept st (snd (generateSingle definition st)))
  /\ (forall defs st, keysKept st (snd (forEach generateSingle defs st))).
Proof.
  split; [apply generateSingleSchema_own_registry|]. split; [|split].
  - intros z loc save ext st. rewrite generateSingleParameter_run. cbv zeta.
    destruct (negb _); [split; reflexivity|].
    destruct (answers _ _); [split; reflexivity|].
    pose proof (generateSingleSchema_frame z false st) as H.
    destruct (generateSingleSchema z false false st) as [[schema | e] st1];
      simpl in H; subst st1; [|split; reflexivity].
    destruct save; split; reflexivity.
  - intros d st.
    exact (proj1 (generateSingle_inv (keysKept st) (fun _ => True)
                    (fun _ => Logic.I) Logic.I
                    (fun s n r H => keysKept_storeParam st s n r H)
                    (fun s n r H => keysKept_storePath st s n r H)
                    (fun _ _ _ _ _ s1 r H => keysKept_storeSchema st s1 _ r H)
                    d st (keysKept_refl st))).
  - intros defs st.
    exact (proj1 (forEach_generateSingle_inv (keysKept st) (fun _ => True)
                    (fun _ => Logic.I) Logic.I
                    (fun s n r H => keysKept_storeParam st s n r H)
                    (fun s n r H => keysKept_storePath st s n r H)
                    (fun _ _ _ _ _ s1 r H => keysKept_storeSchema st s1 _ r H)
                    defs st (keysKept_refl st))).
Qed.

End Growth.

(* ================================================================= *)
(** * Further properties: the 3.0 strategy *)

Section Strategy.
Import OpenApiGeneratorV30Specifics.

Lemma getNumberChecks_fold checks :
  getNumberChecks checks = fold_left Obj.assign (map boundsOf checks) [].
Proof. reflexivity. Qed.

Lemma get_assign_one {A} k k' (v : A) (o : list (string * A)) :
  Obj.get k (Obj.assign o [(k', v)])
  = if String.eqb k k' then Some v else Obj.get k o.
Proof.
  unfold Obj.assign. simpl. destruct (String.eqb k k') eqn:Hk.
  - apply String.eqb_eq in Hk. subst k'. apply get_put_same.
  - apply String.eqb_neq in Hk. apply get_put_other. exact Hk.
Qed.

Lemma get_assign_two {A} k k1 k2 (v1 v2 : A) (o : list (string * A)) :
  Obj.get k (Obj.assign o [(k1, v1); (k2, v2)])
  = if String.eqb k k2 then Some v2
    else if String.eqb k k1 then Some v1 else Obj.get k o.
Proof.
  change (Obj.assign o [(k1, v1); (k2, v2)])
    with (Obj.assign (Obj.assign o [(k1, v1)]) [(k2, v2)]).
  rewrite get_assign_one. destruct (String.eqb k k2); [reflexivity|].
  apply get_assign_one.
Qed.

Lemma get_boundsOf k c (o : JSObject) :
  Obj.get k (Obj.assign o (boundsOf c))
  = match Obj.get k (boundsOf c) with Some v => Some v | None => Obj.get k o end.
Proof.
  destruct c as [v [|] | v [|] | kind]; simpl boundsOf.
  - rewrite get_assign_one. simpl. destruct (String.eqb k "minimum"); reflexivity.
  - rewrite get_assign_two. simpl.
    destruct (String.eqb k "minimum") eqn:H1;
      destruct (String.eqb k "exclusiveMinimum") eqn:H2; try reflexivity.
    apply String.eqb_eq in H1, H2. subst k. discriminate.
  - rewrite get_assign_one. simpl. destruct (String.eqb k "maximum"); reflexivity.
  - rewrite get_assign_two. simpl.
    destruct (String.eqb k "maximum") eqn:H1;
      destruct (String.eqb k "exclusiveMaximum") eqn:H2; try reflexivity.
    apply String.eqb_eq in H1, H2. subst k. discriminate.
  - reflexivity.
Qed.

Lemma get_fold_bounds k checks (o : JSObject) :
  Obj.get k (fold_left Obj.assign (map boundsOf checks) o)
  = match lastSet k checks with Some v => Some v | None => Obj.get k o end.
Proof.
  revert o. induction checks as [| c rest IH]; intros o; simpl; [reflexivity|].
  rewrite IH, get_boundsOf. destruct (lastSet k rest); reflexivity.
Qed.

Lemma lastSet_minimum checks :
  lastSet "minimum" checks
  = match lastMin checks with Some v => Some (VNum (Number v)) | None => None end.
Proof.
  induction checks as [| c rest IH]; simpl; [reflexivity|].
  rewrite IH. destruct (lastMin rest); [reflexivity|].
  destruct c as [v [|] | v [|] | kind]; reflexivity.
Qed.

Lemma lastSet_maximum checks :
  lastSet "maximum" checks
  = match lastMax checks with Some v => Some (VNum (Number v)) | None => None end.
Proof.
  induction checks as [| c rest IH]; simpl; [reflexivity|].
  rewrite IH. destruct (lastMax rest); [reflexivity|].
  destruct c as [v [|] | v [|] | kind]; reflexivity.
Qed.

Lemma lastSet_exclusiveMinimum checks :
  lastSet "exclusiveMinimum" checks
  = if existsb isExclusiveMin checks then Some (VBool true) else None.
Proof.
  induction checks as [| c rest IH]; simpl; [reflexivity|].
  rewrite IH. destruct (existsb isExclusiveMin rest);
    [rewrite orb_true_r; reflexivity|].
  rewrite orb_false_r. destruct c as [v [|] | v [|] | kind]; reflexivity.
Qed.

Lemma lastSet_exclusiveMaximum checks :
  lastSet "exclusiveMaximum" checks
  = if existsb isExclusiveMax checks then Some (VBool true) else None.
Proof.
  induction checks as [| c rest IH]; simpl; [reflexivity|].
  rewrite IH. destruct (existsb isExclusiveMax rest);
    [rewrite orb_true_r; reflexivity|].
  rewrite orb_false_r. destruct c as [v [|] | v [|] | kind]; reflexivity.
Qed.

(** X13. [getNumberChecks] reads the checks from first to last: [minimum] is
    [Number] of the bound of the last [min] check and [maximum] that of the
    last [max] check, each absent when there is no such check;
    [exclusiveMinimum] is [true] as soon as some [min] check is exclusive,
    also when a later inclusive [min] check replaces the bound, and is absent
    otherwise, and likewise [exclusiveMaximum]. [Number] leaves a number
    bound as it is and rounds a bigint bound to a double: the bound
    [2^53 + 1] is emitted as [2^53]. *)
Theorem getNumberChecks_last_bound_wins (checks : list ZodNumericCheck) :
  Obj.get "minimum" (getNumberChecks checks)
  = match lastMin checks with Some v => Some (VNum (Number v)) | None => None end
  /\ Obj.get "maximum" (getNumberChecks checks)
     = match lastMax checks with Some v => Some (VNum (Number v)) | None => None end
  /\ Obj.get "exclusiveMinimum" (getNumberChecks checks)
     = (if existsb isExclusiveMin checks then Some (VBool true) else None)
  /\ Obj.get "exclusiveMaximum" (getNumberChecks checks)
     = (if existsb isExclusiveMax checks then Some (VBool true) else None)
  /\ (forall n, Number (NumberValue n) = n)
  /\ getNumberChecks [CheckMin (BigIntValue 9007199254740993) true]
     = [("minimum", VNum 9007199254740992)].
Proof.
  rewrite getNumberChecks_fold, !get_fold_bounds.
  rewrite lastSet_minimum, lastSet_maximum, lastSet_exclusiveMinimum,
    lastSet_exclusiveMaximum.
  repeat split.
  - destruct (lastMin checks); reflexivity.
  - destruct (lastMax checks); reflexivity.
  - destruct (existsb isExclusiveMin checks); reflexivity.
  - destruct (existsb isExclusiveMax checks); reflexivity.
Qed.

Lemma in_fold_bounds kv checks (o : JSObject) :
  In kv (fold_left Obj.assign (map boundsOf checks) o) ->
  In kv o \/ exists c, In c checks /\ In kv (boundsOf c).
Proof.
  revert o. induction checks as [| c rest IH]; intros o; simpl; [tauto|].
  intros H. destruct (IH _ H) as [H1 | [c' [Hc Hin]]].
  - destruct (in_assign _ _ _ H1) as [H2 | H2]; [left; exact H2|].
    right. exists c. split; [left; reflexivity | exact H2].
  - right. exists c'. split; [right; exact Hc | exact Hin].
Qed.

(** X14. [getNumberChecks] emits nothing but the four bound keys, and checks
    of other kinds ([int], [multipleOf], ...) leave no trace: dropping them
    from the list gives the same object, and a list without [min] and [max]
    checks gives the empty object. *)
Theorem getNumberChecks_ignores_other_checks (checks : list ZodNumericCheck) :
  (forall k v, In (k, v) (getNumberChecks checks) ->
               In k ["minimum"; "exclusiveMinimum"; "maximum"; "exclusiveMaximum"])
  /\ getNumberChecks (filter isBound checks) = getNumberChecks checks
  /\ (forallb (fun c => negb (isBound c)) checks = true ->
      getNumberChecks checks = []).
Proof.
  assert (Hdrop : getNumberChecks (filter isBound checks) = getNumberChecks checks).
  { rewrite !getNumberChecks_fold. generalize (@nil (string * Value)).
    induction checks as [| c rest IH]; intros o; simpl; [reflexivity|].
    destruct c; simpl; apply IH. }
  split; [|split; [exact Hdrop|]].
  - intros k v Hin. rewrite getNumberChecks_fold in Hin.
    destruct (in_fold_bounds _ _ _ Hin) as [[] | [c [_ Hc]]].
    destruct c as [x [|] | x [|] | kind]; simpl in Hc;
      repeat (destruct Hc as [[= <- _] | Hc]; [simpl; tauto|]); destruct Hc.
  - intros Hnone. rewrite <- Hdrop.
    replace (filter isBound checks) with (@nil ZodNumericCheck); [reflexivity|].
    symmetry. clear Hdrop. induction checks as [| c rest IH]; [reflexivity|].
    simpl in *. apply andb_prop in Hnone. destruct Hnone as [Hc Hrest].
    destruct (isBound c); [discriminate | exact (IH Hrest)].
Qed.

End Strategy.

(* ================================================================= *)
(** * Further properties: documents and parameter lists *)

Section DocumentFacts.
Context {zod : ZodMethods}.

Lemma config_props_copied (c : Config.t) :
  Obj.assign [] (Config.props c) = Config.props c.
Proof.
  destruct c as [o i [s |] [sec |] [t |] [e |]]; reflexivity.
Qed.

Lemma config_props_extended (c : Config.t) (components paths : Value) :
  Obj.assign (Config.props c) [("components", components); ("paths", paths)]
  = (Config.props c ++ [("components", components); ("paths", paths)])%list.
Proof.
  destruct c as [o i [s |] [sec |] [t |] [e |]]; reflexivity.
Qed.

(** X15. With a configuration, [generateDocs] processes the definitions
    exactly as [generateComponents] does (same registries afterwards, same
    error if one is thrown) and, when they map without error, returns the
    configuration's fields unchanged and in order, followed by [components]
    (the same value [generateComponents] returns under that key) and
    [paths]. *)
Theorem generateDocs_extends_generateComponents
    (defs : list OpenAPIDefinitions) (cfg : Config.t)
    (other : option Config.t) (st : Refs) :
  snd (generateDocs (mkGenerator defs (Some cfg)) st)
  = snd (generateComponents (mkGenerator defs other) st)
  /\ (forall e,
        fst (generateDocs (mkGenerator defs (Some cfg)) st) = Throws e
        <-> fst (generateComponents (mkGenerator defs other) st) = Throws e)
  /\ (forall comps st',
        generateComponents (mkGenerator defs other) st = (Returns comps, st') ->
        generateDocs (mkGenerator defs (Some cfg)) st
        = (Returns (Config.props cfg
                    ++ [("components", prop "components" comps);
                        ("paths", objOfObjs (pathRefs st'))])%list, st')).
Proof.
  unfold generateDocs, generateComponents, bind, getRefs, ret.
  cbn [config definitions].
  destruct (forEach generateSingle defs st) as [[[] | e] st1]; cbn [fst snd].
  - split; [reflexivity|]. split; [split; discriminate|].
    intros comps st' [= <- <-].
    rewrite config_props_copied, config_props_extended. reflexivity.
  - split; [reflexivity|]. split; [tauto | discriminate].
Qed.

Lemma compact_objects (l : list JSObject) : compact (map VObj l) = map VObj l.
Proof. induction l as [| o l IH]; simpl; [reflexivity | rewrite IH; reflexivity]. Qed.

Lemma mapM_Forall2 {A B} (R : A -> B -> Prop) (f : A -> Gen B) (xs : list A) :
  (forall x st y st', In x xs -> f x st = (Returns y, st') -> R x y) ->
  forall st ys st', mapM f xs st = (Returns ys, st') -> Forall2 R xs ys.
Proof.
  induction xs as [| x rest IH]; intros Hf st ys st'; simpl.
  - intros [= <- _]. constructor.
  - unfold bind. destruct (f x st) as [[y | e] s1] eqn:Hx; [|discriminate].
    destruct (mapM f rest s1) as [[ys' | e] s2] eqn:Hrest; [|discriminate].
    intros [= <- _]. constructor.
    + exact (Hf x st y s1 (or_introl eq_refl) Hx).
    + apply (IH (fun x0 st0 y0 st0' Hin => Hf x0 st0 y0 st0' (or_intror Hin))
               s1 ys' s2 Hrest).
Qed.

(** X16. [getParamsByLocation] documents the properties of an object schema
    and nothing else. Given no schema, or a schema that is not itself an
    object node (an optional object included), it returns the empty list.
    Given an object it never changes the registries, and when it returns, the
    list has one parameter per property, in declaration order, each being the
    reference to, or a parameter object named by, the property's key. *)
Theorem getParamsByLocation_follows_the_properties
    (loc : ParameterLocation) (st : Refs) :
  getParamsByLocation None loc st = (Returns [], st)
  /\ (forall schema, isZodObject schema = false ->
        getParamsByLocation (Some schema) loc st = (Returns [], st))
  /\ (forall md shape unknownKeys,
        snd (getParamsByLocation (Some (ZodObject md shape unknownKeys)) loc st)
        = st)
  /\ (forall md shape unknownKeys found st',
        getParamsByLocation (Some (ZodObject md shape unknownKeys)) loc st
        = (Returns found, st') ->
        Forall2 (fun entry parameter =>
                   exists o, parameter = VObj o
                             /\ (o = paramRef (fst entry)
                                 \/ prop "name" o = VStr (fst entry)))
          shape found).
Proof.
  split; [reflexivity|]. split; [|split].
  - intros schema Hk. destruct schema; try reflexivity; discriminate.
  - intros. apply getParamsByLocation_frame.
  - intros md shape unknownKeys found st'. simpl. unfold bind.
    destruct (mapM _ shape st) as [[l | e] s1] eqn:Hmap; [|discriminate].
    intros [= <- _]. rewrite compact_objects.
    apply (mapM_Forall2
             (fun entry o => o = paramRef (fst entry)
                              \/ prop "name" o = VStr (fst entry))) in Hmap.
    + clear - Hmap. induction Hmap; simpl; constructor; [|assumption].
      eexists. split; [reflexivity | assumption].
    + intros [k z] s y s' _. simpl fst. simpl snd.
      rewrite generateSingleParameter_run. cbv zeta. simpl parameterName.
      destruct (negb _); [discriminate|]. simpl nameText.
      destruct (answers _ _); [intros [= <- _]; left; reflexivity|].
      destruct (generateSingleSchema z false false s) as [[schema | e] s2];
        [|discriminate].
      intros [= <- _]. right. unfold parameterObject, prop.
      rewrite get_assign_other; [reflexivity|].
      destruct (getMetadata z); [apply not_in_buildMetadata | simpl; tauto].
Qed.

End DocumentFacts.

Lemma getParamsByLocation_follows_the_properties_witness :
  getParamsByLocation (zod := Zod.methods)
    (Some (ZodOptional None userObject)) path emptyRefs
  = (Returns [], emptyRefs)
  /\ exists found,
       fst (getParamsByLocation (zod := Zod.methods) (Some userObject) path
              emptyRefs) = Returns found
       /\ Forall2 (fun entry parameter =>
                     exists o, parameter = VObj o
                               /\ (o = paramRef (fst entry)
                                   \/ prop "name" o = VStr (fst entry)))
            [("id", zString)] found.
Proof.
  destruct (getParamsByLocation_follows_the_properties (zod := Zod.methods)
              path emptyRefs) as [_ [Hother [_ Hobject]]].
  split; [exact (Hother (ZodOptional None userObject) eq_refl)|].
  eexists. split; [vm_compute; reflexivity|].
  exact (Hobject (Some [("name", VStr "User")]) [("id", zString)] strip _ _ eq_refl).
Defined.

(* ================================================================= *)
(** * Further properties: a second pass registers nothing new *)

Lemma componentsIncluded_refl st : componentsIncluded st st.
Proof. split; auto. Qed.

Lemma componentsIncluded_trans a b c :
  componentsIncluded a b -> componentsIncluded b c -> componentsIncluded a c.
Proof. intros [H1 H2] [H3 H4]. split; auto. Qed.

Lemma answers_kept k (a b : list (string * JSObject)) :
  (forall k, Obj.has k a = true -> Obj.has k b = true) ->
  answers k a = true -> answers k b = true.
Proof.
  unfold answers. intros Hincl H. apply orb_prop in H.
  destruct H as [H | H]; [rewrite (Hincl k H) | rewrite H, orb_true_r]; reflexivity.
Qed.

Lemma answers_put k (v : JSObject) (o : list (string * JSObject)) :
  answers k (Obj.put k v o) = true.
Proof. unfold answers, Obj.has. rewrite get_put_same. reflexivity. Qed.

Section Settled.
Context {zod : ZodMethods}.

Lemma generateSingleSchemaFuel_grows n z save wm st :
  componentsIncluded st (snd (generateSingleSchemaFuel n z save wm st)).
Proof.
  exact (proj1 (proj1 (generateSingleSchemaFuel_inv (keysKept st) (fun _ => True)
                         (fun _ => Logic.I) save
                         (fun _ _ _ _ _ _ s1 r H => keysKept_storeSchema st s1 _ r H)
                         n z wm st (keysKept_refl st)))).
Qed.

Lemma forEach_generateSingle_grows defs st :
  componentsIncluded st (snd (forEach generateSingle defs st)).
Proof.
  exact (proj1 (proj1 (forEach_generateSingle_inv (keysKept st) (fun _ => True)
                         (fun _ => Logic.I) Logic.I
                         (fun s n r H => keysKept_storeParam st s n r H)
                         (fun s n r H => keysKept_storePath st s n r H)
                         (fun _ _ _ _ _ s1 r H => keysKept_storeSchema st s1 _ r H)
                         defs st (keysKept_refl st)))).
Qed.

Lemma mapM_grows {A B} (f : A -> Gen B) (xs : list A) st :
  growing f -> componentsIncluded st (snd (mapM f xs st)).
Proof.
  intros Hf. revert st. induction xs as [| x rest IH]; intros st; simpl.
  - apply componentsIncluded_refl.
  - unfold bind. pose proof (Hf x st) as H1.
    destruct (f x st) as [[y | e] s1]; simpl in H1; [|exact H1].
    pose proof (IH s1) as H2.
    destruct (mapM f rest s1) as [[ys | e] s2]; simpl in *;
      exact (componentsIncluded_trans _ _ _ H1 H2).
Qed.

Lemma mapM_settled {A B} (f : A -> Gen B) (xs : list A) :
  growing f -> (forall x, In x xs -> settledOn f x) ->
  forall st ys s1, mapM f xs st = (Returns ys, s1) ->
  forall st2, componentsIncluded s1 st2 -> snd (mapM f xs st2) = st2.
Proof.
  intros Hgrow. induction xs as [| x rest IH]; intros Hset st ys s1; simpl.
  - reflexivity.
  - unfold bind. destruct (f x st) as [[y | e] sa] eqn:Hx; [|discriminate].
    destruct (mapM f rest sa) as [[ys' | e] sb] eqn:Hrest; [|discriminate].
    intros [= _ <-] st2 Hincl.
    assert (Hsa : componentsIncluded sa st2).
    { apply componentsIncluded_trans with (b := sb); [|exact Hincl].
      pose proof (mapM_grows f rest sa Hgrow) as H. rewrite Hrest in H. exact H. }
    pose proof (Hset x (or_introl eq_refl) st y sa Hx st2 Hsa) as H1.
    destruct (f x st2) as [[y2 | e2] sc]; simpl in H1; subst sc; [|reflexivity].
    pose proof (IH (fun x0 Hin => Hset x0 (or_intror Hin)) sa ys' sb Hrest
                  st2 Hincl) as H2.
    destruct (mapM f rest st2) as [[ys2 | e2] sd]; exact H2.
Qed.

Lemma mapValues_as_mapM {A B} (f : A -> Gen B) (o : list (string * A)) st :
  snd (mapValues f o st) = snd (mapM f (map snd o) st)
  /\ (forall r, fst (mapValues f o st) = Returns r ->
                exists ys, fst (mapM f (map snd o) st) = Returns ys)
  /\ (forall ys, fst (mapM f (map snd o) st) = Returns ys ->
                 exists r, fst (mapValues f o st) = Returns r).
Proof.
  revert st. induction o as [| [k x] o IH]; intros st; simpl.
  - repeat split; eexists; reflexivity.
  - unfold bind. destruct (f x st) as [[y | e] s1];
      [|repeat split; intros; discriminate].
    destruct (IH s1) as [H1 [H2 H3]].
    destruct (mapValues f o s1) as [[r | e] s2];
      destruct (mapM f (map snd o) s1) as [[ys | e'] s3]; simpl in *;
      repeat split; try exact H1; intros; try discriminate;
      try (eexists; reflexivity).
    + destruct (H2 r eq_refl) as [? Hc]. discriminate.
    + destruct (H3 ys eq_refl) as [? Hc]. discriminate.
Qed.

Lemma toOpenAPISchemaWith_settled (g : ZodSchema -> bool -> Gen JSObject)
    (z : ZodSchema) (isN hasT : bool) (st s1 : Refs) (base : JSObject) :
  growing (fun c => g c true) ->
  (forall c, In c (callees z) -> settledOn (fun c => g c true) c) ->
  toOpenAPISchemaWith g z isN hasT true st = (Returns base, s1) ->
  forall st2 isN' hasT',
    componentsIncluded s1 st2 ->
    snd (toOpenAPISchemaWith g z isN' hasT' true st2) = st2.
Proof.
  intros Hgrow Hset Hrun st2 isN' hasT' Hincl.
  destruct z; simpl in *; try reflexivity.
  - unfold bind in *.
    destruct (mapValues (fun c => g c true) shape st) as [[r | e] sa] eqn:Hm;
      [|discriminate].
    injection Hrun as _ <-.
    destruct (mapValues_as_mapM (fun c => g c true) shape st) as [Hs [Hr _]].
    rewrite Hm in Hs, Hr. simpl in Hs. destruct (Hr r eq_refl) as [ys Hys].
    assert (Hmap : mapM (fun c => g c true) (map snd shape) st = (Returns ys, sa)).
    { destruct (mapM (fun c => g c true) (map snd shape) st) as [o sx].
      simpl in *. subst. reflexivity. }
    pose proof (mapM_settled _ _ Hgrow Hset st ys sa Hmap st2 Hincl) as H2.
    rewrite <- (proj1 (mapValues_as_mapM (fun c => g c true) shape st2)) in H2.
    destruct (mapValues (fun c => g c true) shape st2) as [[r2 | e2] sb]; exact H2.
  - unfold bind in *.
    destruct (g z true st) as [[y | e] sa] eqn:Hx; [|discriminate].
    injection Hrun as _ <-.
    pose proof (Hset z (or_introl eq_refl) st y sa Hx st2 Hincl) as H2.
    destruct (g z true st2) as [[y2 | e2] sb]; exact H2.
  - unfold bind in *.
    destruct (mapM (fun c => g c true) (flat_map flattenUnionTypes options) st)
      as [[ys | e] sa] eqn:Hm; [|discriminate].
    injection Hrun as _ <-.
    pose proof (mapM_settled _ _ Hgrow Hset st ys sa Hm st2 Hincl) as H2.
    destruct (mapM (fun c => g c true) (flat_map flattenUnionTypes options) st2)
      as [[ys2 | e2] sb]; exact H2.
  - unfold bind in *.
    destruct (mapM (fun c => g c true)
                (flattenIntersectionTypes z1 ++ flattenIntersectionTypes z2) st)
      as [[ys | e] sa] eqn:Hm; [|discriminate].
    injection Hrun as _ <-.
    pose proof (mapM_settled _ _ Hgrow Hset st ys sa Hm st2 Hincl) as H2.
    destruct (mapM (fun c => g c true)
                (flattenIntersectionTypes z1 ++ flattenIntersectionTypes z2) st2)
      as [[ys2 | e2] sb]; exact H2.
  - destruct hasT'; reflexivity.
  - destruct hasT'; reflexivity.
  - destruct hasT'; reflexivity.
Qed.

Lemma generateSingleSchemaFuel_settled :
  forall n z wm wm' st r s1,
    generateSingleSchemaFuel n z true wm st = (Returns r, s1) ->
    forall st2, componentsIncluded s1 st2 ->
    snd (generateSingleSchemaFuel n z true wm' st2) = st2.
Proof.
  induction n as [| n IH]; intros z wm wm' st r s1; simpl; [reflexivity|].
  set (G := fun schema save => generateSingleSchemaFuel n schema save true).
  intros Hrun st2 Hincl.
  rewrite generateSingleSchemaWith_run in Hrun.
  rewrite generateSingleSchemaWith_run. cbv zeta in *.
  set (name := metaName (getMetadata z)) in *.
  destruct (registered name (schemaRefs st2)) eqn:Hreg2; [reflexivity|].
  assert (Hgrow : growing (fun c => G c true))
    by (intros c s; apply generateSingleSchemaFuel_grows).
  assert (Hset : forall c, In c (callees (unwrapOptional z)) ->
                           settledOn (fun c => G c true) c)
    by (intros c _ s y sa Hc sb Hsb; exact (IH c true true s y sa Hc sb Hsb)).
  destruct (registered name (schemaRefs st)) eqn:Hreg1.
  - injection Hrun as _ <-. exfalso.
    destruct name as [k |]; simpl in *; [|discriminate].
    apply andb_prop in Hreg1. destruct Hreg1 as [Ht Hh].
    rewrite Ht, (answers_kept k _ _ (proj1 Hincl) Hh) in Hreg2. discriminate.
  - destruct (toOpenAPISchemaWith G (unwrapOptional z) (isNullable z)
                (truthy (metaProp "type" (getMetadata z))) true st)
      as [[base | e] sa] eqn:Hd; [|discriminate].
    injection Hrun as _ <-.
    destruct (truthyName name) eqn:Hname; simpl in Hincl.
    + exfalso. destruct name as [k |]; simpl in *; [|discriminate].
      rewrite Hname in Hreg2. simpl in Hreg2.
      rewrite (answers_kept k _ _ (proj1 Hincl) (answers_put k _ _)) in Hreg2.
      discriminate.
    + pose proof (toOpenAPISchemaWith_settled G (unwrapOptional z) _ _ st sa base
                    Hgrow Hset Hd st2 (isNullable z)
                    (truthy (metaProp "type" (getMetadata z))) Hincl) as H2.
      destruct (toOpenAPISchemaWith G (unwrapOptional z) (isNullable z)
                  (truthy (metaProp "type" (getMetadata z))) true st2)
        as [[base2 | e2] sb]; simpl in *; exact H2.
Qed.

Lemma generateSingleRoute_components route st :
  schemaRefs (snd (generateSingleRoute route st)) = schemaRefs st
  /\ paramRefs (snd (generateSingleRoute route st)) = paramRefs st.
Proof.
  rewrite generateSingleRoute_run.
  destruct (fst (generateSingleSchema _ _ _ _)); [|split; reflexivity].
  destruct (fst (getParameters _ _)); [|split; reflexivity].
  destruct (fst (getBodyDoc _ _)); split; reflexivity.
Qed.

Lemma generateSingle_settled definition st r s1 :
  generateSingle definition st = (Returns r, s1) ->
  forall st2, componentsIncluded s1 st2 ->
    schemaRefs (snd (generateSingle definition st2)) = schemaRefs st2
    /\ paramRefs (snd (generateSingle definition st2)) = paramRefs st2.
Proof.
  destruct definition as [z | loc z | route]; simpl.
  - intros Hrun st2 Hincl. unfold generateSingleSchema in *.
    rewrite (generateSingleSchemaFuel_settled _ z true true st r s1 Hrun st2 Hincl).
    split; reflexivity.
  - intros Hrun st2 Hincl.
    rewrite generateSingleParameter_run in Hrun.
    rewrite generateSingleParameter_run. cbv zeta in *.
    set (name := parameterName z None) in *.
    destruct (truthyName name) eqn:Hname; cbn [negb] in *; [|discriminate].
    assert (Hhas : answers (nameText name) (paramRefs s1) = true).
    { destruct (answers (nameText name) (paramRefs st)) eqn:Hh.
      - injection Hrun as _ <-. exact Hh.
      - destruct (generateSingleSchema z false false st) as [[schema | e] sa];
          [|discriminate].
        injection Hrun as _ <-. simpl. apply answers_put. }
    rewrite (answers_kept _ _ _ (proj2 Hincl) Hhas). split; reflexivity.
  - intros _ st2 _. apply generateSingleRoute_components.
Qed.

Lemma forEach_generateSingle_settled defs :
  forall st s1,
    forEach generateSingle defs st = (Returns tt, s1) ->
    forall st2, componentsIncluded s1 st2 ->
      schemaRefs (snd (forEach generateSingle defs st2)) = schemaRefs st2
      /\ paramRefs (snd (forEach generateSingle defs st2)) = paramRefs st2.
Proof.
  induction defs as [| d rest IH]; intros st s1; simpl.
  - intros _ st2 _. split; reflexivity.
  - unfold bind. destruct (generateSingle d st) as [[r | e] sa] eqn:Hd; [|discriminate].
    intros Hrest st2 Hincl.
    assert (Hsa : componentsIncluded sa st2).
    { apply componentsIncluded_trans with (b := s1); [|exact Hincl].
      pose proof (forEach_generateSingle_grows rest sa) as H.
      rewrite Hrest in H. exact H. }
    destruct (generateSingle_settled d st r sa Hd st2 Hsa) as [Hs Hp].
    destruct (generateSingle d st2) as [[r2 | e2] sb]; simpl in Hs, Hp;
      [|split; assumption].
    assert (Hsb : componentsIncluded s1 sb).
    { destruct Hincl as [H1 H2]. split; intros k Hk.
      - rewrite Hs. auto.
      - rewrite Hp. auto. }
    destruct (IH sa s1 Hrest sb Hsb) as [Hs2 Hp2].
    split; congruence.
Qed.

(** X17. One pass settles the components. After the definitions have been
    processed without error, processing the same definitions again, from the
    registries reached or from any registries with at least those schema and
    parameter names, leaves the schema and parameter registries unchanged;
    so a second [generateComponents] on the generator returns, when it
    returns, the same components as the first. *)
Theorem second_pass_registers_nothing
    (defs : list OpenAPIDefinitions) (cfg : option Config.t) (st st1 : Refs)
    (comps : JSObject) :
  generateComponents (mkGenerator defs cfg) st = (Returns comps, st1) ->
  (forall st2, componentsIncluded st1 st2 ->
     schemaRefs (snd (forEach generateSingle defs st2)) = schemaRefs st2
     /\ paramRefs (snd (forEach generateSingle defs st2)) = paramRefs st2)
  /\ (forall comps' st',
        generateComponents (mkGenerator defs cfg) st1 = (Returns comps', st') ->
        comps' = comps).
Proof.
  unfold generateComponents, bind, getRefs, ret. cbn [definitions].
  destruct (forEach generateSingle defs st) as [[[] | e] sa] eqn:Hrun;
    [|discriminate].
  intros [= <- <-].
  pose proof (forEach_generateSingle_settled defs st sa Hrun) as Hset.
  split; [exact Hset|].
  intros comps' st'.
  destruct (Hset sa (componentsIncluded_refl sa)) as [Hs Hp].
  destruct (forEach generateSingle defs sa) as [[[] | e] sb]; [|discriminate].
  simpl in Hs, Hp. intros [= <- _]. unfold componentsOf. rewrite Hs, Hp.
  reflexivity.
Qed.

End Settled.

Lemma second_pass_registers_nothing_witness :
  exists comps st1,
    generateComponents (zod := Zod.methods)
      (mkGenerator [DefSchema userObject; DefParameter path idString;
                    DefRoute pingRoute] None) emptyRefs
    = (Returns comps, st1)
    /\ fst (generateComponents (zod := Zod.methods)
              (mkGenerator [DefSchema userObject; DefParameter path idString;
                            DefRoute pingRoute] None) st1)
       = Returns comps.
Proof.
  eexists. eexists. split; [vm_compute; reflexivity|].
  match goal with
  | |- fst (generateComponents ?g ?s) = Returns ?c =>
      pose proof (proj2 (second_pass_registers_nothing (zod := Zod.methods)
                           (definitions g) None emptyRefs s c eq_refl)) as H;
      destruct (generateComponents g s) as [[c2 | e] s2] eqn:Hrun
  end.
  - simpl. f_equal. exact (H c2 s2 Hrun).
  - vm_compute in Hrun. discriminate Hrun.
Defined.

(* ================================================================= *)
(** * Further properties: parameters, repeated names, failing definitions *)

Section MoreFacts.
Context {zod : ZodMethods}.

(** X18. Metadata of a parameter goes onto the parameter object. When
    [generateSingleParameter] builds a parameter object (reading the name in
    the parameter registry finds nothing, neither an entry nor a property
    every object inherits), the object has [in], [name], [schema] and
    [required] as computed, the nested schema being the node mapped without
    its metadata and without saving, except where a metadata field of the
    same key replaces them; and every field of the metadata (an object with
    distinct keys) other than [name] whose value is neither undefined nor
    null is a field of the object. *)
Theorem parameter_object_carries_the_metadata
    (z : ZodSchema) (loc : ParameterLocation) (save : bool)
    (ext : option string) (st st' : Refs) (r : JSObject) :
  answers (nameText (parameterName z ext)) (paramRefs st) = false ->
  generateSingleParameter z loc save ext st = (Returns r, st') ->
  exists schema,
    generateSingleSchema z false false st = (Returns schema, st)
    /\ (forall k,
          ~ In k (map fst (match getMetadata z with
                           | Some m => buildMetadata m
                           | None => []
                           end)) ->
          Obj.get k r
          = Obj.get k [("in", VStr (locationText loc));
                       ("name", VStr (nameText (parameterName z ext)));
                       ("schema", VObj schema);
                       ("required",
                         VBool (negb (isOptional z) && negb (isNullable z)))])
    /\ (forall m k v,
          getMetadata z = Some m -> NoDup (map fst m) ->
          Obj.get k m = Some v -> k <> "name" -> isNil v = false ->
          Obj.get k r = Some v).
Proof.
  intros Hfresh. rewrite generateSingleParameter_run. cbv zeta.
  destruct (negb _); [discriminate|]. rewrite Hfresh.
  pose proof (generateSingleSchema_frame z false st) as Hframe.
  destruct (generateSingleSchema z false false st) as [[schema | e] s1];
    [|discriminate].
  simpl in Hframe. subst s1. intros [= <- _]. exists schema.
  split; [reflexivity|]. split.
  - intros k Hk. unfold parameterObject. apply get_assign_other. exact Hk.
  - intros m k v Hm Hnd Hget Hk Hv. unfold parameterObject. rewrite Hm.
    apply get_assign_in.
    + unfold buildMetadata, omitBy, omit. apply NoDup_keys_filter.
      apply NoDup_keys_filter. exact Hnd.
    + apply buildMetadata_get; assumption.
Qed.

Lemma reference_once_stored z N save wm st :
  metaName (getMetadata z) = Some N -> truthyString N = true ->
  answers N (schemaRefs st) = true ->
  generateSingleSchema z save wm st
  = (Returns [("$ref", VStr ("#/components/schemas/" ++ N))], st).
Proof.
  intros Hname Ht Hhas.
  rewrite generateSingleSchema_eq, generateSingleSchemaWith_run. cbv zeta.
  rewrite Hname. simpl. rewrite Ht, Hhas. reflexivity.
Qed.

Lemma stored_when_returned z N wm st r st' :
  metaName (getMetadata z) = Some N -> truthyString N = true ->
  answers N (schemaRefs st) = false ->
  generateSingleSchema z true wm st = (Returns r, st') ->
  Obj.get N (schemaRefs st') = Some r.
Proof.
  intros Hname Ht Hfresh.
  rewrite generateSingleSchema_eq, generateSingleSchemaWith_run. cbv zeta.
  rewrite Hname. simpl. rewrite Ht, Hfresh. simpl.
  destruct (toOpenAPISchema _ _ _ _ st) as [[base | e] st1]; [|discriminate].
  intros [= <- <-]. simpl. apply get_put_same.
Qed.

(** X19. A name met twice inside one schema is expanded once. When an object
    is mapped with [saveIfNew = true] and two of its properties carry the same
    non-empty registration name [N], for which reading the schema registry
    finds nothing, the first property gets the full fragment, which is
    stored, and the second gets the object whose only property is [$ref] with
    the text [#/components/schemas/] followed by [N], whatever its own
    structure is. When [N] is a name every object inherits, both properties
    get that reference and the registries stay as they are. *)
Theorem repeated_name_in_an_object_becomes_a_reference
    (md : option ZodOpenAPIMetadata) (k1 k2 : string) (A B : ZodSchema)
    (unknownKeys : UnknownKeysParam) (N : string) (isN hasT : bool)
    (st : Refs) :
  metaName (getMetadata A) = Some N ->
  metaName (getMetadata B) = Some N ->
  truthyString N = true ->
  (answers N (schemaRefs st) = false ->
   forall rA st1,
     generateSingleSchema A true true st = (Returns rA, st1) ->
     exists base,
       toOpenAPISchema (ZodObject md [(k1, A); (k2, B)] unknownKeys)
         isN hasT true st = (Returns base, st1)
       /\ prop "properties" base
          = VObj [(k1, VObj rA);
                  (k2, VObj [("$ref", VStr ("#/components/schemas/" ++ N))])]
       /\ Obj.get N (schemaRefs st1) = Some rA)
  /\ (inherited N = true ->
      exists base,
        toOpenAPISchema (ZodObject md [(k1, A); (k2, B)] unknownKeys)
          isN hasT true st = (Returns base, st)
        /\ prop "properties" base
           = VObj [(k1, VObj [("$ref", VStr ("#/components/schemas/" ++ N))]);
                   (k2, VObj [("$ref", VStr ("#/components/schemas/" ++ N))])]).
Proof.
  intros HA HB Ht. split.
  - intros Hfresh rA st1 Hrun.
    pose proof (stored_when_returned A N true st rA st1 HA Ht Hfresh Hrun) as Hget.
    assert (Hhas : answers N (schemaRefs st1) = true)
      by (unfold answers, Obj.has; rewrite Hget; reflexivity).
    pose proof (reference_once_stored B N true true st1 HB Ht Hhas) as HrunB.
    eexists. split; [|split; [|exact Hget]].
    + unfold toOpenAPISchema. simpl. unfold bind. rewrite Hrun, HrunB. reflexivity.
    + reflexivity.
  - intros Hinh.
    assert (Hans : answers N (schemaRefs st) = true)
      by (unfold answers; rewrite Hinh; apply orb_true_r).
    pose proof (reference_once_stored A N true true st HA Ht Hans) as HrunA.
    pose proof (reference_once_stored B N true true st HB Ht Hans) as HrunB.
    eexists. split.
    + unfold toOpenAPISchema. simpl. unfold bind. rewrite HrunA, HrunB. reflexivity.
    + reflexivity.
Qed.

(** X20. The first failing definition ends the processing. When the
    definitions before [d] map without error and [d] throws, [generateDocs]
    and [generateComponents] throw that error and leave the registries as [d]
    left them, whatever definitions follow [d]: these are never processed,
    and everything registered before the failure is still registered. *)
Theorem first_failing_definition_aborts
    (pre rest : list OpenAPIDefinitions) (d : OpenAPIDefinitions)
    (cfg : Config.t) (other : option Config.t) (st s1 s2 : Refs) (e : Error) :
  forEach generateSingle pre st = (Returns tt, s1) ->
  generateSingle d s1 = (Throws e, s2) ->
  generateDocs (mkGenerator (pre ++ d :: rest) (Some cfg)) st = (Throws e, s2)
  /\ generateComponents (mkGenerator (pre ++ d :: rest) other) st = (Throws e, s2)
  /\ keysKept st s1 /\ keysKept s1 s2.
Proof.
  intros Hpre Hd.
  pose proof (forEach_aborts generateSingle pre rest d st s1 s2 e Hpre Hd) as Hrun.
  split; [|split; [|split]].
  - unfold generateDocs, bind. cbn [config definitions]. rewrite Hrun. reflexivity.
  - unfold generateComponents, bind. cbn [definitions]. rewrite Hrun. reflexivity.
  - pose proof (proj1 (forEach_generateSingle_inv (keysKept st) (fun _ => True)
                    (fun _ => Logic.I) Logic.I
                    (fun s n r H => keysKept_storeParam st s n r H)
                    (fun s n r H => keysKept_storePath st s n r H)
                    (fun _ _ _ _ _ sa r H => keysKept_storeSchema st sa _ r H)
                    pre st (keysKept_refl st))) as H.
    rewrite Hpre in H. exact H.
  - pose proof (proj1 (generateSingle_inv (keysKept s1) (fun _ => True)
                    (fun _ => Logic.I) Logic.I
                    (fun s n r H => keysKept_storeParam s1 s n r H)
                    (fun s n r H => keysKept_storePath s1 s n r H)
                    (fun _ _ _ _ _ sa r H => keysKept_storeSchema s1 sa _ r H)
                    d s1 (keysKept_refl s1))) as H.
    rewrite Hd in H. exact H.
Qed.

End MoreFacts.

(* ================================================================= *)
(** * The further properties at work on concrete schemas *)

Lemma mapped_fragment_has_no_name_field_witness :
  generateSingleSchema userObject true true emptyRefs = (Returns userFragment, afterUser)
  /\ Obj.get "name" userFragment = None.
Proof.
  split; [reflexivity|].
  exact (mapped_fragment_has_no_name_field userObject true true emptyRefs afterUser
           userFragment eq_refl).
Defined.

Lemma dispatch_writes_nullable_for_seven_kinds_witness :
  prop "nullable" [("type", VStr "array"); ("items", VObj [("type", VStr "string")]);
                   ("minItems", VUndefined); ("maxItems", VUndefined)]
  = VUndefined.
Proof.
  exact (dispatch_writes_nullable_for_seven_kinds
           (ZodArray None zString None None) true false false emptyRefs emptyRefs
           _ eq_refl).
Defined.

Lemma object_fragment_follows_the_shape_witness :
  toOpenAPISchema MoreExamples.openObject false false false emptyRefs
  = (Returns [("type", VStr "object"); ("properties", VObj []);
              ("required", VArr []); ("additionalProperties", VUndefined);
              ("nullable", VUndefined)], emptyRefs)
  /\ prop "additionalProperties"
       [("type", VStr "object"); ("properties", VObj []);
        ("required", VArr []); ("additionalProperties", VUndefined);
        ("nullable", VUndefined)] = VUndefined
  /\ generateSingleSchema MoreExamples.openObject false true emptyRefs
     = (Returns [("type", VStr "object"); ("properties", VObj []);
                 ("required", VArr [])], emptyRefs).
Proof.
  split; [reflexivity|]. split; [|reflexivity].
  exact (proj2 (object_fragment_follows_the_shape None [] passthrough
                  false false false)
           emptyRefs emptyRefs _ eq_refl).
Defined.

Lemma parameter_object_carries_the_metadata_witness :
  exists r st',
    generateSingleParameter MoreExamples.described query false None emptyRefs
    = (Returns r, st')
    /\ Obj.get "description" r = Some (VStr "login").
Proof.
  eexists. eexists. split; [vm_compute; reflexivity|].
  destruct (parameter_object_carries_the_metadata MoreExamples.described query
              false None emptyRefs _ _ eq_refl eq_refl) as [schema [_ [_ H]]].
  apply (H [("name", VStr "Login"); ("description", VStr "login");
            ("type", VStr "integer")] "description" (VStr "login") eq_refl).
  - repeat constructor; simpl; intuition discriminate.
  - reflexivity.
  - discriminate.
  - reflexivity.
Defined.

Lemma repeated_name_in_an_object_becomes_a_reference_witness :
  exists base,
    toOpenAPISchema (ZodObject None [("a", userObject); ("b", userString)] strip)
      false false true emptyRefs = (Returns base, afterUser)
    /\ prop "properties" base
       = VObj [("a", VObj userFragment);
               ("b", VObj [("$ref", VStr "#/components/schemas/User")])]
    /\ Obj.get "User" (schemaRefs afterUser) = Some userFragment.
Proof.
  exact (proj1 (repeated_name_in_an_object_becomes_a_reference None "a" "b"
                  userObject userString strip "User" false false emptyRefs
                  eq_refl eq_refl eq_refl)
           eq_refl userFragment afterUser eq_refl).
Defined.

Lemma first_failing_definition_aborts_witness :
  generateComponents
    (mkGenerator ([DefSchema userObject] ++ DefSchema zDate :: [DefSchema zString])
       None) emptyRefs
  = (Throws (UnknownZodType zDate), afterUser)
  /\ keysKept emptyRefs afterUser.
Proof.
  assert (Hpre : forEach generateSingle [DefSchema userObject] emptyRefs
                 = (Returns tt, afterUser)) by reflexivity.
  assert (Hd : generateSingle (DefSchema zDate) afterUser
               = (Throws (UnknownZodType zDate), afterUser)) by reflexivity.
  destruct (first_failing_definition_aborts [DefSchema userObject]
              [DefSchema zString] (DefSchema zDate)
              (Config.mk "3.0.0" [] None None None None) None
              emptyRefs afterUser afterUser (UnknownZodType zDate)
              Hpre Hd) as [_ [H [H1 _]]].
  split; [exact H | exact H1].
Defined.
